(** * vue-request: the query registry (useAsyncQuery) and the list
      accumulation layer (useLoadMore)

    A shallow embedding of [src/core/useAsyncQuery.ts] and
    [src/useLoadMore.ts].  The hooks keep their state in Vue refs and in
    closures; here that state is one record which every operation takes
    and returns.  An operation that can raise a [TypeError] in the
    source returns [option]: [None] is the exception leaving the call.

    Asynchrony is made explicit.  A call of the user's service is an
    entry of the effect trace; its settlement is a separate step
    ([resolve] / [reject]) which names the unit and the attempt it
    belongs to.  Vue runs a watcher that has no [flush] option from its
    scheduler queue, after the code that changed the state has returned:
    that is the step [flush].  A watcher declared with [flush: 'sync']
    runs inside the assignment that triggers it. *)

From Stdlib Require Import ZArith Ascii String DecimalString.
From stdpp Require Import base option list strings gmap.

Local Open Scope Z_scope.

(** ** JavaScript data *)

Set Warnings "-register-all,-clear-no-such-hyp".

Module JS.

(** The values that travel through the hooks: results of the service
    and arguments of [run]. *)
Inductive value : Type :=
  | VUndef
  | VBool (b : bool)
  | VNum (n : Z)
  | VStr (s : string)
  | VArr (items : list value)
  | VObj (fields : list (string * value)).

(** [x !== undefined] *)
Definition defined (v : value) : bool :=
  match v with VUndef => false | _ => true end.

(** Structural comparison; it stands for the identity test Vue makes
    when a ref is assigned, to decide whether its dependants run. *)
Fixpoint value_eqb (a b : value) {struct a} : bool :=
  match a, b with
  | VUndef, VUndef => true
  | VBool x, VBool y => bool_decide (x = y)
  | VNum x, VNum y => bool_decide (x = y)
  | VStr x, VStr y => bool_decide (x = y)
  | VArr xs, VArr ys =>
      (fix items (xs ys : list value) {struct xs} : bool :=
         match xs, ys with
         | [], [] => true
         | x :: xs', y :: ys' => value_eqb x y && items xs' ys'
         | _, _ => false
         end) xs ys
  | VObj xs, VObj ys =>
      (fix fields (xs ys : list (string * value)) {struct xs} : bool :=
         match xs, ys with
         | [], [] => true
         | (n, x) :: xs', (m, y) :: ys' =>
             bool_decide (n = m) && value_eqb x y && fields xs' ys'
         | _, _ => false
         end) xs ys
  | _, _ => false
  end.

(** Property keys.  A key that is the decimal form of a natural number
    (an array index, such as [String(2)]; the page counter stays far
    below the bound [2^32 - 1] of array indices) is [KIdx]; every other
    string is [KName]. *)
Inductive key : Type :=
  | KIdx (n : N)
  | KName (s : string).

#[global] Instance key_eq_dec : EqDecision key.
Proof. solve_decision. Defined.

(** [String(z)] used as a property key. *)
Definition key_of_Z (z : Z) : key :=
  if bool_decide (0 <= z) then KIdx (Z.to_N z)
  else KName (NilZero.string_of_int (Z.to_int z)).

(** Truthiness of a key in a condition: only the empty string is
    falsy. *)
Definition key_truthy (k : key) : bool :=
  match k with KName EmptyString => false | _ => true end.

(** An object used as a dictionary, as the list of its own properties
    in the order [Object.keys] reports them: index keys in ascending
    numeric order first, then the other keys in the order they were
    added. *)
Definition obj (A : Type) : Type := list (key * A).

Definition key_before (k k' : key) : bool :=
  match k, k' with
  | KIdx a, KIdx b => bool_decide (a < b)%N
  | KIdx _, KName _ => true
  | KName _, _ => false
  end.

(** The own property of [o] under [k].  It is what a read [o[k]] finds
    for a key that [Object.keys] listed; for a key that comes from
    elsewhere the read also sees what the object inherits, see
    [inherited]. *)
Fixpoint obj_get {A} (k : key) (o : obj A) : option A :=
  match o with
  | [] => None
  | (k', v) :: o' => if decide (k = k') then Some v else obj_get k o'
  end.

(** The names a plain object answers without owning them: the
    properties of [Object.prototype], and the two flags Vue's reactive
    proxy answers itself with a truthy value. *)
Definition prototype_names : list string :=
  ["constructor"; "toString"; "toLocaleString"; "valueOf";
   "hasOwnProperty"; "isPrototypeOf"; "propertyIsEnumerable";
   "__proto__"; "__defineGetter__"; "__defineSetter__";
   "__lookupGetter__"; "__lookupSetter__";
   "__v_isReactive"; "__v_raw"].

(** A read [o[k]] finds the own property [obj_get k o]; when there is
    none and [k] is one of these names it finds the inherited property,
    which is truthy and is no unit: it has none of the fields and
    methods of one. *)
Definition inherited (k : key) : bool :=
  match k with
  | KIdx _ => false
  | KName s => bool_decide (s ∈ prototype_names)
  end.

(** [o[k] = v] *)
Fixpoint obj_set {A} (k : key) (v : A) (o : obj A) : obj A :=
  match o with
  | [] => [(k, v)]
  | (k', v') :: o' =>
      if decide (k = k') then (k, v) :: o'
      else if key_before k k' then (k, v) :: (k', v') :: o'
      else (k', v') :: obj_set k v o'
  end.

(** [delete o[k]] *)
Fixpoint obj_delete {A} (k : key) (o : obj A) : obj A :=
  match o with
  | [] => []
  | (k', v) :: o' =>
      if decide (k = k') then obj_delete k o' else (k', v) :: obj_delete k o'
  end.

Definition obj_keys {A} (o : obj A) : list key := map fst o.
Definition obj_values {A} (o : obj A) : list A := map snd o.

(** The order of two keys of one object: [k] is listed before [k']. *)
Definition listed_before (k k' : key) : Prop :=
  match k, k' with
  | KIdx a, KIdx b => (a < b)%N
  | KIdx _, KName _ => True
  | KName s, KName t => s ≠ t
  | KName _, KIdx _ => False
  end.

(** An object is well formed when its keys are distinct, the index
    keys come first and ascend. *)
Fixpoint obj_wf {A} (o : obj A) : Prop :=
  match o with
  | [] => True
  | (k, _) :: o' => Forall (listed_before k) (obj_keys o') ∧ obj_wf o'
  end.

(** Field of an object value, [undefined] when there is none. *)
Fixpoint field (name : string) (fs : list (string * value)) : value :=
  match fs with
  | [] => VUndef
  | (n, v) :: fs' => if decide (name = n) then v else field name fs'
  end.

(** Splits a path at its dots. *)
Fixpoint split_path (acc : string) (p : string) : list string :=
  match p with
  | EmptyString => [acc]
  | String c p' =>
      if decide (c = "."%char) then acc :: split_path EmptyString p'
      else split_path (acc +:+ String c EmptyString) p'
  end.

Fixpoint get_segments (source : value) (segs : list string) : value :=
  match segs with
  | [] => source
  | s :: segs' =>
      match source with
      | VObj fs =>
          match field s fs with
          | VUndef => VUndef
          | v => get_segments v segs'
          end
      | _ => VUndef
      end
  end.

(** Modelled from the spec: the helper [get] of [core/utils], which is
    not among the sources.  Section 4.4 has the list field "looked up
    by a configurable path": the path is read as property names
    separated by dots, followed from the source value; a step that
    finds nothing gives [undefined]. *)
Definition get (source : value) (path : string) : value :=
  get_segments source (split_path EmptyString path).

End JS.
Export JS.

(** ** The query unit *)

Module Query.

(** The four observable fields of a unit: [State<R, P>] with its refs
    read.  A field that is [undefined] is [VUndef] or [None]. *)
Record State : Type := {
  loading : bool;
  data : value;
  error : option value;
  params : option (list value) }.

(** A unit together with what its closure holds: the generation of its
    latest attempt and whether it is still mounted.  [uid] tells apart
    two units that were registered under the same key one after the
    other; a settlement is addressed to a unit, not to a key. *)
Record Unit : Type := {
  uid : nat;
  state : State;
  count : nat;
  mounted : bool }.

(** Modelled from the spec: the state of a new unit.  Section 3 has
    [data] and [error] optional and [params] an ordered sequence;
    section 8: a new unit has [data] and [error] unset and
    [loading = false].  Its [params] is the empty sequence: the layer
    destructures the [params] of the view in [loadMore], [refresh] and
    [reload], which may be the first call after the construction. *)
Definition initialState : State :=
  {| loading := false; data := VUndef; error := None; params := Some [] |}.

(** Modelled from the spec: [createQuery] of [core/createQuery], which is
    not among the sources.  A unit made from a cached snapshot starts
    from that snapshot; [params] is unset, as section 4.2 has it for
    [refresh], only when the snapshot has none. *)
Definition createQuery (id : nat) (initial : option State) : Unit :=
  {| uid := id; state := default initialState initial;
     count := 0; mounted := true |}.

(** Modelled from the spec: section 4.2, [run]: "starts a new attempt,
    immediately sets loading=true and params=args".  The attempt is
    numbered by the generation counter of section 5. *)
Definition started (args : list value) (u : Unit) : Unit :=
  {| uid := uid u;
     state := {| loading := true; data := data (state u);
                 error := error (state u); params := Some args |};
     count := S (count u); mounted := mounted u |}.

(** Modelled from the spec: section 4.2, resolution of the latest
    attempt: "sets data, clears error, loading=false". *)
Definition succeeded (res : value) (u : Unit) : Unit :=
  {| uid := uid u;
     state := {| loading := false; data := res;
                 error := None; params := params (state u) |};
     count := count u; mounted := mounted u |}.

(** Modelled from the spec: section 4.2, rejection of the latest
    attempt: "symmetric handling setting error". *)
Definition failed (err : value) (u : Unit) : Unit :=
  {| uid := uid u;
     state := {| loading := false; data := VUndef;
                 error := Some err; params := params (state u) |};
     count := count u; mounted := mounted u |}.

(** Modelled from the spec: section 4.2, [cancel]: "marks the in-flight
    attempt as superseded ..., sets loading=false.  Does not clear
    data/error". *)
Definition cancelled (u : Unit) : Unit :=
  {| uid := uid u;
     state := {| loading := false; data := data (state u);
                 error := error (state u); params := params (state u) |};
     count := S (count u); mounted := mounted u |}.

(** Modelled from the spec: section 4.2, [mutate]: "synchronously
    overwrites data ...; does not affect loading/error". *)
Definition mutated (res : value) (u : Unit) : Unit :=
  {| uid := uid u;
     state := {| loading := loading (state u); data := res;
                 error := error (state u); params := params (state u) |};
     count := count u; mounted := mounted u |}.

(** Modelled from the spec: section 4.2, [unmount]: "marks the unit
    inert". *)
Definition unmounted (u : Unit) : Unit :=
  {| uid := uid u; state := state u; count := count u; mounted := false |}.

End Query.

(** ** The cache store *)

Module Cache.

Record Data : Type := {
  queries : obj Query.State;
  latestQueriesKey : key }.

Record Entry : Type := {
  data : Data;
  cacheTime : Z }.

(** Modelled from the spec: [getCache] of [core/utils/cache], which is
    not among the sources.  Section 4.1: "returns current entry if not
    yet evicted"; the store holds the entries that have not been
    evicted. *)
Definition getCache (cacheKey : string) (store : gmap string Entry) :
    option Entry :=
  store !! cacheKey.

(** Modelled from the spec: [setCache] of [core/utils/cache], which is
    not among the sources.  Section 4.1: "overwrites stored entry"; the
    entry records the time of the write (section 3).  The eviction timer
    it arms is not represented. *)
Definition setCache (cacheKey : string) (d : Data) (ttl : Z) (time : Z)
    (store : gmap string Entry) : gmap string Entry :=
  <[cacheKey := {| data := d; cacheTime := time |}]> store.

End Cache.

(** What the hooks do to their collaborators, most recent first. *)
Inductive Effect : Type :=
  | Called (id attempt : nat) (args : list value)
  | Cancelled (id : nat)
  | Unmounted (id : nat)
  | CacheWritten (cacheKey : string).

(** The arguments the service was called with, most recent first. *)
Definition calls (t : list Effect) : list (list value) :=
  omap (λ e, match e with Called _ _ args => Some args | _ => None end) t.

(** The cache keys written, most recent first. *)
Definition writes (t : list Effect) : list string :=
  omap (λ e, match e with CacheWritten ck => Some ck | _ => None end) t.

(** The units that were cancelled, most recent first. *)
Definition cancelledIds (t : list Effect) : list nat :=
  omap (λ e, match e with Cancelled id => Some id | _ => None end) t.

(** What [run] returns: the promise of a unit's attempt, or the shared
    promise that is already resolved. *)
Inductive Promise : Type :=
  | resolvedPromise
  | attemptPromise (id attempt : nat).

(** ** The query registry: [useAsyncQuery] *)

Module AsyncQuery.

Definition QUERY_DEFAULT_KEY : key := KName "__QUERY_DEFAULT_KEY__".

(** The flattened view: the refs [loading], [data], [error] and [params]
    the hook returns.  A field is unset when the watcher copied it from
    the empty object that stands for a missing unit. *)
Record View : Type := {
  loading : option bool;
  data : value;
  error : option value;
  params : option (list value) }.

Section Registry.

(** The state the caller's closures read and write: nothing for a plain
    registry, the counters and flags of the accumulation layer when
    [useLoadMore] is the caller. *)
Context {S : Type}.

(** The options the registry reads.  [queryKey] and the two callbacks
    are closures of the caller: they read, and the callbacks change, the
    caller's state.  The options that only reach the unit's timers
    (polling, retry, loading delay, focus), with the flag
    [initialAutoRunFlag] that goes with them, keep their defaults and
    are not represented; nor is the watcher of [refreshDeps]. *)
Record Options : Type := {
  cacheKey : option string;
  defaultParams : list value;
  manual : bool;
  ready : bool;
  cacheTime : Z;
  staleTime : Z;
  queryKey : option (S → list value → key);
  onSuccess : S → S;
  onError : S → S }.

Record Registry : Type := {
  queries : obj Query.Unit;
  latestQueriesKey : key;
  view : View;
  tempReadyParams : option (list value);
  hasTriggerReady : bool;
  (** the current value of the [ready] ref *)
  readyValue : bool;
  (** the watcher of [ready] is installed and has not been stopped *)
  stopReady : bool;
  (** the process-wide cache store and the clock *)
  store : gmap string Cache.Entry;
  now : Z;
  nextId : nat;
  trace : list Effect;
  env : S }.

Definition set_queries (q : obj Query.Unit) (r : Registry) : Registry :=
  {| queries := q; latestQueriesKey := latestQueriesKey r; view := view r;
     tempReadyParams := tempReadyParams r;
     hasTriggerReady := hasTriggerReady r; readyValue := readyValue r;
     stopReady := stopReady r; store := store r; now := now r;
     nextId := nextId r; trace := trace r; env := env r |}.

Definition set_latestQueriesKey (k : key) (r : Registry) : Registry :=
  {| queries := queries r; latestQueriesKey := k; view := view r;
     tempReadyParams := tempReadyParams r;
     hasTriggerReady := hasTriggerReady r; readyValue := readyValue r;
     stopReady := stopReady r; store := store r; now := now r;
     nextId := nextId r; trace := trace r; env := env r |}.

Definition set_view (v : View) (r : Registry) : Registry :=
  {| queries := queries r; latestQueriesKey := latestQueriesKey r; view := v;
     tempReadyParams := tempReadyParams r;
     hasTriggerReady := hasTriggerReady r; readyValue := readyValue r;
     stopReady := stopReady r; store := store r; now := now r;
     nextId := nextId r; trace := trace r; env := env r |}.

Definition set_tempReadyParams (p : option (list value)) (r : Registry) :
    Registry :=
  {| queries := queries r; latestQueriesKey := latestQueriesKey r;
     view := view r; tempReadyParams := p;
     hasTriggerReady := hasTriggerReady r; readyValue := readyValue r;
     stopReady := stopReady r; store := store r; now := now r;
     nextId := nextId r; trace := trace r; env := env r |}.

Definition set_hasTriggerReady (b : bool) (r : Registry) : Registry :=
  {| queries := queries r; latestQueriesKey := latestQueriesKey r;
     view := view r; tempReadyParams := tempReadyParams r;
     hasTriggerReady := b; readyValue := readyValue r;
     stopReady := stopReady r; store := store r; now := now r;
     nextId := nextId r; trace := trace r; env := env r |}.

Definition set_readyValue (b : bool) (r : Registry) : Registry :=
  {| queries := queries r; latestQueriesKey := latestQueriesKey r;
     view := view r; tempReadyParams := tempReadyParams r;
     hasTriggerReady := hasTriggerReady r; readyValue := b;
     stopReady := stopReady r; store := store r; now := now r;
     nextId := nextId r; trace := trace r; env := env r |}.

Definition set_stopReady (b : bool) (r : Registry) : Registry :=
  {| queries := queries r; latestQueriesKey := latestQueriesKey r;
     view := view r; tempReadyParams := tempReadyParams r;
     hasTriggerReady := hasTriggerReady r; readyValue := readyValue r;
     stopReady := b; store := store r; now := now r;
     nextId := nextId r; trace := trace r; env := env r |}.

Definition set_store (s : gmap string Cache.Entry) (r : Registry) : Registry :=
  {| queries := queries r; latestQueriesKey := latestQueriesKey r;
     view := view r; tempReadyParams := tempReadyParams r;
     hasTriggerReady := hasTriggerReady r; readyValue := readyValue r;
     stopReady := stopReady r; store := s; now := now r;
     nextId := nextId r; trace := trace r; env := env r |}.

Definition set_now (t : Z) (r : Registry) : Registry :=
  {| queries := queries r; latestQueriesKey := latestQueriesKey r;
     view := view r; tempReadyParams := tempReadyParams r;
     hasTriggerReady := hasTriggerReady r; readyValue := readyValue r;
     stopReady := stopReady r; store := store r; now := t;
     nextId := nextId r; trace := trace r; env := env r |}.

Definition set_nextId (n : nat) (r : Registry) : Registry :=
  {| queries := queries r; latestQueriesKey := latestQueriesKey r;
     view := view r; tempReadyParams := tempReadyParams r;
     hasTriggerReady := hasTriggerReady r; readyValue := readyValue r;
     stopReady := stopReady r; store := store r; now := now r;
     nextId := n; trace := trace r; env := env r |}.

Definition log (e : Effect) (r : Registry) : Registry :=
  {| queries := queries r; latestQueriesKey := latestQueriesKey r;
     view := view r; tempReadyParams := tempReadyParams r;
     hasTriggerReady := hasTriggerReady r; readyValue := readyValue r;
     stopReady := stopReady r; store := store r; now := now r;
     nextId := nextId r; trace := e :: trace r; env := env r |}.

Definition set_env (e : S) (r : Registry) : Registry :=
  {| queries := queries r; latestQueriesKey := latestQueriesKey r;
     view := view r; tempReadyParams := tempReadyParams r;
     hasTriggerReady := hasTriggerReady r; readyValue := readyValue r;
     stopReady := stopReady r; store := store r; now := now r;
     nextId := nextId r; trace := trace r; env := e |}.

Variable opts : Options.

(** [queryKey?.(...args) ?? QUERY_DEFAULT_KEY] *)
Definition keyFor (e : S) (args : list value) : key :=
  match queryKey opts with
  | Some f => f e args
  | None => QUERY_DEFAULT_KEY
  end.

(** [{...cacheQueries?.[currentQueryKey], ...queryData}]: the snapshot
    has the four fields of the cached one and overrides them all. *)
Definition spread (cached : option Query.State) (queryData : Query.State) :
    Query.State :=
  queryData.

(** [updateCache]: nothing without a cache key ([undefined] and the
    empty string are falsy).  [...state.params.value] spreads the unit's
    params into [queryKey]; when there is a key function and the params
    are unset the spread raises. *)
Definition updateCache (state : Query.State) (r : Registry) :
    option Registry :=
  match cacheKey opts with
  | None | Some EmptyString => Some r
  | Some ck =>
      let cacheData := Cache.data <$> Cache.getCache ck (store r) in
      let cacheQueries := Cache.queries <$> cacheData in
      let queryData := state in
      currentQueryKey ←
        match queryKey opts with
        | Some f => args ← Query.params state; Some (f (env r) args)
        | None => Some QUERY_DEFAULT_KEY
        end;
      Some (log (CacheWritten ck)
        (set_store
          (Cache.setCache ck
            {| Cache.queries :=
                 obj_set currentQueryKey
                   (spread (cacheQueries ≫= obj_get currentQueryKey) queryData)
                   (default [] cacheQueries);
               Cache.latestQueriesKey := currentQueryKey |}
            (cacheTime opts) (now r) (store r))
          r))
  end.

(** Modelled from the spec: the unit's state setter of
    [core/createQuery], which is not among the sources.  Section 3: the
    registry writes to the cache "on unit state change": the unit under
    key [k] takes its new state and [updateCache], which the unit holds
    through its config, is called with it. *)
Definition commit (k : key) (u' : Query.Unit) (r : Registry) :
    option Registry :=
  updateCache (Query.state u') (set_queries (obj_set k u' (queries r)) r).

(** Modelled from the spec: [run] of a unit (section 4.2).  The state
    change, then the call of the service; the promise is that of the
    new attempt.  Calling it on a key that holds no unit is a call on
    [undefined]. *)
Definition unit_run (k : key) (args : list value) (r : Registry) :
    option (Registry * Promise) :=
  u ← obj_get k (queries r);
  let u' := Query.started args u in
  r1 ← commit k u' r;
  Some (log (Called (Query.uid u') (Query.count u') args) r1,
        attemptPromise (Query.uid u') (Query.count u')).

(** Modelled from the spec: [refresh] of a unit (section 4.2):
    "re-invokes run with the unit's current params (no-op if params is
    unset)". *)
Definition unit_refresh (k : key) (r : Registry) : option Registry :=
  u ← obj_get k (queries r);
  match Query.params (Query.state u) with
  | Some args => fst <$> unit_run k args r
  | None => Some r
  end.

(** Modelled from the spec: [cancel] of a unit (section 4.2). *)
Definition unit_cancel (k : key) (r : Registry) : option Registry :=
  u ← obj_get k (queries r);
  r1 ← commit k (Query.cancelled u) r;
  Some (log (Cancelled (Query.uid u)) r1).

(** Modelled from the spec: [unmount] of a unit (section 4.2). *)
Definition unit_unmount (k : key) (r : Registry) : option Registry :=
  u ← obj_get k (queries r);
  Some (log (Unmounted (Query.uid u))
          (set_queries (obj_set k (Query.unmounted u) (queries r)) r)).

(** Modelled from the spec: [mutate] of a unit (section 4.2), with a
    value. *)
Definition unit_mutate (k : key) (res : value) (r : Registry) :
    option Registry :=
  u ← obj_get k (queries r);
  commit k (Query.mutated res u) r.

(** The unit a settlement is addressed to, with its key. *)
Definition find_unit (id : nat) (q : obj Query.Unit) :
    option (key * Query.Unit) :=
  List.find (λ e, bool_decide (Query.uid (snd e) = id)) q.

(** Modelled from the spec: the service resolves attempt [n] of unit
    [id] with [res] (section 4.2).  Only the latest attempt commits;
    then the success callback fires.  A unit that is no longer in the
    registry was cancelled before it was dropped, so its attempts are
    all superseded. *)
Definition resolve (id n : nat) (res : value) (r : Registry) :
    option Registry :=
  match find_unit id (queries r) with
  | Some (k, u) =>
      if bool_decide (n = Query.count u) then
        r1 ← commit k (Query.succeeded res u) r;
        Some (set_env (onSuccess opts (env r1)) r1)
      else Some r
  | None => Some r
  end.

(** Modelled from the spec: the service rejects attempt [n] of unit
    [id] with [err] (section 4.2), no retry being configured. *)
Definition reject (id n : nat) (err : value) (r : Registry) :
    option Registry :=
  match find_unit id (queries r) with
  | Some (k, u) =>
      if bool_decide (n = Query.count u) then
        r1 ← commit k (Query.failed err u) r;
        Some (set_env (onError opts (env r1)) r1)
      else Some r
  | None => Some r
  end.

(** [latestQuery]: the computed [queries[latestQueriesKey.value] ?? {}];
    [None] is a value with none of the fields and methods of a unit:
    the empty object, or the inherited property when the current key is
    a name the object inherits and does not own.  Every reader of
    [latestQuery] treats the two alike: the four fields read as
    [undefined] and a method call raises. *)
Definition latestQuery (r : Registry) : option Query.Unit :=
  obj_get (latestQueriesKey r) (queries r).

(** What the state watcher copies from [latestQuery]. *)
Definition mirror (r : Registry) : View :=
  match latestQuery r with
  | Some u =>
      {| loading := Some (Query.loading (Query.state u));
         data := Query.data (Query.state u);
         error := Query.error (Query.state u);
         params := Query.params (Query.state u) |}
  | None =>
      {| loading := None; data := VUndef; error := None; params := None |}
  end.

(** The callback of the state watcher.  It is declared [immediate] and
    [deep] with no [flush] option: it runs once when it is installed
    and afterwards from Vue's scheduler queue. *)
Definition syncState (r : Registry) : Registry :=
  set_view (mirror r) r.

(** A new unit under [k]: [queries[k] = reactive(createQuery(query,
    config, initial))]. *)
Definition register (k : key) (initial : option Query.State) (r : Registry) :
    Registry :=
  set_nextId (Datatypes.S (nextId r))
    (set_queries
       (obj_set k (Query.createQuery (nextId r) initial) (queries r)) r).

(** [run].  The test [!queries[newKey]] reads the property as any read
    does: under a name the object inherits and does not own it finds the
    inherited property, so no unit is created; the key is made current
    all the same and [latestQuery.value.run], which that property does
    not have, raises. *)
Definition run (args : list value) (r : Registry) :
    option (Registry * Promise) :=
  if negb (readyValue r) && negb (hasTriggerReady r) then
    Some (set_tempReadyParams (Some args) r, resolvedPromise)
  else
    let newKey := keyFor (env r) args in
    let r1 :=
      match obj_get newKey (queries r) with
      | Some _ => r
      | None =>
          if inherited newKey then r else register newKey None r
      end in
    let r2 := set_latestQueriesKey newKey r1 in
    unit_run (latestQueriesKey r2) args r2.

(** [Object.keys(o).forEach(f)]: the keys are read once, before the
    first call; an exception in a call ends the loop. *)
Fixpoint forEach (f : key → Registry → option Registry) (keys : list key)
    (r : Registry) : option Registry :=
  match keys with
  | [] => Some r
  | k :: keys' => r1 ← f k r; forEach f keys' r1
  end.

(** [queries[key].cancel(); queries[key].unmount(); delete queries[key]] *)
Definition discard (k : key) (r : Registry) : option Registry :=
  r1 ← unit_cancel k r;
  r2 ← unit_unmount k r1;
  Some (set_queries (obj_delete k (queries r2)) r2).

(** [unmountQueries], which [reset] calls and which [onUnmounted]
    registers for the unmounting of the owner. *)
Definition unmountQueries (r : Registry) : option Registry :=
  forEach discard (obj_keys (queries r)) r.

(** [reset] *)
Definition reset (r : Registry) : option Registry :=
  r1 ← unmountQueries r;
  let r2 := set_latestQueriesKey QUERY_DEFAULT_KEY r1 in
  Some (register QUERY_DEFAULT_KEY None r2).

(** [cancel], [refresh] and [mutate] go to [latestQuery.value]; on the
    empty object the method is missing and the call raises. *)
Definition cancel (r : Registry) : option Registry :=
  _ ← latestQuery r; unit_cancel (latestQueriesKey r) r.

Definition refresh (r : Registry) : option Registry :=
  _ ← latestQuery r; unit_refresh (latestQueriesKey r) r.

Definition mutate (res : value) (r : Registry) : option Registry :=
  _ ← latestQuery r; unit_mutate (latestQueriesKey r) res r.

(** The [ready] ref is assigned [val].  Assigning the value it has does
    not trigger its watcher; the watcher is [flush: 'sync'], so its
    callback runs inside the assignment.  [tempReadyParams.value] is an
    array when it is set, hence truthy. *)
Definition setReady (val : bool) (r : Registry) : option Registry :=
  if bool_decide (val = readyValue r) then Some r
  else
    let r1 := set_readyValue val r in
    if stopReady r1 then
      let r2 := set_hasTriggerReady true r1 in
      match val, tempReadyParams r2 with
      | true, Some args =>
          '(r3, _) ← run args r2;
          Some (set_stopReady false r3)
      | _, _ => Some r2
      end
    else Some r1.

(** *** Construction *)

(** "init queries from cache" *)
Definition rehydrate (r : Registry) : Registry :=
  match cacheKey opts with
  | None | Some EmptyString => r
  | Some ck =>
      match Cache.getCache ck (store r) with
      | Some cache =>
          let r1 :=
            foldl
              (λ r0 k,
                 match obj_get k (Cache.queries (Cache.data cache)) with
                 | Some cacheQuery =>
                     register k
                       (Some {| Query.loading := Query.loading cacheQuery;
                                Query.params := Query.params cacheQuery;
                                Query.data := Query.data cacheQuery;
                                Query.error := Query.error cacheQuery |})
                       r0
                 | None => r0
                 end)
              r (obj_keys (Cache.queries (Cache.data cache))) in
          if key_truthy (Cache.latestQueriesKey (Cache.data cache))
          then set_latestQueriesKey
                 (Cache.latestQueriesKey (Cache.data cache)) r1
          else r1
      | None => r
      end
  end.

(** [getCache(cacheKey!)] of the initial run: the key as it is. *)
Definition initialCache (r : Registry) : option Cache.Entry :=
  ck ← cacheKey opts; Cache.getCache ck (store r).

Definition isFresh (r : Registry) : bool :=
  match initialCache r with
  | Some cache =>
      bool_decide (staleTime opts = -1)
      || (Cache.cacheTime cache + staleTime opts >? now r)
  | None => false
  end.

Definition hasCacheQueries (r : Registry) : bool :=
  bool_decide
    (0 < length (obj_keys
       (default [] (Cache.queries <$> (Cache.data <$> initialCache r)))))%nat.

(** [queries[key]?.refresh()] for every key of [queries] *)
Definition refreshAll (r : Registry) : option Registry :=
  forEach
    (λ k r0,
       match obj_get k (queries r0) with
       | Some _ => unit_refresh k r0
       | None => Some r0
       end)
    (obj_keys (queries r)) r.

(** "initial run" *)
Definition initialRun (r : Registry) : option Registry :=
  if manual opts then Some r
  else if isFresh r then Some r
  else if hasCacheQueries r then refreshAll r
  else fst <$> run (defaultParams opts) r.

(** The registry before anything of the constructor has run but the
    creation of the default unit and the immediate call of the state
    watcher. *)
Definition blank (e : S) (st : gmap string Cache.Entry) (time : Z) : Registry :=
  syncState
    {| queries := [(QUERY_DEFAULT_KEY, Query.createQuery 0 None)];
       latestQueriesKey := QUERY_DEFAULT_KEY;
       view := {| loading := Some false; data := VUndef;
                  error := None; params := None |};
       tempReadyParams := None;
       hasTriggerReady := false;
       readyValue := ready opts;
       stopReady := false;
       store := st; now := time; nextId := 1; trace := []; env := e |}.

(** [useAsyncQuery]: the state the hook leaves when it returns. *)
Definition useAsyncQuery (e : S) (st : gmap string Cache.Entry) (time : Z) :
    option Registry :=
  r ← initialRun (rehydrate (blank e st time));
  Some (set_stopReady true r).


(** *** Notions used to state the properties *)

(** The cache key under which this registry persists, if any. *)
Definition activeCacheKey : option string :=
  match cacheKey opts with
  | None | Some EmptyString => None
  | Some ck => Some ck
  end.

(** The key function returns no name the registry object inherits. *)
Definition ownKeys : Prop :=
  ∀ (e : S) (args : list value), inherited (keyFor e args) = false.

(** The sub-key [updateCache] computes for a state. *)
Definition currentQueryKey (st : Query.State) (r : Registry) : option key :=
  match queryKey opts with
  | Some f => args ← Query.params st; Some (f (env r) args)
  | None => Some QUERY_DEFAULT_KEY
  end.

(** The entry [updateCache] writes. *)
Definition writtenData (ck : string) (kq : key) (st : Query.State)
    (r : Registry) : Cache.Data :=
  {| Cache.queries :=
       obj_set kq st
         (default [] (Cache.queries <$> (Cache.data <$> store r !! ck)));
     Cache.latestQueriesKey := kq |}.

(** The frame of an operation: the fields it leaves alone. *)
Definition same_gate (r r' : Registry) : Prop :=
  tempReadyParams r' = tempReadyParams r ∧
  hasTriggerReady r' = hasTriggerReady r ∧ readyValue r' = readyValue r ∧
  stopReady r' = stopReady r.

(** The loop of both [unmountQueries]: every key read at the start is
    discarded unless [keep] spares it. *)
Definition sweep (keep : key → bool) (keys : list key) (r : Registry) :
    option Registry :=
  forEach (λ k r0, if keep k then Some r0 else discard k r0) keys r.

(** The condition under which a state change of [u] cannot raise. *)
Definition writable (u : Query.Unit) : Prop :=
  is_Some (Query.params (Query.state u)) ∨ queryKey opts = None
    ∨ activeCacheKey = None.

(** Everything but the units, the store and the trace. *)
Definition same_shell (r r' : Registry) : Prop :=
  latestQueriesKey r' = latestQueriesKey r ∧ view r' = view r ∧
  env r' = env r ∧ same_gate r r' ∧ nextId r' = nextId r ∧ now r' = now r.

(** What [refresh] makes of a unit. *)
Definition refreshed (u : Query.Unit) : Query.Unit :=
  match Query.params (Query.state u) with
  | Some args => Query.started args u
  | None => u
  end.

(** *** The registry as a transition system *)

(** What can happen to a registry while its owner is mounted: the
    calls of its methods, the settlements of the service, the scheduler
    running the state watcher, the [ready] ref being assigned and time
    passing.  The unmounting of the owner is not among them: it stops
    the watchers and then calls [unmountQueries], and neither watcher
    runs again. *)
Inductive Event : Type :=
  | Run (args : list value)
  | Resolve (id n : nat) (res : value)
  | Reject (id n : nat) (err : value)
  | Cancel
  | Refresh
  | Mutate (res : value)
  | Reset
  | SetReady (val : bool)
  | Flush
  | Tick (time : Z).

Definition step (ev : Event) (r : Registry) : option Registry :=
  match ev with
  | Run args => fst <$> run args r
  | Resolve id n res => resolve id n res r
  | Reject id n err => reject id n err r
  | Cancel => cancel r
  | Refresh => refresh r
  | Mutate res => mutate res r
  | Reset => reset r
  | SetReady val => setReady val r
  | Flush => Some (syncState r)
  | Tick time => Some (set_now time r)
  end.

Fixpoint exec (evs : list Event) (r : Registry) : option Registry :=
  match evs with
  | [] => Some r
  | ev :: evs' => r1 ← step ev r; exec evs' r1
  end.

(** The store is as it was and no write was logged. *)
Definition quiet (r r' : Registry) : Prop :=
  store r' = store r ∧ writes (trace r') = writes (trace r).

(** Attempt [n] of unit [id] is the latest attempt of a unit that is
    still registered. *)
Definition latestAttempt (id n : nat) (r : Registry) : bool :=
  match find_unit id (queries r) with
  | Some (_, u) => bool_decide (n = Query.count u)
  | None => false
  end.

(** Two registries that differ at most in the content of the store. *)
Definition sameButStore (r1 r2 : Registry) : Prop :=
  set_store ∅ r1 = set_store ∅ r2.

(** The values assigned to the [ready] ref by a sequence of events. *)
Definition readyWrites (evs : list Event) : list bool :=
  omap (λ ev, match ev with SetReady val => Some val | _ => None end) evs.

(** Whether a ref that starts at [b] and is assigned [vals] in turn
    ever takes a value other than the one it had. *)
Fixpoint everChanged (b : bool) (vals : list bool) : bool :=
  match vals with
  | [] => false
  | v :: vals' => negb (bool_decide (v = b)) || everChanged v vals'
  end.

(** Whether it ever goes from [false] to [true]. *)
Fixpoint everTurnedTrue (b : bool) (vals : list bool) : bool :=
  match vals with
  | [] => false
  | v :: vals' => (negb b && v) || everTurnedTrue v vals'
  end.

(** The fields of the readiness gate that only the watcher of [ready]
    writes. *)
Definition same_ready (r r' : Registry) : Prop :=
  hasTriggerReady r' = hasTriggerReady r ∧ readyValue r' = readyValue r ∧
  stopReady r' = stopReady r.

End Registry.

Arguments Options : clear implicits.
Arguments Registry : clear implicits.

End AsyncQuery.

(** ** The accumulation layer: [useLoadMore] *)

Module LoadMore.

Import AsyncQuery.

(** The refs of the layer. *)
Record Layer : Type := {
  refreshing : bool;
  loadingMore : bool;
  reloading : bool;
  increaseQueryKey : Z;
  latestData : value }.

Definition set_refreshing (b : bool) (l : Layer) : Layer :=
  {| refreshing := b; loadingMore := loadingMore l; reloading := reloading l;
     increaseQueryKey := increaseQueryKey l; latestData := latestData l |}.

Definition set_loadingMore (b : bool) (l : Layer) : Layer :=
  {| refreshing := refreshing l; loadingMore := b; reloading := reloading l;
     increaseQueryKey := increaseQueryKey l; latestData := latestData l |}.

Definition set_reloading (b : bool) (l : Layer) : Layer :=
  {| refreshing := refreshing l; loadingMore := loadingMore l; reloading := b;
     increaseQueryKey := increaseQueryKey l; latestData := latestData l |}.

Definition set_increaseQueryKey (z : Z) (l : Layer) : Layer :=
  {| refreshing := refreshing l; loadingMore := loadingMore l;
     reloading := reloading l;
     increaseQueryKey := z; latestData := latestData l |}.

Definition set_latestData (v : value) (l : Layer) : Layer :=
  {| refreshing := refreshing l; loadingMore := loadingMore l;
     reloading := reloading l;
     increaseQueryKey := increaseQueryKey l; latestData := v |}.

(** The options of [useLoadMore].  The caller's own [onSuccess] and
    [onError] are taken to be absent, and a [queryKey] of the caller is
    dropped by the hook. *)
Record LoadMoreOptions : Type := {
  isNoMore : option (value → bool);
  listKey : option string;
  cacheKey : option string;
  defaultParams : list value;
  manual : bool;
  ready : bool;
  cacheTime : Z;
  staleTime : Z }.

Definition initailIncreaseQueryKey : Z := 0.

Section Layer.

Variable options : LoadMoreOptions.

(** [listKey = 'list'] when the options leave it out. *)
Definition theListKey : string := default "list" (listKey options).

(** The options handed to [useAsyncQuery]: the caller's, with the
    layer's two callbacks and its key function. *)
Definition registryOptions : AsyncQuery.Options Layer :=
  {| AsyncQuery.cacheKey := cacheKey options;
     AsyncQuery.defaultParams := defaultParams options;
     AsyncQuery.manual := manual options;
     AsyncQuery.ready := ready options;
     AsyncQuery.cacheTime := cacheTime options;
     AsyncQuery.staleTime := staleTime options;
     AsyncQuery.queryKey :=
       Some (λ l _, key_of_Z (increaseQueryKey l));
     AsyncQuery.onSuccess :=
       λ l, set_increaseQueryKey (increaseQueryKey l + 1)
              (set_loadingMore false l);
     AsyncQuery.onError := λ l, set_loadingMore false l |}.

Abbreviation State := (AsyncQuery.Registry Layer).

Definition update (f : Layer → Layer) (r : State) : State :=
  set_env (f (env r)) r.

(** [noMore] *)
Definition noMore (r : State) : bool :=
  match isNoMore options with
  | Some f => f (latestData (env r))
  | None => false
  end.

(** [dataList] *)
Definition dataList (r : State) : list value :=
  foldl
    (λ list h,
       match get (Query.data (Query.state h)) theListKey with
       | VArr dataList => list ++ dataList
       | _ => list
       end)
    [] (obj_values (queries r)).

(** [const [, ...restParams] = params.value]: raises when the view has
    no params. *)
Definition restParams (r : State) : option (list value) :=
  tail <$> AsyncQuery.params (view r).

(** [loadMore] *)
Definition loadMore (r : State) : option State :=
  if noMore r then Some r
  else
    let r1 := update (set_loadingMore true) r in
    rest ← restParams r1;
    let mergerParams :=
      VObj [("dataList", VArr (dataList r1));
            ("data", latestData (env r1))] :: rest in
    fst <$> run registryOptions mergerParams r1.

(** [unmountQueries] of the layer *)
Definition unmountQueries (r : State) : option State :=
  forEach
    (λ k r0,
       if bool_decide (k ≠ key_of_Z initailIncreaseQueryKey)
       then discard registryOptions k r0
       else Some r0)
    (obj_keys (queries r)) r.

(** [refresh], up to its [await]. *)
Definition refresh_begin (r : State) : option (State * Promise) :=
  let r1 := update (set_refreshing true) r in
  let latestKey := increaseQueryKey (env r1) - 1 in
  let key :=
    if bool_decide (latestKey < initailIncreaseQueryKey)
    then initailIncreaseQueryKey else latestKey in
  u ← obj_get (key_of_Z key) (queries r1);
  let r2 := update (set_latestData (Query.data (Query.state u))) r1 in
  let r3 := update (set_increaseQueryKey initailIncreaseQueryKey) r2 in
  rest ← restParams r3;
  let mergerParams := VUndef :: rest in
  run registryOptions mergerParams r3.

(** [refresh], after its [await]. *)
Definition refresh_end (r : State) : option State :=
  r1 ← unmountQueries r;
  Some (update (set_refreshing false) r1).

(** [reload], up to its [await]. *)
Definition reload_begin (r : State) : option (State * Promise) :=
  let r1 := update (set_reloading true) r in
  r2 ← reset registryOptions r1;
  let r3 := update (set_increaseQueryKey initailIncreaseQueryKey) r2 in
  let r4 := update (set_latestData VUndef) r3 in
  rest ← restParams r4;
  let mergerParams := VUndef :: rest in
  run registryOptions mergerParams r4.

(** [reload], after its [await]. *)
Definition reload_end (r : State) : State :=
  update (set_reloading false) r.

(** [cancel] *)
Definition cancel (r : State) : option State :=
  r1 ← AsyncQuery.cancel registryOptions r;
  Some (update (set_refreshing false) (update (set_loadingMore false) r1)).

(** The scheduler runs its queue: the state watcher of the registry,
    then, when that changed the [data] ref, the effect that copies a
    value other than [undefined] into [latestData]. *)
Definition flush (r : State) : State :=
  let r1 := syncState r in
  if negb (value_eqb (AsyncQuery.data (view r)) (AsyncQuery.data (view r1)))
     && defined (AsyncQuery.data (view r1))
  then update (set_latestData (AsyncQuery.data (view r1))) r1
  else r1.

Definition initialLayer : Layer :=
  {| refreshing := false; loadingMore := false; reloading := false;
     increaseQueryKey := initailIncreaseQueryKey; latestData := VUndef |}.

(** [useLoadMore]: the registry is built, [latestData] starts as the
    view's [data], and the effect makes its first run at once. *)
Definition useLoadMore (st : gmap string Cache.Entry) (time : Z) :
    option State :=
  r ← useAsyncQuery registryOptions initialLayer st time;
  let r1 := update (set_latestData (AsyncQuery.data (view r))) r in
  Some (if defined (AsyncQuery.data (view r1))
        then update (set_latestData (AsyncQuery.data (view r1))) r1
        else r1).

(** The layer as a transition system. *)
Inductive Event : Type :=
  | Run (args : list value)
  | Resolve (id n : nat) (res : value)
  | Reject (id n : nat) (err : value)
  | LoadMore
  | RefreshBegin
  | RefreshEnd
  | ReloadBegin
  | ReloadEnd
  | Reset
  | Cancel
  | SetReady (val : bool)
  | Flush.

Definition step (ev : Event) (r : State) : option State :=
  match ev with
  | Run args => fst <$> run registryOptions args r
  | Resolve id n res => resolve registryOptions id n res r
  | Reject id n err => reject registryOptions id n err r
  | LoadMore => loadMore r
  | RefreshBegin => fst <$> refresh_begin r
  | RefreshEnd => refresh_end r
  | ReloadBegin => fst <$> reload_begin r
  | ReloadEnd => Some (reload_end r)
  | Reset => reset registryOptions r
  | Cancel => cancel r
  | SetReady val => setReady registryOptions val r
  | Flush => Some (flush r)
  end.

Fixpoint exec (evs : list Event) (r : State) : option State :=
  match evs with
  | [] => Some r
  | ev :: evs' => r1 ← step ev r; exec evs' r1
  end.

End Layer.

End LoadMore.

(** ** The remaining watchers and notions *)

Module Watchers.

Import AsyncQuery.

Section Watchers.

Context {S : Type}.
Variable opts : Options S.

(** The callback of the watcher of [refreshDeps]:
    [!manual && latestQuery.value.refresh()].  The hook installs the
    watcher when [refreshDeps] is not empty; the callback runs from the
    scheduler queue after a dependency has changed. *)
Definition onRefreshDeps (r : Registry S) : option (Registry S) :=
  if manual opts then Some r else refresh opts r.

(** The view when [latestQuery] is the empty object. *)
Definition unsetView : View :=
  {| loading := None; data := VUndef; error := None; params := None |}.

(** The view that shows a unit state. *)
Definition viewOf (st : Query.State) : View :=
  {| loading := Some (Query.loading st); data := Query.data st;
     error := Query.error st; params := Query.params st |}.

(** Every unit has params: none was made from a snapshot without. *)
Definition allParams (r : Registry S) : Prop :=
  Forall (λ e, is_Some (Query.params (Query.state e.2))) (queries r).

(** The snapshots of the entry under the cache key have params. *)
Definition snapshotsHaveParams (st : gmap string Cache.Entry) : Prop :=
  ∀ ck c,
    activeCacheKey opts = Some ck → st !! ck = Some c →
    Forall (λ e, is_Some (Query.params e.2)) (Cache.queries (Cache.data c)).

(** The current key names a unit: [latestQuery] is not the empty
    object. *)
Definition hasCurrent (r : Registry S) : Prop := is_Some (latestQuery r).

(** The entry under the cache key, when there is one, holds a snapshot
    under the current sub-key it names. *)
Definition coherentCache (st : gmap string Cache.Entry) : Prop :=
  ∀ ck c,
    activeCacheKey opts = Some ck → st !! ck = Some c →
    key_truthy (Cache.latestQueriesKey (Cache.data c)) = true →
    is_Some (obj_get (Cache.latestQueriesKey (Cache.data c))
               (Cache.queries (Cache.data c))).

(** The invariant of a registry whose calls do not raise: its keys are
    in order, every unit has params and the current key names a unit. *)
Definition sound (r : Registry S) : Prop :=
  obj_wf (queries r) ∧ allParams r ∧ hasCurrent r.

(** The gate of [run] is open. *)
Definition gateOpen (r : Registry S) : Prop :=
  readyValue r = true ∨ hasTriggerReady r = true.

End Watchers.

End Watchers.

Module Pages.

Import AsyncQuery LoadMore.

(** What a unit adds to [dataList]: the array under the list key of its
    data, nothing when there is none. *)
Definition pageItems (options : LoadMoreOptions) (h : Query.Unit) :
    list value :=
  match get (Query.data (Query.state h)) (theListKey options) with
  | VArr items => items
  | _ => []
  end.

(** The pages of a part of the registry, joined. *)
Definition joined (options : LoadMoreOptions) (q : obj Query.Unit) :
    list value :=
  concat (map (pageItems options) (obj_values q)).

(** The page counter an event leaves: the success callback counts one
    page, [refresh] and [reload] start again from the initial key. *)
Definition counterAfter (ev : LoadMore.Event) (r : Registry Layer) : Z :=
  match ev with
  | Resolve id n _ =>
      if latestAttempt id n r then increaseQueryKey (env r) + 1
      else increaseQueryKey (env r)
  | RefreshBegin | ReloadBegin => initailIncreaseQueryKey
  | _ => increaseQueryKey (env r)
  end.

(** The three flags of the layer: [loadingMore], [refreshing],
    [reloading]. *)
Definition flags (r : Registry Layer) : bool * bool * bool :=
  (loadingMore (env r), refreshing (env r), reloading (env r)).

(** The flags an event leaves. *)
Definition flagsAfter (options : LoadMoreOptions) (ev : LoadMore.Event)
    (r : Registry Layer) : bool * bool * bool :=
  match ev with
  | LoadMore =>
      (negb (noMore options r) || loadingMore (env r),
       refreshing (env r), reloading (env r))
  | Resolve id n _ | Reject id n _ =>
      (negb (latestAttempt id n r) && loadingMore (env r),
       refreshing (env r), reloading (env r))
  | RefreshBegin => (loadingMore (env r), true, reloading (env r))
  | RefreshEnd => (loadingMore (env r), false, reloading (env r))
  | ReloadBegin => (loadingMore (env r), refreshing (env r), true)
  | ReloadEnd => (loadingMore (env r), refreshing (env r), false)
  | LoadMore.Cancel => (false, false, reloading (env r))
  | _ => flags r
  end.

(** The key under which [refresh] reads the latest data. *)
Definition refreshKey (r : Registry Layer) : key :=
  key_of_Z (Z.max initailIncreaseQueryKey (increaseQueryKey (env r) - 1)).

End Pages.

(** ** Sample configurations and states, for the examples *)

Module Samples.

Import AsyncQuery.

(** A registry with no cache, no key function and no callbacks of its
    own; [m] is the [manual] option and [rdy] the value of [ready]. *)
Definition plain (m rdy : bool) : Options () :=
  {| cacheKey := None; defaultParams := []; manual := m; ready := rdy;
     cacheTime := 600000; staleTime := 0; queryKey := None;
     onSuccess := id; onError := id |}.

(** The same with persistence under the cache key ["k"]. *)
Definition cached (m : bool) (stale : Z) : Options () :=
  {| cacheKey := Some "k"; defaultParams := [VNum 1]; manual := m;
     ready := true; cacheTime := 600000; staleTime := stale;
     queryKey := None; onSuccess := id; onError := id |}.

(** A store with one entry under ["k"], written at time 0: the default
    unit after it resolved [run(1)] with 7. *)
Definition stored : gmap string Cache.Entry :=
  {[ "k" :=
       {| Cache.data :=
            {| Cache.queries :=
                 [(QUERY_DEFAULT_KEY,
                   {| Query.loading := false; Query.data := VNum 7;
                      Query.error := None; Query.params := Some [VNum 1] |})];
               Cache.latestQueriesKey := QUERY_DEFAULT_KEY |};
          Cache.cacheTime := 0 |} ]}.

(** A registry just built, manual, at time 0 over an empty store. *)
Definition fresh (rdy : bool) : Registry () :=
  set_stopReady true (blank (plain true rdy) () ∅ 0).

(** An accumulation layer with the default list key and no [isNoMore]. *)
Definition pager : LoadMore.LoadMoreOptions :=
  {| LoadMore.isNoMore := None; LoadMore.listKey := None;
     LoadMore.cacheKey := None; LoadMore.defaultParams := [];
     LoadMore.manual := false; LoadMore.ready := true;
     LoadMore.cacheTime := 600000; LoadMore.staleTime := 0 |}.

(** A page whose list holds the given numbers. *)
Definition page (l : list Z) : value :=
  VObj [("list", VArr (VNum <$> l))].

(** The events that load a first, a second and a third page with the
    pager: the scheduler flushes after each call and each settlement. *)
Definition firstPage : list LoadMore.Event :=
  [LoadMore.Flush; LoadMore.Resolve 1 1 (page [1; 2]); LoadMore.Flush].

Definition secondPage : list LoadMore.Event :=
  [LoadMore.LoadMore; LoadMore.Flush;
   LoadMore.Resolve 2 1 (page [3; 4]); LoadMore.Flush].

Definition thirdPage : list LoadMore.Event :=
  [LoadMore.LoadMore; LoadMore.Flush;
   LoadMore.Resolve 3 1 (page [5]); LoadMore.Flush].

(** The pager built at time 0 over an empty store, then [evs]. *)
Definition pagerAfter (evs : list LoadMore.Event) :
    option (Registry LoadMore.Layer) :=
  r ← LoadMore.useLoadMore pager ∅ 0; LoadMore.exec pager evs r.

(** The state reached, or the blank registry when an exception ended
    the run. *)
Definition reached (evs : list LoadMore.Event) : Registry LoadMore.Layer :=
  default (blank (LoadMore.registryOptions pager) LoadMore.initialLayer ∅ 0)
          (pagerAfter evs).

(** The pager as its constructor leaves it. *)
Definition built : Registry LoadMore.Layer :=
  Eval vm_compute in reached [].

Definition onePage : Registry LoadMore.Layer :=
  Eval vm_compute in reached firstPage.

Definition twoPages : Registry LoadMore.Layer :=
  Eval vm_compute in reached (firstPage ++ secondPage).

Definition threePages : Registry LoadMore.Layer :=
  Eval vm_compute in reached (firstPage ++ secondPage ++ thirdPage).

(** [refresh] after three pages: the state at its [await], and the
    state when it has finished, the run having resolved with a page
    [{list: [7]}]. *)
Definition refreshing : Registry LoadMore.Layer :=
  Eval vm_compute in
    default threePages (fst <$> LoadMore.refresh_begin pager threePages).





End Samples.

(** Further sample states. *)

Module MoreSamples.

Import AsyncQuery.

(** A manual registry whose [ready] started true and was set to false. *)
Definition dropped : Registry () :=
  Eval vm_compute in
    default (Samples.fresh true)
      (AsyncQuery.exec (Samples.plain true true)
         [AsyncQuery.SetReady false] (Samples.fresh true)).

(** The same after [ready] went to true and back to false. *)
Definition toggled : Registry () :=
  Eval vm_compute in
    default dropped
      (AsyncQuery.exec (Samples.plain true true)
         [AsyncQuery.Flush; AsyncQuery.SetReady true;
          AsyncQuery.SetReady false] dropped).



End MoreSamples.

(** * Properties *)

(** ** Values *)


(** ** Objects *)

Section Objects.

Context {A : Type}.
Implicit Types (o : obj A) (k : key) (v : A).

Lemma obj_get_set_eq k v o : obj_get k (obj_set k v o) = Some v.
Proof.
  induction o as [|[k' v'] o IH]; simpl.
  - by rewrite decide_True.
  - destruct (decide (k = k')) as [->|Hne]; simpl.
    + by rewrite decide_True.
    + destruct (key_before k k'); simpl.
      * by rewrite decide_True.
      * by rewrite decide_False.
Qed.

Lemma obj_get_set_ne k k' v o :
  k ≠ k' → obj_get k' (obj_set k v o) = obj_get k' o.
Proof.
  intros Hne. induction o as [|[k0 v0] o IH]; simpl.
  - by rewrite decide_False.
  - destruct (decide (k = k0)) as [->|Hk]; simpl.
    + by rewrite !decide_False.
    + destruct (key_before k k0); simpl.
      * by rewrite (decide_False (P := k' = k)).
      * by rewrite IH.
Qed.

Lemma obj_get_delete_eq k o : obj_get k (obj_delete k o) = None.
Proof.
  induction o as [|[k' v'] o IH]; simpl; [done|].
  destruct (decide (k = k')); simpl; [done|]. by rewrite decide_False.
Qed.

Lemma obj_get_delete_ne k k' o :
  k ≠ k' → obj_get k' (obj_delete k o) = obj_get k' o.
Proof.
  intros Hne. induction o as [|[k0 v0] o IH]; simpl; [done|].
  destruct (decide (k = k0)) as [->|Hk]; simpl.
  - by rewrite decide_False.
  - by rewrite IH.
Qed.

Lemma obj_get_Some_keys k v o : obj_get k o = Some v → k ∈ obj_keys o.
Proof.
  induction o as [|[k' v'] o IH]; simpl; [done|].
  destruct (decide (k = k')) as [->|Hk]; intros H.
  - left.
  - right. by apply IH.
Qed.

Lemma obj_get_None_keys k o : obj_get k o = None ↔ k ∉ obj_keys o.
Proof.
  induction o as [|[k' v'] o IH]; simpl.
  - split; [intros _; apply not_elem_of_nil | done].
  - rewrite not_elem_of_cons. destruct (decide (k = k')) as [->|Hk].
    + split; [done | by intros [? _]].
    + rewrite IH. naive_solver.
Qed.

Lemma listed_before_trans_set k k0 k1 :
  key_before k k0 = true → listed_before k0 k1 → listed_before k k1.
Proof.
  destruct k, k0, k1; simpl; try done.
  intros Hb%bool_decide_eq_true. lia.
Qed.

Lemma listed_before_of_not_before k k' :
  k ≠ k' → key_before k k' = false → listed_before k' k.
Proof.
  destruct k, k'; simpl; try done.
  - intros Hne Hb%bool_decide_eq_false.
    assert (n ≠ n0) by congruence. lia.
  - intros Hne _. congruence.
Qed.

Lemma obj_keys_set k v o :
  ∀ k', k' ∈ obj_keys (obj_set k v o) ↔ k' = k ∨ k' ∈ obj_keys o.
Proof.
  induction o as [|[k0 v0] o IH]; intros k'; simpl.
  - rewrite list_elem_of_singleton. split; [by left | intros [?|H]; [done|]].
    by apply elem_of_nil in H.
  - destruct (decide (k = k0)) as [->|Hk]; simpl.
    + rewrite !elem_of_cons. naive_solver.
    + destruct (key_before k k0); simpl.
      * rewrite !elem_of_cons. naive_solver.
      * rewrite !elem_of_cons, IH. naive_solver.
Qed.

(** Assignment keeps the order of [Object.keys]. *)
Lemma obj_wf_set k v o : obj_wf o → obj_wf (obj_set k v o).
Proof.
  induction o as [|[k0 v0] o IH]; simpl.
  - intros _. split; [constructor | done].
  - intros [Hall Hwf].
    destruct (decide (k = k0)) as [->|Hk]; simpl; [done|].
    destruct (key_before k k0) eqn:Hb; simpl.
    + split; [|done]. constructor.
      * destruct k, k0; simpl in *; try done.
        apply bool_decide_eq_true in Hb. done.
      * eapply Forall_impl; [exact Hall|].
        intros k1. by apply listed_before_trans_set.
    + split; [|by apply IH].
      rewrite Forall_forall. intros k1 Hin%obj_keys_set.
      destruct Hin as [->|Hin].
      * by apply listed_before_of_not_before.
      * rewrite Forall_forall in Hall. by apply Hall.
Qed.

Lemma obj_keys_delete k o :
  ∀ k', k' ∈ obj_keys (obj_delete k o) → k' ∈ obj_keys o.
Proof.
  induction o as [|[k0 v0] o IH]; intros k'; simpl; [done|].
  destruct (decide (k = k0)) as [->|Hk]; simpl.
  - intros H. right. by apply IH.
  - rewrite !elem_of_cons. naive_solver.
Qed.

Lemma obj_wf_delete k o : obj_wf o → obj_wf (obj_delete k o).
Proof.
  induction o as [|[k0 v0] o IH]; simpl; [done|].
  intros [Hall Hwf].
  destruct (decide (k = k0)) as [->|Hk]; simpl; [by apply IH|].
  split; [|by apply IH].
  rewrite Forall_forall in Hall. rewrite Forall_forall.
  intros k1 Hin%obj_keys_delete. by apply Hall.
Qed.

Lemma listed_before_irrefl k : ¬ listed_before k k.
Proof. destruct k; simpl; [lia | intros H; by apply H]. Qed.

(** The keys of a well-formed object are distinct. *)
Lemma obj_wf_NoDup o : obj_wf o → NoDup (obj_keys o).
Proof.
  induction o as [|[k0 v0] o IH]; simpl; [constructor|].
  intros [Hall Hwf]. constructor; [|by apply IH].
  intros Hin. rewrite Forall_forall in Hall.
  by apply (listed_before_irrefl k0), Hall.
Qed.

Lemma obj_delete_set k v o : obj_delete k (obj_set k v o) = obj_delete k o.
Proof.
  induction o as [|[k0 v0] o IH]; simpl.
  - by rewrite decide_True.
  - destruct (decide (k = k0)) as [->|Hk]; simpl.
    + by rewrite decide_True.
    + destruct (key_before k k0); simpl.
      * rewrite decide_True by done. simpl. by rewrite decide_False.
      * rewrite decide_False by done. by rewrite IH.
Qed.

(** Where a key stands after some keys have been deleted, the ones
    [keep] spares excepted. *)
Lemma obj_get_foldl_delete (keep : key → bool) ks k' o :
  obj_get k' (foldl (λ q k, if keep k then q else obj_delete k q) o ks)
  = if keep k' || negb (bool_decide (k' ∈ ks)) then obj_get k' o else None.
Proof.
  revert o. induction ks as [|k ks IH]; intros o; cbn [foldl].
  - rewrite bool_decide_eq_false_2 by apply not_elem_of_nil.
    by rewrite orb_true_r.
  - rewrite IH. destruct (keep k') eqn:Hk'; cbn [orb].
    + destruct (keep k) eqn:Hk; [done|].
      rewrite obj_get_delete_ne; [done|]. intros ->. congruence.
    + destruct (decide (k' ∈ ks)) as [Hin|Hnin].
      * rewrite !bool_decide_eq_true_2; [done | by right | done].
      * rewrite (bool_decide_eq_false_2 (k' ∈ ks)) by done. simpl.
        destruct (decide (k' = k)) as [->|Hne].
        -- rewrite bool_decide_eq_true_2 by left. simpl.
           rewrite Hk'. apply obj_get_delete_eq.
        -- rewrite bool_decide_eq_false_2.
           2:{ rewrite not_elem_of_cons. done. }
           simpl. destruct (keep k); [done|].
           by rewrite obj_get_delete_ne.
Qed.

Lemma obj_empty o : (∀ k, obj_get k o = None) → o = [].
Proof.
  destruct o as [|[k v] o]; [done|]. intros H. specialize (H k).
  simpl in H. by rewrite decide_True in H.
Qed.


(** In a well-formed object a key that stands earlier is listed before
    a key that stands later. *)
(** [String(z)] is no name an object inherits. *)
Lemma key_of_Z_own (z : Z) : inherited (key_of_Z z) = false.
Proof.
  unfold key_of_Z. case_bool_decide as Hz; [done|].
  destruct z as [|p|p]; [lia..|]. reflexivity.
Qed.

Lemma obj_wf_ascending o (i j : nat) ki kj :
  obj_wf o → (i < j)%nat →
  obj_keys o !! i = Some ki → obj_keys o !! j = Some kj →
  listed_before ki kj.
Proof.
  revert i j. induction o as [|[k0 v0] o IH]; intros i j; simpl; [done|].
  intros [Hall Hwf] Hlt Hi Hj.
  destruct j as [|j]; [lia|]. simpl in Hj.
  destruct i as [|i]; simpl in Hi.
  - injection Hi as <-. rewrite Forall_forall in Hall. apply Hall.
    by eapply list_elem_of_lookup_2.
  - apply (IH i j); [done | lia | done | done].
Qed.

End Objects.

(** ** The registry *)

Module AsyncQueryFacts.

Import AsyncQuery.

Section Facts.

Context {S : Type}.
Variable opts : Options S.
Implicit Types (r : Registry S) (k : key) (u : Query.Unit).

Lemma updateCache_inactive st r :
  activeCacheKey opts = None → updateCache opts st r = Some r.
Proof.
  unfold activeCacheKey, updateCache.
  destruct (cacheKey opts) as [[|]|]; done.
Qed.

Lemma updateCache_active ck st r :
  activeCacheKey opts = Some ck →
  updateCache opts st r =
    kq ← currentQueryKey opts st r;
    Some (log (CacheWritten ck)
            (set_store
               (<[ck := {| Cache.data := writtenData ck kq st r;
                           Cache.cacheTime := now r |}]> (store r)) r)).
Proof.
  unfold activeCacheKey, updateCache, currentQueryKey.
  destruct (cacheKey opts) as [[|]|]; [done| |done].
  by intros [= <-].
Qed.

(** [updateCache] changes the store and the trace only. *)
Lemma updateCache_frame st r r' :
  updateCache opts st r = Some r' →
  queries r' = queries r ∧ latestQueriesKey r' = latestQueriesKey r ∧
  view r' = view r ∧ env r' = env r ∧
  tempReadyParams r' = tempReadyParams r ∧
  hasTriggerReady r' = hasTriggerReady r ∧ readyValue r' = readyValue r ∧
  stopReady r' = stopReady r ∧ nextId r' = nextId r ∧ now r' = now r.
Proof.
  destruct (activeCacheKey opts) as [ck|] eqn:Hck.
  - rewrite (updateCache_active ck) by done.
    destruct (currentQueryKey opts st r); simpl; [|done].
    by intros [= <-].
  - rewrite updateCache_inactive by done. by intros [= <-].
Qed.

(** It raises only when a key function meets unset params. *)
Lemma updateCache_total st r :
  is_Some (Query.params st) ∨ queryKey opts = None ∨ activeCacheKey opts = None →
  is_Some (updateCache opts st r).
Proof.
  intros H. destruct (activeCacheKey opts) as [ck|] eqn:Hck.
  - rewrite (updateCache_active ck) by done.
    unfold currentQueryKey.
    destruct H as [[a Ha]|[H|H]]; [|by rewrite H|done].
    rewrite Ha. by destruct (queryKey opts).
  - by rewrite updateCache_inactive.
Qed.

Lemma commit_frame k u' r r' :
  commit opts k u' r = Some r' →
  queries r' = obj_set k u' (queries r) ∧
  latestQueriesKey r' = latestQueriesKey r ∧
  view r' = view r ∧ env r' = env r ∧
  tempReadyParams r' = tempReadyParams r ∧
  hasTriggerReady r' = hasTriggerReady r ∧ readyValue r' = readyValue r ∧
  stopReady r' = stopReady r ∧ nextId r' = nextId r ∧ now r' = now r.
Proof. unfold commit. intros H%updateCache_frame. exact H. Qed.

(** The trace after a state change: one cache write when the registry
    persists, none otherwise. *)
Lemma commit_trace k u' r r' :
  commit opts k u' r = Some r' →
  trace r' =
    match activeCacheKey opts with
    | Some ck => CacheWritten ck :: trace r
    | None => trace r
    end.
Proof.
  unfold commit. destruct (activeCacheKey opts) as [ck|] eqn:Hck.
  - rewrite (updateCache_active ck) by done.
    destruct (currentQueryKey opts _ _); simpl; [|done]. by intros [= <-].
  - rewrite updateCache_inactive by done. by intros [= <-].
Qed.

Lemma commit_total k u' r :
  is_Some (Query.params (Query.state u')) ∨ queryKey opts = None
    ∨ activeCacheKey opts = None →
  is_Some (commit opts k u' r).
Proof. intros H. by apply updateCache_total. Qed.

(** A unit that is registered can always be run: its new state has
    params, so the write cannot raise. *)
Lemma unit_run_present k u args r :
  obj_get k (queries r) = Some u →
  ∃ r1, commit opts k (Query.started args u) r = Some r1
    ∧ unit_run opts k args r
        = Some (log (Called (Query.uid u) (Datatypes.S (Query.count u)) args) r1,
                attemptPromise (Query.uid u) (Datatypes.S (Query.count u))).
Proof.
  intros Hget.
  destruct (commit_total k (Query.started args u) r) as [r1 Hr1].
  { left. by eexists. }
  exists r1. split; [done|].
  unfold unit_run. rewrite Hget. simpl. by rewrite Hr1.
Qed.

(** [run] behind an open gate: the key, the unit it runs and the state
    it leaves. *)
Lemma run_open args r :
  readyValue r = true ∨ hasTriggerReady r = true →
  inherited (keyFor opts (env r) args) = false →
  let newKey := keyFor opts (env r) args in
  let u := default (Query.createQuery (nextId r) None)
                   (obj_get newKey (queries r)) in
  let r0 := match obj_get newKey (queries r) with
            | Some _ => r
            | None => register newKey None r
            end in
  ∃ r1,
    commit opts newKey (Query.started args u)
      (set_latestQueriesKey newKey r0) = Some r1
    ∧ run opts args r
        = Some (log (Called (Query.uid u) (Datatypes.S (Query.count u)) args) r1,
                attemptPromise (Query.uid u) (Datatypes.S (Query.count u))).
Proof.
  intros Hopen Hown newKey u r0. unfold run.
  assert (negb (readyValue r) && negb (hasTriggerReady r) = false) as ->.
  { destruct Hopen as [-> | ->]; [done | by rewrite andb_false_r]. }
  rewrite Hown. fold newKey. fold r0.
  assert (obj_get newKey (queries (set_latestQueriesKey newKey r0)) = Some u)
    as Hu.
  { subst u r0. simpl. destruct (obj_get newKey (queries r)) eqn:Hget; simpl.
    - done.
    - by rewrite obj_get_set_eq. }
  destruct (unit_run_present _ _ args _ Hu) as (r1 & Hc & Hrun).
  exists r1. split; [done|]. exact Hrun.
Qed.


Lemma ownKeys_default : queryKey opts = None → ownKeys opts.
Proof. intros Hq e args. unfold keyFor. by rewrite Hq. Qed.

(** *** Loops over the keys *)

Lemma forEach_inv (P : Registry S → Prop) f ks r r' :
  (∀ k r0 r1, f k r0 = Some r1 → P r0 → P r1) →
  forEach f ks r = Some r' → P r → P r'.
Proof.
  intros Hf. revert r. induction ks as [|k ks IH]; simpl; intros r.
  - by intros [= <-].
  - destruct (f k r) as [r1|] eqn:Hk; simpl; [|done].
    intros Hrest HP. eapply IH; [done|]. by eapply Hf.
Qed.

Lemma unit_cancel_spec k u r r' :
  obj_get k (queries r) = Some u →
  unit_cancel opts k r = Some r' →
  queries r' = obj_set k (Query.cancelled u) (queries r) ∧
  trace r' = Cancelled (Query.uid u) ::
    match activeCacheKey opts with
    | Some ck => CacheWritten ck :: trace r
    | None => trace r
    end ∧
  latestQueriesKey r' = latestQueriesKey r ∧ view r' = view r ∧
  env r' = env r ∧ same_gate r r' ∧ nextId r' = nextId r ∧ now r' = now r.
Proof.
  intros Hget. unfold unit_cancel. rewrite Hget. simpl.
  destruct (commit opts k (Query.cancelled u) r) as [r1|] eqn:Hc; simpl;
    [|done].
  intros [= <-]. simpl.
  pose proof (commit_trace _ _ _ _ Hc) as Ht.
  apply commit_frame in Hc as (?&?&?&?&?&?&?&?&?&?).
  unfold same_gate. rewrite Ht. naive_solver.
Qed.

Lemma discard_spec k u r r' :
  obj_get k (queries r) = Some u →
  discard opts k r = Some r' →
  queries r' = obj_delete k (queries r) ∧
  trace r' = Unmounted (Query.uid u) :: Cancelled (Query.uid u) ::
    match activeCacheKey opts with
    | Some ck => CacheWritten ck :: trace r
    | None => trace r
    end ∧
  latestQueriesKey r' = latestQueriesKey r ∧ view r' = view r ∧
  env r' = env r ∧ same_gate r r' ∧ nextId r' = nextId r ∧ now r' = now r.
Proof.
  intros Hget. unfold discard.
  destruct (unit_cancel opts k r) as [r1|] eqn:Hc; simpl; [|done].
  apply (unit_cancel_spec _ _ _ _ Hget) in Hc
    as (Hq & Ht & ? & ? & ? & (?&?&?&?) & ? & ?).
  unfold unit_unmount. rewrite Hq, obj_get_set_eq. simpl.
  intros [= <-]. simpl. rewrite Ht, !obj_delete_set.
  unfold same_gate. simpl. naive_solver.
Qed.

Lemma discard_absent k r :
  obj_get k (queries r) = None → discard opts k r = None.
Proof. intros H. unfold discard, unit_cancel. by rewrite H. Qed.

Lemma discard_total k u r :
  obj_get k (queries r) = Some u →
  is_Some (Query.params (Query.state u)) ∨ queryKey opts = None
    ∨ activeCacheKey opts = None →
  is_Some (discard opts k r).
Proof.
  intros Hget Hok. unfold discard, unit_cancel. rewrite Hget. simpl.
  destruct (commit_total k (Query.cancelled u) r) as [r1 Hr1]; [done|].
  rewrite Hr1. simpl. unfold unit_unmount. simpl.
  apply commit_frame in Hr1 as (Hq & _). rewrite Hq, obj_get_set_eq.
  simpl. by eexists.
Qed.

Lemma forEach_ext f g ks r :
  (∀ k r0, f k r0 = g k r0) → forEach (S := S) f ks r = forEach g ks r.
Proof.
  intros Hfg. revert r. induction ks as [|k ks IH]; simpl; intros r; [done|].
  rewrite Hfg. destruct (g k r); simpl; [apply IH | done].
Qed.

Lemma unmountQueries_sweep r :
  unmountQueries opts r = sweep opts (λ _, false) (obj_keys (queries r)) r.
Proof. done. Qed.

(** What a sweep leaves: the keys it deleted, the effects it logged and
    the fields it did not touch. *)
Lemma sweep_spec keep ks r r' :
  sweep opts keep ks r = Some r' →
  queries r' = foldl (λ q k, if keep k then q else obj_delete k q)
                 (queries r) ks ∧
  (∀ e, e ∈ trace r → e ∈ trace r') ∧
  (∀ id n a, Called id n a ∈ trace r' → Called id n a ∈ trace r) ∧
  (∀ k u, k ∈ ks → keep k = false → obj_get k (queries r) = Some u →
     Cancelled (Query.uid u) ∈ trace r' ∧ Unmounted (Query.uid u) ∈ trace r') ∧
  latestQueriesKey r' = latestQueriesKey r ∧ view r' = view r ∧
  env r' = env r ∧ same_gate r r' ∧ nextId r' = nextId r ∧ now r' = now r.
Proof.
  unfold sweep. revert r. induction ks as [|k ks IH]; simpl; intros r.
  - intros [= <-]. unfold same_gate. split_and!; try done.
    intros k u Hin. by apply elem_of_nil in Hin.
  - destruct (keep k) eqn:Hkeep; simpl.
    + intros (Hq & Hmono & Hcalled & Hlog & Hrest)%IH.
      split_and!; try done; try apply Hrest.
      intros k' u [->|Hin]%elem_of_cons Hk' Hget; [congruence|].
      by apply (Hlog k' u).
    + destruct (obj_get k (queries r)) as [u0|] eqn:Hget0;
        [|by rewrite discard_absent].
      destruct (discard opts k r) as [r1|] eqn:Hd; simpl; [|done].
      apply (discard_spec _ _ _ _ Hget0) in Hd
        as (Hq1 & Ht1 & Hk1 & Hv1 & He1 & (?&?&?&?) & Hn1 & Hnow1).
      intros (Hq & Hmono & Hcalled & Hlog & ? & ? & ? & (?&?&?&?) & ? & ?)%IH.
      assert (∀ e, e ∈ trace r → e ∈ trace r1) as Hmono1.
      { intros e He. rewrite Ht1. do 2 right.
        destruct (activeCacheKey opts); [by right | done]. }
      unfold same_gate. split_and!; try congruence.
      * intros e He. by apply Hmono, Hmono1.
      * intros id n a Hin%Hcalled. rewrite Ht1 in Hin.
        apply elem_of_cons in Hin as [?|Hin]; [done|].
        apply elem_of_cons in Hin as [?|Hin]; [done|].
        destruct (activeCacheKey opts); [|done].
        by apply elem_of_cons in Hin as [?|Hin].
      * intros k' u [->|Hin]%elem_of_cons Hk' Hget.
        -- assert (u = u0) as -> by congruence.
           split; apply Hmono; rewrite Ht1; [right; left | left].
        -- destruct (decide (k = k')) as [->|Hne].
           ++ assert (u = u0) as -> by congruence.
              split; apply Hmono; rewrite Ht1; [right; left | left].
           ++ apply (Hlog k' u); [done..|].
              by rewrite Hq1, obj_get_delete_ne.
Qed.

Lemma sweep_total keep ks r :
  NoDup ks →
  (∀ k, k ∈ ks → keep k = false →
     ∃ u, obj_get k (queries r) = Some u ∧ writable opts u) →
  is_Some (sweep opts keep ks r).
Proof.
  unfold sweep. intros Hnd. revert r.
  induction Hnd as [|k ks Hnotin Hnd IH]; simpl; intros r Hall; [by eexists|].
  destruct (keep k) eqn:Hkeep; simpl.
  - apply IH. intros k' Hin. apply Hall. by right.
  - destruct (Hall k) as (u & Hget & Hw); [left | done |].
    destruct (discard_total _ _ _ Hget Hw) as [r1 Hr1]. rewrite Hr1. simpl.
    apply IH. intros k' Hin Hk'.
    destruct (Hall k') as (u' & Hget' & Hw'); [by right | done |].
    exists u'. split; [|done].
    apply (discard_spec _ _ _ _ Hget) in Hr1 as (Hq & _).
    rewrite Hq, obj_get_delete_ne; [done|]. intros ->. done.
Qed.

(** *** Refreshing *)

Lemma same_shell_refl r : same_shell r r.
Proof. by unfold same_shell, same_gate. Qed.

Lemma same_shell_trans r1 r2 r3 :
  same_shell r1 r2 → same_shell r2 r3 → same_shell r1 r3.
Proof. unfold same_shell, same_gate. intros. split_and!; naive_solver congruence. Qed.

Lemma unit_refresh_spec k u r r' :
  obj_get k (queries r) = Some u →
  unit_refresh opts k r = Some r' →
  queries r' = match Query.params (Query.state u) with
               | Some _ => obj_set k (refreshed u) (queries r)
               | None => queries r
               end ∧
  (∀ k', obj_get k' (queries r')
         = if decide (k' = k) then Some (refreshed u)
           else obj_get k' (queries r)) ∧
  (∀ e, e ∈ trace r → e ∈ trace r') ∧
  (∀ args, Query.params (Query.state u) = Some args →
     Called (Query.uid u) (Datatypes.S (Query.count u)) args ∈ trace r') ∧
  same_shell r r'.
Proof.
  intros Hget. unfold unit_refresh, refreshed. rewrite Hget. simpl.
  destruct (Query.params (Query.state u)) as [args|] eqn:Hp.
  - destruct (unit_run_present k u args r Hget) as (r1 & Hc & ->). simpl.
    intros [= <-]. simpl.
    pose proof (commit_trace _ _ _ _ Hc) as Ht.
    apply commit_frame in Hc as (Hq&?&?&?&?&?&?&?&?&?).
    unfold same_shell, same_gate. split_and!; try done.
    + intros k'. rewrite Hq. destruct (decide (k' = k)) as [->|Hne].
      * apply obj_get_set_eq.
      * by apply obj_get_set_ne.
    + intros e He. right. rewrite Ht.
      destruct (activeCacheKey opts); [by right | done].
    + intros ? [= <-]. left.
  - intros [= <-]. split_and!; try done.
    intros k'. by destruct (decide (k' = k)) as [->|Hne].
Qed.

Lemma unit_refresh_total k u r :
  obj_get k (queries r) = Some u → is_Some (unit_refresh opts k r).
Proof.
  intros Hget. unfold unit_refresh. rewrite Hget. simpl.
  destruct (Query.params (Query.state u)) as [args|]; [|by eexists].
  destruct (unit_run_present k u args r Hget) as (r1 & _ & ->). by eexists.
Qed.

(** [refreshAll] over a list of distinct keys: each unit it meets is
    refreshed once, nothing else changes. *)
Lemma refresh_loop ks r r' :
  NoDup ks →
  forEach
    (λ k r0, match obj_get k (queries r0) with
             | Some _ => unit_refresh opts k r0
             | None => Some r0
             end) ks r = Some r' →
  (∀ k, obj_get k (queries r')
        = if decide (k ∈ ks) then refreshed <$> obj_get k (queries r)
          else obj_get k (queries r)) ∧
  (∀ e, e ∈ trace r → e ∈ trace r') ∧
  (∀ k u args, k ∈ ks → obj_get k (queries r) = Some u →
     Query.params (Query.state u) = Some args →
     Called (Query.uid u) (Datatypes.S (Query.count u)) args ∈ trace r') ∧
  same_shell r r'.
Proof.
  intros Hnd. revert r.
  induction Hnd as [|k0 ks Hnotin Hnd IH]; cbn [forEach]; intros r.
  - intros [= <-]. split_and!; try done.
    intros k u args Hin. by apply elem_of_nil in Hin.
  - destruct (obj_get k0 (queries r)) as [u0|] eqn:Hget0; cbn [mbind option_bind].
    + destruct (unit_refresh opts k0 r) as [r1|] eqn:Hr; simpl; [|done].
      apply (unit_refresh_spec _ _ _ _ Hget0) in Hr
        as (_ & Hq1 & Hmono1 & Hcall1 & Hsh1).
      intros (Hq & Hmono & Hcall & Hsh)%IH.
      split_and!.
      * intros k. rewrite Hq, Hq1.
        destruct (decide (k = k0)) as [->|Hne].
        -- rewrite decide_False by done.
           rewrite decide_True by left. by rewrite Hget0.
        -- destruct (decide (k ∈ ks)) as [Hin|Hnin].
           ++ rewrite decide_True; [done | by right].
           ++ rewrite decide_False; [done|].
              rewrite not_elem_of_cons. done.
      * intros e He. by apply Hmono, Hmono1.
      * intros k u args [->|Hin]%elem_of_cons Hget Hp.
        -- assert (u = u0) as -> by congruence.
           apply Hmono. by apply Hcall1.
        -- apply (Hcall k u args); [done| |done].
           rewrite Hq1. rewrite decide_False; [done|]. by intros ->.
      * by eapply same_shell_trans.
    + intros (Hq & Hmono & Hcall & Hsh)%IH.
      split_and!; try done.
      * intros k. rewrite Hq.
        destruct (decide (k = k0)) as [->|Hne].
        -- rewrite decide_False by done.
           rewrite decide_True by left. by rewrite Hget0.
        -- destruct (decide (k ∈ ks)) as [Hin|Hnin].
           ++ rewrite decide_True; [done | by right].
           ++ rewrite decide_False; [done|].
              rewrite not_elem_of_cons. done.
      * intros k u args [->|Hin]%elem_of_cons Hget Hp; [congruence|].
        by apply (Hcall k u args).
Qed.

Lemma refresh_loop_total ks r :
  is_Some (forEach
    (λ k r0, match obj_get k (queries r0) with
             | Some _ => unit_refresh opts k r0
             | None => Some r0
             end) ks r).
Proof.
  revert r. induction ks as [|k ks IH]; simpl; intros r; [by eexists|].
  destruct (obj_get k (queries r)) as [u|] eqn:Hget; simpl; [|apply IH].
  destruct (unit_refresh_total _ _ _ Hget) as [r1 ->]. simpl. apply IH.
Qed.


(** *** Construction *)

Lemma state_eta (s : Query.State) :
  {| Query.loading := Query.loading s; Query.params := Query.params s;
     Query.data := Query.data s; Query.error := Query.error s |} = s.
Proof. by destruct s. Qed.

(** The loop that registers a unit for every cached key. *)
Lemma rehydrate_loop (cq : obj Query.State) ks r :
  let r' :=
    foldl
      (λ r0 k,
         match obj_get k cq with
         | Some cacheQuery =>
             register k
               (Some {| Query.loading := Query.loading cacheQuery;
                        Query.params := Query.params cacheQuery;
                        Query.data := Query.data cacheQuery;
                        Query.error := Query.error cacheQuery |})
               r0
         | None => r0
         end) r ks in
  store r' = store r ∧ trace r' = trace r ∧ now r' = now r ∧
  env r' = env r ∧ view r' = view r ∧ same_gate r r' ∧
  latestQueriesKey r' = latestQueriesKey r ∧
  (obj_wf (queries r) → obj_wf (queries r')) ∧
  (∀ k, k ∉ ks → obj_get k (queries r') = obj_get k (queries r)) ∧
  (∀ k snap, k ∈ ks → obj_get k cq = Some snap →
     ∃ id, obj_get k (queries r') = Some (Query.createQuery id (Some snap))).
Proof.
  revert r. induction ks as [|k0 ks IH]; intros r; cbn [foldl].
  - unfold same_gate. split_and!; try done.
    intros k snap Hin. by apply elem_of_nil in Hin.
  - set (r1 := match obj_get k0 cq with Some _ => _ | None => r end).
    destruct (IH r1) as (Hs & Ht & Hn & He & Hv & (?&?&?&?) & Hk & Hwf & Hout & Hin).
    assert (store r1 = store r ∧ trace r1 = trace r ∧ now r1 = now r ∧
            env r1 = env r ∧ view r1 = view r ∧ same_gate r r1 ∧
            latestQueriesKey r1 = latestQueriesKey r) as (?&?&?&?&?&(?&?&?&?)&?).
    { subst r1. unfold same_gate. by destruct (obj_get k0 cq). }
    unfold same_gate. split_and!; try congruence.
    + intros Hwf0. apply Hwf. subst r1.
      destruct (obj_get k0 cq); simpl; [by apply obj_wf_set | done].
    + intros k [Hne Hnin]%not_elem_of_cons. rewrite Hout by done.
      subst r1. destruct (obj_get k0 cq); simpl; [|done].
      by rewrite obj_get_set_ne.
    + intros k snap Hk0 Hget.
      destruct (decide (k ∈ ks)) as [Hks|Hks]; [by apply Hin|].
      apply elem_of_cons in Hk0 as [->|?]; [|done].
      rewrite Hout by done. subst r1. rewrite Hget. simpl.
      rewrite obj_get_set_eq, state_eta. by eexists.
Qed.

Lemma rehydrate_spec r :
  let r' := rehydrate opts r in
  store r' = store r ∧ trace r' = trace r ∧ now r' = now r ∧
  env r' = env r ∧ view r' = view r ∧ same_gate r r' ∧
  (obj_wf (queries r) → obj_wf (queries r')) ∧
  (∀ ck c k snap,
     activeCacheKey opts = Some ck → store r !! ck = Some c →
     obj_get k (Cache.queries (Cache.data c)) = Some snap →
     ∃ id, obj_get k (queries r') = Some (Query.createQuery id (Some snap))).
Proof.
  unfold rehydrate, activeCacheKey, Cache.getCache.
  assert (∀ r0 : Registry S, same_gate r0 r0) as Hrefl by done.
  destruct (cacheKey opts) as [[|a ck]|]; [by split_and!| |by split_and!].
  destruct (store r !! String a ck) as [c|] eqn:Hc.
  2:{ split_and!; try done. intros ck0 c0 k snap [= <-]. by rewrite Hc. }
  match goal with
  | |- context [foldl ?f r ?ks] =>
      destruct (rehydrate_loop (Cache.queries (Cache.data c)) ks r)
        as (Hs & Ht & Hn & He & Hv & Hg & Hk & Hwf & Hout & Hin)
  end.
  destruct (key_truthy _); simpl; (split_and!; try done);
    intros ck0 c0 k snap [= <-] Hst Hget;
    rewrite Hc in Hst; injection Hst as <-;
    (apply Hin; [by eapply obj_get_Some_keys | done]).
Qed.

Lemma blank_wf (e : S) st time : obj_wf (queries (blank opts e st time)).
Proof. simpl. split; [constructor | done]. Qed.

(** *** The readiness gate *)

Lemma same_gate_ready r r' : same_gate r r' → same_ready r r'.
Proof. unfold same_gate, same_ready. naive_solver. Qed.

Lemma same_shell_ready r r' : same_shell r r' → same_ready r r'.
Proof. unfold same_shell. intros (_&_&_&?&_). by apply same_gate_ready. Qed.

Lemma commit_shell k u' r r' : commit opts k u' r = Some r' → same_shell r r'.
Proof.
  intros (?&?&?&?&?&?&?&?&?&?)%commit_frame. by unfold same_shell, same_gate.
Qed.

(** [run] writes no field of the gate but the stored arguments. *)
Lemma run_ready args r r' p :
  run opts args r = Some (r', p) → same_ready r r'.
Proof.
  unfold run. destruct (negb (readyValue r) && negb (hasTriggerReady r)).
  - by intros [= <- _].
  - unfold unit_run. simpl.
    match goal with |- context [obj_get ?k (queries ?x)] =>
      destruct (obj_get k (queries x)) as [u|]; simpl; [|done] end.
    match goal with |- context [commit opts ?k ?u ?x] =>
      destruct (commit opts k u x) as [r1|] eqn:Hc; simpl; [|done] end.
    intros [= <- _]. apply commit_shell, same_shell_ready in Hc.
    revert Hc. unfold same_ready. simpl.
    destruct (obj_get _ (queries r)); [done|]. by destruct (inherited _).
Qed.

Lemma settle_ready id n r r' :
  (∃ res, resolve opts id n res r = Some r')
  ∨ (∃ err, reject opts id n err r = Some r') →
  same_ready r r'.
Proof.
  unfold resolve, reject.
  intros [[x H]|[x H]]; revert H;
    (destruct (find_unit id (queries r)) as [[k u]|]; [|by intros [= <-]]);
    (destruct (bool_decide (n = Query.count u)); [|by intros [= <-]]);
    (match goal with |- context [commit opts ?k ?u ?x] =>
       destruct (commit opts k u x) as [r1|] eqn:Hc; simpl; [|done] end);
    intros [= <-]; by apply commit_shell, same_shell_ready in Hc.
Qed.

Lemma cancel_shell r r' : cancel opts r = Some r' → same_shell r r'.
Proof.
  unfold cancel, latestQuery.
  destruct (obj_get _ (queries r)) as [u|] eqn:Hget; simpl; [|done].
  intros H. apply (unit_cancel_spec _ _ _ _ Hget) in H.
  unfold same_shell. naive_solver.
Qed.

Lemma refresh_shell r r' : refresh opts r = Some r' → same_shell r r'.
Proof.
  unfold refresh, latestQuery.
  destruct (obj_get _ (queries r)) as [u|] eqn:Hget; simpl; [|done].
  intros H. by apply (unit_refresh_spec _ _ _ _ Hget) in H as (_&_&_&_&?).
Qed.

Lemma mutate_shell res r r' : mutate opts res r = Some r' → same_shell r r'.
Proof.
  unfold mutate, latestQuery, unit_mutate.
  destruct (obj_get _ (queries r)) as [u|] eqn:Hget; simpl; [|done].
  apply commit_shell.
Qed.

Lemma reset_ready r r' : reset opts r = Some r' → same_ready r r'.
Proof.
  unfold reset. rewrite unmountQueries_sweep.
  destruct (sweep opts _ _ r) as [r1|] eqn:Hs; simpl; [|done].
  intros [= <-]. apply sweep_spec in Hs as (_&_&_&_&_&_&_&Hg&_).
  apply same_gate_ready in Hg. exact Hg.
Qed.

(** No event other than an assignment to [ready] touches the gate. *)
Lemma step_ready ev r r' :
  (∀ val, ev ≠ SetReady val) →
  step opts ev r = Some r' → same_ready r r'.
Proof.
  intros Hne. destruct ev; simpl.
  - destruct (run opts args r) as [[r1 p]|] eqn:Hr; simpl; [|done].
    intros [= <-]. by eapply run_ready.
  - intros H. eapply settle_ready. left. by eexists.
  - intros H. eapply settle_ready. right. by eexists.
  - intros H%cancel_shell. by apply same_shell_ready.
  - intros H%refresh_shell. by apply same_shell_ready.
  - intros H%mutate_shell. by apply same_shell_ready.
  - apply reset_ready.
  - by destruct (Hne val).
  - by intros [= <-].
  - by intros [= <-].
Qed.

(** While [ready] keeps the value it was given, the watcher has not
    fired and is still installed. *)
Lemma exec_unchanged evs r r' :
  everChanged (readyValue r) (readyWrites evs) = false →
  exec opts evs r = Some r' → same_ready r r'.
Proof.
  revert r. induction evs as [|ev evs IH]; intros r; cbn [exec].
  - by intros _ [= <-].
  - destruct (step opts ev r) as [r1|] eqn:Hstep; cbn [mbind option_bind];
      [|done].
    assert ((∃ val, ev = SetReady val) ∨ (∀ val, ev ≠ SetReady val))
      as [[val ->]|Hne] by (destruct ev; eauto).
    + simpl. intros [Hv Hrest]%orb_false_elim.
      apply negb_false_iff, bool_decide_eq_true in Hv. subst val.
      simpl in Hstep. unfold setReady in Hstep.
      rewrite bool_decide_eq_true_2 in Hstep by done.
      injection Hstep as <-. by apply IH.
    + assert (readyWrites (ev :: evs) = readyWrites evs) as ->.
      { unfold readyWrites. simpl. destruct ev; try done.
        by destruct (Hne val). }
      assert (same_ready r r1) as (H1 & H2 & H3).
      { by eapply step_ready. }
      intros Hrest Hexec. rewrite <- H2 in Hrest.
      destruct (IH _ Hrest Hexec) as (?&?&?).
      unfold same_ready. split_and!; congruence.
Qed.

(** What the constructor leaves of the gate. *)
Lemma useAsyncQuery_ready (e : S) st time r :
  useAsyncQuery opts e st time = Some r →
  hasTriggerReady r = false ∧ readyValue r = ready opts ∧ stopReady r = true.
Proof.
  unfold useAsyncQuery.
  destruct (rehydrate_spec (blank opts e st time))
    as (_&_&_&_&_&(_ & Hh & Hr & _)&_).
  set (r0 := rehydrate opts _) in *. simpl in Hh, Hr.
  assert (∀ r1, initialRun opts r0 = Some r1 → same_ready r0 r1) as Hrun.
  { unfold initialRun. intros r1.
    destruct (manual opts); [by intros [= <-]|].
    destruct (isFresh opts r0); [by intros [= <-]|].
    destruct (hasCacheQueries opts r0).
    - unfold refreshAll. intros H. apply same_shell_ready.
      eapply (forEach_inv (same_shell r0)); [|exact H|apply same_shell_refl].
      intros k ra rb Hk Hsh. eapply same_shell_trans; [exact Hsh|].
      simpl in Hk.
      destruct (obj_get k (queries ra)) as [u|] eqn:Hget.
      + by apply (unit_refresh_spec _ _ _ _ Hget) in Hk as (_&_&_&_&?).
      + injection Hk as <-. apply same_shell_refl.
    - destruct (run opts _ r0) as [[rb p]|] eqn:Hr0; simpl; [|done].
      intros [= <-]. by eapply run_ready. }
  destruct (initialRun opts r0) as [r1|] eqn:Hi; simpl; [|done].
  intros [= <-]. simpl. destruct (Hrun r1 eq_refl) as (?&?&?).
  split_and!; congruence.
Qed.

(** *** The view *)

(** [run] leaves the view and the caller's state alone. *)
Lemma run_view_env args r r' p :
  run opts args r = Some (r', p) → view r' = view r ∧ env r' = env r.
Proof.
  unfold run. destruct (negb (readyValue r) && negb (hasTriggerReady r)).
  - by intros [= <- _].
  - unfold unit_run. simpl.
    match goal with |- context [obj_get ?k (queries ?x)] =>
      destruct (obj_get k (queries x)) as [u|]; simpl; [|done] end.
    match goal with |- context [commit opts ?k ?u ?x] =>
      destruct (commit opts k u x) as [r1|] eqn:Hc; simpl; [|done] end.
    intros [= <- _]. apply commit_shell in Hc as (_ & Hv & He & _).
    simpl. rewrite Hv, He. simpl.
    destruct (obj_get _ (queries r)); [done|]. by destruct (inherited _).
Qed.

Lemma settle_view id n r r' :
  (∃ res, resolve opts id n res r = Some r')
  ∨ (∃ err, reject opts id n err r = Some r') →
  view r' = view r.
Proof.
  unfold resolve, reject.
  intros [[x H]|[x H]]; revert H;
    (destruct (find_unit id (queries r)) as [[k u]|]; [|by intros [= <-]]);
    (destruct (bool_decide (n = Query.count u)); [|by intros [= <-]]);
    (match goal with |- context [commit opts ?k ?u ?x] =>
       destruct (commit opts k u x) as [r1|] eqn:Hc; simpl; [|done] end);
    intros [= <-]; by apply commit_shell in Hc as (_ & Hv & _).
Qed.

Lemma setReady_view val r r' :
  setReady opts val r = Some r' → view r' = view r.
Proof.
  unfold setReady. case_bool_decide; [by intros [= <-]|]. simpl.
  destruct (stopReady r); [|by intros [= <-]].
  destruct val, (tempReadyParams r) as [args|]; try by intros [= <-].
  destruct (run opts args _) as [[r3 p]|] eqn:Hrun; simpl; [|done].
  intros [= <-]. by apply run_view_env in Hrun as [? _].
Qed.

(** Only the scheduler's flush writes the view. *)
Lemma step_view ev r r' :
  ev ≠ Flush → step opts ev r = Some r' → view r' = view r.
Proof.
  intros Hne. destruct ev; simpl; try done.
  - destruct (run opts args r) as [[r1 p]|] eqn:Hr; simpl; [|done].
    intros [= <-]. by apply run_view_env in Hr as [-> _].
  - intros H. eapply settle_view. left. by eexists.
  - intros H. eapply settle_view. right. by eexists.
  - by intros (_ & ? & _)%cancel_shell.
  - by intros (_ & ? & _)%refresh_shell.
  - by intros (_ & ? & _)%mutate_shell.
  - unfold reset. rewrite unmountQueries_sweep.
    destruct (sweep opts _ _ r) as [r1|] eqn:Hs; simpl; [|done].
    intros [= <-]. by apply sweep_spec in Hs as (_&_&_&_&_&?&_).
  - apply setReady_view.
  - by intros [= <-].
Qed.

(** *** A registry without a cache key *)

Section Inactive.

Hypothesis Hoff : activeCacheKey opts = None.

Lemma commit_inactive k u' r :
  commit opts k u' r = Some (set_queries (obj_set k u' (queries r)) r).
Proof. unfold commit. by apply updateCache_inactive. Qed.

Lemma quiet_refl r : quiet r r.
Proof. done. Qed.

Lemma quiet_trans r1 r2 r3 : quiet r1 r2 → quiet r2 r3 → quiet r1 r3.
Proof. unfold quiet. intros [??] [??]. split; congruence. Qed.

Lemma unit_run_quiet k args r r' p :
  unit_run opts k args r = Some (r', p) → quiet r r'.
Proof.
  unfold unit_run. destruct (obj_get k (queries r)); simpl; [|done].
  rewrite commit_inactive. simpl. by intros [= <- _].
Qed.

Lemma unit_refresh_quiet k r r' :
  unit_refresh opts k r = Some r' → quiet r r'.
Proof.
  unfold unit_refresh. destruct (obj_get k (queries r)) as [u|]; simpl; [|done].
  destruct (Query.params (Query.state u)); [|by intros [= <-]].
  destruct (unit_run opts k l r) as [[r1 p]|] eqn:Hr; simpl; [|done].
  intros [= <-]. by eapply unit_run_quiet.
Qed.

Lemma unit_cancel_quiet k r r' :
  unit_cancel opts k r = Some r' → quiet r r'.
Proof.
  unfold unit_cancel. destruct (obj_get k (queries r)); simpl; [|done].
  rewrite commit_inactive. simpl. by intros [= <-].
Qed.

Lemma unit_mutate_quiet k res r r' :
  unit_mutate opts k res r = Some r' → quiet r r'.
Proof.
  unfold unit_mutate. destruct (obj_get k (queries r)); simpl; [|done].
  rewrite commit_inactive. by intros [= <-].
Qed.

Lemma discard_quiet k r r' : discard opts k r = Some r' → quiet r r'.
Proof.
  unfold discard.
  destruct (unit_cancel opts k r) as [r1|] eqn:Hc; simpl; [|done].
  apply unit_cancel_quiet in Hc. unfold unit_unmount.
  destruct (obj_get k (queries r1)); simpl; [|done].
  intros [= <-]. eapply quiet_trans; [exact Hc|done].
Qed.

Lemma sweep_quiet keep ks r r' : sweep opts keep ks r = Some r' → quiet r r'.
Proof.
  intros H. eapply (forEach_inv (quiet r)); [|exact H|apply quiet_refl].
  intros k r0 r1 Hk Hq. eapply quiet_trans; [exact Hq|]. simpl in Hk.
  destruct (keep k); [by injection Hk as <-|]. by eapply discard_quiet.
Qed.

Lemma run_quiet args r r' p : run opts args r = Some (r', p) → quiet r r'.
Proof.
  unfold run. destruct (negb (readyValue r) && negb (hasTriggerReady r)).
  - by intros [= <- _].
  - intros H%unit_run_quiet. revert H. unfold quiet. simpl.
    destruct (obj_get _ (queries r)); [done|]. by destruct (inherited _).
Qed.

Lemma settle_quiet id n r r' :
  (∃ res, resolve opts id n res r = Some r')
  ∨ (∃ err, reject opts id n err r = Some r') →
  quiet r r'.
Proof.
  unfold resolve, reject.
  intros [[x H]|[x H]]; revert H;
    (destruct (find_unit id (queries r)) as [[k u]|]; [|by intros [= <-]]);
    (destruct (bool_decide (n = Query.count u)); [|by intros [= <-]]);
    rewrite commit_inactive; simpl; by intros [= <-].
Qed.

Lemma setReady_quiet val r r' : setReady opts val r = Some r' → quiet r r'.
Proof.
  unfold setReady. case_bool_decide; [by intros [= <-]|]. simpl.
  destruct (stopReady r); [|by intros [= <-]].
  destruct val, (tempReadyParams r) as [args|]; try by intros [= <-].
  destruct (run opts args _) as [[r3 p]|] eqn:Hrun; simpl; [|done].
  intros [= <-]. by apply run_quiet in Hrun.
Qed.

Lemma reset_quiet r r' : reset opts r = Some r' → quiet r r'.
Proof.
  unfold reset. rewrite unmountQueries_sweep.
  destruct (sweep opts _ _ r) as [r1|] eqn:Hs; simpl; [|done].
  intros [= <-]. by apply sweep_quiet in Hs.
Qed.

(** Without a cache key no step writes to the store. *)
Lemma step_quiet ev r r' : step opts ev r = Some r' → quiet r r'.
Proof.
  destruct ev; simpl.
  - destruct (run opts args r) as [[r1 p]|] eqn:Hr; simpl; [|done].
    intros [= <-]. by eapply run_quiet.
  - intros H. eapply settle_quiet. left. by eexists.
  - intros H. eapply settle_quiet. right. by eexists.
  - unfold cancel. destruct (latestQuery r); simpl; [|done].
    apply unit_cancel_quiet.
  - unfold refresh. destruct (latestQuery r); simpl; [|done].
    apply unit_refresh_quiet.
  - unfold mutate. destruct (latestQuery r); simpl; [|done].
    apply unit_mutate_quiet.
  - apply reset_quiet.
  - apply setReady_quiet.
  - by intros [= <-].
  - by intros [= <-].
Qed.

Lemma exec_quiet evs r r' : exec opts evs r = Some r' → quiet r r'.
Proof.
  revert r. induction evs as [|ev evs IH]; simpl; intros r.
  - by intros [= <-].
  - destruct (step opts ev r) as [r1|] eqn:Hstep; simpl; [|done].
    intros H%IH. eapply quiet_trans; [|exact H]. by eapply step_quiet.
Qed.

Lemma useAsyncQuery_quiet (e : S) st time r :
  useAsyncQuery opts e st time = Some r → store r = st ∧ writes (trace r) = [].
Proof.
  unfold useAsyncQuery.
  destruct (rehydrate_spec (blank opts e st time)) as (Hs & Ht & _).
  set (r0 := rehydrate opts _) in *. simpl in Hs, Ht.
  assert (∀ r1, initialRun opts r0 = Some r1 → quiet r0 r1) as Hrun.
  { unfold initialRun. intros r1.
    destruct (manual opts); [by intros [= <-]|].
    destruct (isFresh opts r0); [by intros [= <-]|].
    destruct (hasCacheQueries opts r0).
    - unfold refreshAll. intros H.
      eapply (forEach_inv (quiet r0)); [|exact H|apply quiet_refl].
      intros k ra rb Hk Hq. eapply quiet_trans; [exact Hq|]. simpl in Hk.
      destruct (obj_get k (queries ra)); [|by injection Hk as <-].
      by eapply unit_refresh_quiet.
    - destruct (run opts _ r0) as [[rb p]|] eqn:Hr0; simpl; [|done].
      intros [= <-]. by eapply run_quiet. }
  destruct (initialRun opts r0) as [r1|] eqn:Hi; simpl; [|done].
  intros [= <-]. simpl. destruct (Hrun r1 eq_refl) as [Hs1 Ht1].
  rewrite Hs1, Ht1, Hs, Ht. done.
Qed.

End Inactive.

(** *** A registry with a cache key *)

(** A state change writes the entry once: the sub-key of the changed
    unit takes its snapshot, the other sub-keys of the entry stay, and
    the entry names that sub-key as the latest. *)
Lemma commit_active ck k u' r r' :
  activeCacheKey opts = Some ck →
  commit opts k u' r = Some r' →
  ∃ kq, currentQueryKey opts (Query.state u') r = Some kq
    ∧ store r'
      = <[ck := {| Cache.data := writtenData ck kq (Query.state u') r;
                   Cache.cacheTime := now r |}]> (store r)
    ∧ trace r' = CacheWritten ck :: trace r.
Proof.
  intros Hck. unfold commit. rewrite (updateCache_active ck) by done.
  unfold currentQueryKey, writtenData. simpl.
  destruct (queryKey opts) as [f|]; simpl.
  - destruct (Query.params (Query.state u')) as [args|]; simpl; [|done].
    intros [= <-]. by eexists.
  - intros [= <-]. by eexists.
Qed.

Lemma commit_writes ck k u' r r' :
  activeCacheKey opts = Some ck →
  commit opts k u' r = Some r' →
  writes (trace r') = ck :: writes (trace r).
Proof.
  intros Hck H. destruct (commit_active _ _ _ _ _ Hck H) as (kq & _ & _ & ->).
  done.
Qed.

(** *** The order of the keys is kept *)

Lemma commit_wf k u' r r' :
  obj_wf (queries r) → commit opts k u' r = Some r' → obj_wf (queries r').
Proof.
  intros Hwf (Hq & _)%commit_frame. rewrite Hq. by apply obj_wf_set.
Qed.

Lemma register_wf k init r :
  obj_wf (queries r) → obj_wf (queries (register k init r)).
Proof. intros Hwf. simpl. by apply obj_wf_set. Qed.

Lemma unit_run_wf k args r r' p :
  obj_wf (queries r) → unit_run opts k args r = Some (r', p) →
  obj_wf (queries r').
Proof.
  intros Hwf. unfold unit_run.
  destruct (obj_get k (queries r)) as [u|]; simpl; [|done].
  destruct (commit opts _ _ r) as [r1|] eqn:Hc; simpl; [|done].
  intros [= <- _]. simpl. by eapply commit_wf.
Qed.

Lemma unit_refresh_wf k r r' :
  obj_wf (queries r) → unit_refresh opts k r = Some r' → obj_wf (queries r').
Proof.
  intros Hwf. unfold unit_refresh.
  destruct (obj_get k (queries r)) as [u|]; simpl; [|done].
  destruct (Query.params (Query.state u)) as [args|]; [|by intros [= <-]].
  destruct (unit_run opts k args r) as [[r1 p]|] eqn:Hr; simpl; [|done].
  intros [= <-]. by eapply unit_run_wf.
Qed.

Lemma unit_cancel_wf k r r' :
  obj_wf (queries r) → unit_cancel opts k r = Some r' → obj_wf (queries r').
Proof.
  intros Hwf. unfold unit_cancel.
  destruct (obj_get k (queries r)) as [u|]; simpl; [|done].
  destruct (commit opts _ _ r) as [r1|] eqn:Hc; simpl; [|done].
  intros [= <-]. simpl. by eapply commit_wf.
Qed.

Lemma discard_wf k r r' :
  obj_wf (queries r) → discard opts k r = Some r' → obj_wf (queries r').
Proof.
  intros Hwf. destruct (obj_get k (queries r)) as [u|] eqn:Hget.
  - intros (Hq & _)%(discard_spec _ _ _ _ Hget). rewrite Hq.
    by apply obj_wf_delete.
  - by rewrite discard_absent.
Qed.

Lemma sweep_wf keep ks r r' :
  obj_wf (queries r) → sweep opts keep ks r = Some r' → obj_wf (queries r').
Proof.
  intros Hwf H.
  eapply (forEach_inv (λ r0, obj_wf (queries r0))); [|exact H|done].
  intros k r0 r1 Hk Hwf0. simpl in Hk.
  destruct (keep k); [by injection Hk as <-|]. by eapply discard_wf.
Qed.

Lemma run_wf args r r' p :
  obj_wf (queries r) → run opts args r = Some (r', p) → obj_wf (queries r').
Proof.
  intros Hwf. unfold run.
  destruct (negb (readyValue r) && negb (hasTriggerReady r)).
  - by intros [= <- _].
  - apply unit_run_wf. simpl.
    destruct (obj_get _ (queries r)); [done|].
    destruct (inherited _); [done|]. by apply register_wf.
Qed.

Lemma settle_wf id n r r' :
  obj_wf (queries r) →
  (∃ res, resolve opts id n res r = Some r')
  ∨ (∃ err, reject opts id n err r = Some r') →
  obj_wf (queries r').
Proof.
  intros Hwf. unfold resolve, reject.
  intros [[x H]|[x H]]; revert H;
    (destruct (find_unit id (queries r)) as [[k u]|]; [|by intros [= <-]]);
    (destruct (bool_decide (n = Query.count u)); [|by intros [= <-]]);
    (match goal with |- context [commit opts ?k ?u ?x] =>
       destruct (commit opts k u x) as [r1|] eqn:Hc; simpl; [|done] end);
    intros [= <-]; simpl; by eapply commit_wf.
Qed.

Lemma reset_wf r r' :
  obj_wf (queries r) → reset opts r = Some r' → obj_wf (queries r').
Proof.
  intros Hwf. unfold reset. rewrite unmountQueries_sweep.
  destruct (sweep opts _ _ r) as [r1|] eqn:Hs; simpl; [|done].
  intros [= <-]. apply register_wf. simpl. by eapply sweep_wf.
Qed.

Lemma setReady_wf val r r' :
  obj_wf (queries r) → setReady opts val r = Some r' → obj_wf (queries r').
Proof.
  intros Hwf. unfold setReady. case_bool_decide; [by intros [= <-]|]. simpl.
  destruct (stopReady r); [|by intros [= <-]].
  destruct val, (tempReadyParams r) as [args|]; try by intros [= <-].
  destruct (run opts args _) as [[r3 p]|] eqn:Hrun; simpl; [|done].
  intros [= <-]. simpl. by eapply run_wf in Hrun.
Qed.

Lemma cancel_wf r r' :
  obj_wf (queries r) → cancel opts r = Some r' → obj_wf (queries r').
Proof.
  intros Hwf. unfold cancel. destruct (latestQuery r); simpl; [|done].
  by apply unit_cancel_wf.
Qed.

Lemma useAsyncQuery_wf (e : S) st time r :
  useAsyncQuery opts e st time = Some r → obj_wf (queries r).
Proof.
  unfold useAsyncQuery.
  destruct (rehydrate_spec (blank opts e st time)) as (_&_&_&_&_&_&Hwf&_).
  specialize (Hwf (blank_wf e st time)).
  set (r0 := rehydrate opts _) in *.
  assert (∀ r1, initialRun opts r0 = Some r1 → obj_wf (queries r1)) as Hrun.
  { unfold initialRun. intros r1.
    destruct (manual opts); [by intros [= <-]|].
    destruct (isFresh opts r0); [by intros [= <-]|].
    destruct (hasCacheQueries opts r0).
    - unfold refreshAll. intros H.
      eapply (forEach_inv (λ r0, obj_wf (queries r0))); [|exact H|done].
      intros k ra rb Hk Hq. simpl in Hk.
      destruct (obj_get k (queries ra)); [|by injection Hk as <-].
      by eapply unit_refresh_wf.
    - destruct (run opts _ r0) as [[rb p]|] eqn:Hr0; simpl; [|done].
      intros [= <-]. by eapply run_wf. }
  destruct (initialRun opts r0) as [r1|] eqn:Hi; simpl; [|done].
  intros [= <-]. simpl. by apply Hrun.
Qed.

Lemma setReady_env val r r' :
  setReady opts val r = Some r' → env r' = env r.
Proof.
  unfold setReady. case_bool_decide; [by intros [= <-]|]. simpl.
  destruct (stopReady r); [|by intros [= <-]].
  destruct val, (tempReadyParams r) as [args|]; try by intros [= <-].
  destruct (run opts args _) as [[r3 p]|] eqn:Hrun; simpl; [|done].
  intros [= <-]. by apply run_view_env in Hrun as [_ ?].
Qed.

Lemma reset_env r r' : reset opts r = Some r' → env r' = env r.
Proof.
  unfold reset. rewrite unmountQueries_sweep.
  destruct (sweep opts _ _ r) as [r1|] eqn:Hs; simpl; [|done].
  intros [= <-]. by apply sweep_spec in Hs as (_&_&_&_&_&_&?&_).
Qed.

(** *** What the registry does never depends on the store *)

Lemma sameButStore_fields r1 r2 :
  sameButStore r1 r2 ↔
  queries r1 = queries r2 ∧ latestQueriesKey r1 = latestQueriesKey r2 ∧
  view r1 = view r2 ∧ tempReadyParams r1 = tempReadyParams r2 ∧
  hasTriggerReady r1 = hasTriggerReady r2 ∧ readyValue r1 = readyValue r2 ∧
  stopReady r1 = stopReady r2 ∧ now r1 = now r2 ∧ nextId r1 = nextId r2 ∧
  trace r1 = trace r2 ∧ env r1 = env r2.
Proof.
  unfold sameButStore, set_store. split.
  - intros [=]. by split_and!.
  - intros (?&?&?&?&?&?&?&?&?&?&?). by f_equal.
Qed.

Local Ltac same_fields H :=
  apply sameButStore_fields in H;
  destruct H as (?&?&?&?&?&?&?&?&?&?&?).

Local Ltac same_solve :=
  apply sameButStore_fields; simpl; split_and!; congruence.

Lemma sameButStore_refl r : sameButStore r r.
Proof. done. Qed.

Lemma obind_same {A B} (R : A → A → Prop) (R' : B → B → Prop)
    (o1 o2 : option A) (f1 f2 : A → option B) :
  option_Forall2 R o1 o2 →
  (∀ a b, R a b → option_Forall2 R' (f1 a) (f2 b)) →
  option_Forall2 R' (o1 ≫= f1) (o2 ≫= f2).
Proof. intros [a b Hab|] Hf; simpl; [by apply Hf | constructor]. Qed.

Lemma updateCache_blind st r1 r2 :
  sameButStore r1 r2 →
  option_Forall2 sameButStore (updateCache opts st r1) (updateCache opts st r2).
Proof.
  intros H. same_fields H. unfold updateCache.
  destruct (cacheKey opts) as [[|c ck]|]; try (constructor; same_solve).
  replace (env r2) with (env r1) by done.
  destruct (match queryKey opts with Some f => _ | None => _ end) as [kq|];
    simpl; constructor. same_solve.
Qed.

Lemma commit_blind k u' r1 r2 :
  sameButStore r1 r2 →
  option_Forall2 sameButStore (commit opts k u' r1) (commit opts k u' r2).
Proof.
  intros H. unfold commit. apply updateCache_blind.
  same_fields H. same_solve.
Qed.

Lemma unit_run_blind k args r1 r2 :
  sameButStore r1 r2 →
  option_Forall2 (λ a b, sameButStore a.1 b.1 ∧ a.2 = b.2)
    (unit_run opts k args r1) (unit_run opts k args r2).
Proof.
  intros H. unfold unit_run.
  replace (queries r2) with (queries r1) by (by same_fields H).
  destruct (obj_get k (queries r1)) as [u|]; simpl; [|constructor].
  eapply obind_same; [by apply commit_blind|].
  intros a b Hab. constructor. simpl. split; [|done].
  same_fields Hab. same_solve.
Qed.

Lemma unit_refresh_blind k r1 r2 :
  sameButStore r1 r2 →
  option_Forall2 sameButStore (unit_refresh opts k r1) (unit_refresh opts k r2).
Proof.
  intros H. unfold unit_refresh.
  replace (queries r2) with (queries r1) by (by same_fields H).
  destruct (obj_get k (queries r1)) as [u|]; simpl; [|constructor].
  destruct (Query.params (Query.state u)) as [args|]; [|by constructor].
  destruct (unit_run_blind k args r1 r2 H) as [[a pa] [b pb] [Hab _]|];
    simpl; by constructor.
Qed.

Lemma unit_cancel_blind k r1 r2 :
  sameButStore r1 r2 →
  option_Forall2 sameButStore (unit_cancel opts k r1) (unit_cancel opts k r2).
Proof.
  intros H. unfold unit_cancel.
  replace (queries r2) with (queries r1) by (by same_fields H).
  destruct (obj_get k (queries r1)) as [u|]; simpl; [|constructor].
  eapply obind_same; [by apply commit_blind|].
  intros a b Hab. constructor. same_fields Hab. same_solve.
Qed.

Lemma unit_unmount_blind k r1 r2 :
  sameButStore r1 r2 →
  option_Forall2 sameButStore (unit_unmount k r1) (unit_unmount k r2).
Proof.
  intros H. unfold unit_unmount.
  replace (queries r2) with (queries r1) by (by same_fields H).
  destruct (obj_get k (queries r1)) as [u|]; simpl; constructor.
  same_fields H. same_solve.
Qed.

Lemma unit_mutate_blind k res r1 r2 :
  sameButStore r1 r2 →
  option_Forall2 sameButStore
    (unit_mutate opts k res r1) (unit_mutate opts k res r2).
Proof.
  intros H. unfold unit_mutate.
  replace (queries r2) with (queries r1) by (by same_fields H).
  destruct (obj_get k (queries r1)) as [u|]; simpl; [|constructor].
  by apply commit_blind.
Qed.

Lemma discard_blind k r1 r2 :
  sameButStore r1 r2 →
  option_Forall2 sameButStore (discard opts k r1) (discard opts k r2).
Proof.
  intros H. unfold discard.
  eapply obind_same; [by apply unit_cancel_blind|].
  intros a b Hab. eapply obind_same; [by apply unit_unmount_blind|].
  intros a' b' Hab'. constructor. same_fields Hab'. same_solve.
Qed.

Lemma forEach_blind f ks r1 r2 :
  (∀ k a b, sameButStore a b →
     option_Forall2 sameButStore (f k a) (f k b)) →
  sameButStore r1 r2 →
  option_Forall2 sameButStore (forEach f ks r1) (forEach f ks r2).
Proof.
  intros Hf. revert r1 r2. induction ks as [|k ks IH]; simpl; intros r1 r2 H.
  - by constructor.
  - eapply obind_same; [by apply Hf|]. apply IH.
Qed.

Lemma sweep_blind keep ks r1 r2 :
  sameButStore r1 r2 →
  option_Forall2 sameButStore (sweep opts keep ks r1) (sweep opts keep ks r2).
Proof.
  apply forEach_blind. intros k a b Hab.
  destruct (keep k); [by constructor | by apply discard_blind].
Qed.

Lemma run_blind args r1 r2 :
  sameButStore r1 r2 →
  option_Forall2 (λ a b, sameButStore a.1 b.1 ∧ a.2 = b.2)
    (run opts args r1) (run opts args r2).
Proof.
  intros H. unfold run. pose proof H as H'. same_fields H'.
  replace (readyValue r2) with (readyValue r1) by done.
  replace (hasTriggerReady r2) with (hasTriggerReady r1) by done.
  destruct (negb (readyValue r1) && negb (hasTriggerReady r1)).
  - constructor. simpl. split; [|done]. same_solve.
  - simpl. replace (env r2) with (env r1) by done.
    replace (queries r2) with (queries r1) by done.
    apply unit_run_blind.
    destruct (obj_get _ (queries r1)); [|destruct (inherited _)];
      same_solve.
Qed.

Lemma resolve_blind id n res r1 r2 :
  sameButStore r1 r2 →
  option_Forall2 sameButStore
    (resolve opts id n res r1) (resolve opts id n res r2).
Proof.
  intros H. unfold resolve.
  replace (queries r2) with (queries r1) by (by same_fields H).
  destruct (find_unit id (queries r1)) as [[k u]|]; [|by constructor].
  destruct (bool_decide (n = Query.count u)); [|by constructor].
  eapply obind_same; [by apply commit_blind|].
  intros a b Hab. constructor. same_fields Hab. same_solve.
Qed.

Lemma reject_blind id n err r1 r2 :
  sameButStore r1 r2 →
  option_Forall2 sameButStore
    (reject opts id n err r1) (reject opts id n err r2).
Proof.
  intros H. unfold reject.
  replace (queries r2) with (queries r1) by (by same_fields H).
  destruct (find_unit id (queries r1)) as [[k u]|]; [|by constructor].
  destruct (bool_decide (n = Query.count u)); [|by constructor].
  eapply obind_same; [by apply commit_blind|].
  intros a b Hab. constructor. same_fields Hab. same_solve.
Qed.

Lemma setReady_blind val r1 r2 :
  sameButStore r1 r2 →
  option_Forall2 sameButStore (setReady opts val r1) (setReady opts val r2).
Proof.
  intros H. unfold setReady. pose proof H as H'. same_fields H'.
  replace (readyValue r2) with (readyValue r1) by done.
  case_bool_decide; [by constructor|]. simpl.
  replace (stopReady r2) with (stopReady r1) by done.
  replace (tempReadyParams r2) with (tempReadyParams r1) by done.
  destruct (stopReady r1) eqn:Hstop; [|constructor; same_solve].
  destruct val, (tempReadyParams r1) as [args|] eqn:Htmp;
    try (constructor; same_solve).
  eapply obind_same.
  - apply run_blind. same_solve.
  - intros [a pa] [b pb] [Hab _]. constructor. simpl in Hab.
    same_fields Hab. same_solve.
Qed.

(** A step taken over another store leaves the same registry, the
    store apart. *)
Lemma step_blind ev r1 r2 :
  sameButStore r1 r2 →
  option_Forall2 sameButStore (step opts ev r1) (step opts ev r2).
Proof.
  intros H. destruct ev; simpl.
  - destruct (run_blind args r1 r2 H) as [[a pa] [b pb] [Hab _]|];
      simpl; by constructor.
  - by apply resolve_blind.
  - by apply reject_blind.
  - unfold cancel, latestQuery. pose proof H as H'. same_fields H'.
    replace (queries r2) with (queries r1) by done.
    replace (latestQueriesKey r2) with (latestQueriesKey r1) by done.
    destruct (obj_get _ (queries r1)); simpl; [|constructor].
    by apply unit_cancel_blind.
  - unfold refresh, latestQuery. pose proof H as H'. same_fields H'.
    replace (queries r2) with (queries r1) by done.
    replace (latestQueriesKey r2) with (latestQueriesKey r1) by done.
    destruct (obj_get _ (queries r1)); simpl; [|constructor].
    by apply unit_refresh_blind.
  - unfold mutate, latestQuery. pose proof H as H'. same_fields H'.
    replace (queries r2) with (queries r1) by done.
    replace (latestQueriesKey r2) with (latestQueriesKey r1) by done.
    destruct (obj_get _ (queries r1)); simpl; [|constructor].
    by apply unit_mutate_blind.
  - unfold reset. rewrite !unmountQueries_sweep.
    replace (queries r2) with (queries r1) by (by same_fields H).
    eapply obind_same; [by apply sweep_blind|].
    intros a b Hab. constructor. same_fields Hab. same_solve.
  - by apply setReady_blind.
  - constructor. unfold syncState, mirror, latestQuery.
    same_fields H. apply sameButStore_fields; simpl.
    split_and!; try congruence.
    by replace (queries r2) with (queries r1);
      replace (latestQueriesKey r2) with (latestQueriesKey r1).
  - constructor. same_fields H. same_solve.
Qed.

Lemma exec_blind evs r1 r2 :
  sameButStore r1 r2 →
  option_Forall2 sameButStore (exec opts evs r1) (exec opts evs r2).
Proof.
  revert r1 r2. induction evs as [|ev evs IH]; simpl; intros r1 r2 H.
  - by constructor.
  - eapply obind_same; [by apply step_blind|]. apply IH.
Qed.

End Facts.

End AsyncQueryFacts.

(** ** The accumulation layer *)

Module LoadMoreFacts.

Import AsyncQuery LoadMore.

Section Facts.

Variable options : LoadMoreOptions.
Implicit Types (r : Registry Layer).

(** The list is the concatenation, in the order of the object, of the
    arrays found under the list key. *)
Lemma dataList_concat r :
  dataList options r
  = concat
      (map (λ h, match get (Query.data (Query.state h)) (theListKey options) with
                 | VArr items => items
                 | _ => []
                 end)
           (obj_values (queries r))).
Proof.
  unfold dataList.
  assert (∀ (us : list Query.Unit) acc,
            foldl (λ list h,
                     match get (Query.data (Query.state h))
                             (theListKey options) with
                     | VArr dataList => list ++ dataList
                     | _ => list
                     end) acc us
            = acc ++ concat
                (map (λ h, match get (Query.data (Query.state h))
                                   (theListKey options) with
                           | VArr items => items
                           | _ => []
                           end) us)) as H.
  { induction us as [|h us IH]; intros acc; simpl.
    - by rewrite app_nil_r.
    - rewrite IH.
      destruct (get (Query.data (Query.state h)) (theListKey options));
        simpl; by rewrite ?app_assoc, ?app_nil_r. }
  apply H.
Qed.



(** [run] of the layer always returns, and what it leaves. *)
Lemma run_returns args r :
  ∃ r' p, run (registryOptions options) args r = Some (r', p)
    ∧ env r' = env r ∧ view r' = view r
    ∧ (readyValue r = true ∨ hasTriggerReady r = true →
         calls (trace r') = args :: calls (trace r)
         ∧ latestQueriesKey r' = key_of_Z (increaseQueryKey (env r)))
    ∧ (readyValue r = false ∧ hasTriggerReady r = false →
         r' = set_tempReadyParams (Some args) r ∧ p = resolvedPromise).
Proof.
  assert (readyValue r = true ∨ hasTriggerReady r = true
          ∨ (readyValue r = false ∧ hasTriggerReady r = false))
    as [Hopen|[Hopen|[Hv Hh]]]
    by (destruct (readyValue r), (hasTriggerReady r); auto).
  3:{ unfold run. rewrite Hv, Hh. simpl. eexists _, _. split; [done|].
      split_and!; try done. by intros [?|?]. }
  all: destruct (AsyncQueryFacts.run_open (registryOptions options) args r)
         as (r1 & Hc & Hrun); [auto | apply key_of_Z_own |].
  all: rewrite Hrun; eexists _, _; split; [done|].
  all: pose proof (AsyncQueryFacts.commit_trace _ _ _ _ _ Hc) as Htr.
  all: apply AsyncQueryFacts.commit_frame in Hc as (_&Hk&Hvw&He&_).
  all: simpl; rewrite Hk, Hvw, He, Htr; simpl.
  all: split_and!.
  all: try by destruct (obj_get _ (queries r)).
  all: try (intros _; split; [|done];
            destruct (activeCacheKey _); by destruct (obj_get _ (queries r))).
  all: intros [? ?]; congruence.
Qed.

(** *** The keys of the layer stay in order *)

Lemma step_wf ev r r' :
  obj_wf (queries r) → LoadMore.step options ev r = Some r' →
  obj_wf (queries r').
Proof.
  intros Hwf. destruct ev; simpl.
  - destruct (run _ args r) as [[r1 p]|] eqn:Hr; simpl; [|done].
    intros [= <-]. by eapply AsyncQueryFacts.run_wf.
  - intros H. eapply AsyncQueryFacts.settle_wf; [done|]. left. by eexists.
  - intros H. eapply AsyncQueryFacts.settle_wf; [done|]. right. by eexists.
  - unfold loadMore. destruct (noMore options r); [by intros [= <-]|].
    destruct (restParams _) as [rest|]; simpl; [|done].
    destruct (run _ _ _) as [[r1 p]|] eqn:Hr; simpl; [|done].
    intros [= <-]. by eapply AsyncQueryFacts.run_wf in Hr.
  - unfold refresh_begin.
    destruct (obj_get _ _) as [u|]; simpl; [|done].
    destruct (restParams _) as [rest|]; simpl; [|done].
    destruct (run _ _ _) as [[r1 p]|] eqn:Hr; simpl; [|done].
    intros [= <-]. by eapply AsyncQueryFacts.run_wf in Hr.
  - unfold refresh_end.
    destruct (LoadMore.unmountQueries options r) as [r1|] eqn:Hs; simpl;
      [|done].
    intros [= <-]. simpl.
    by eapply (AsyncQueryFacts.sweep_wf (registryOptions options)
                 (λ k, negb (bool_decide (k ≠ key_of_Z initailIncreaseQueryKey)))
                 _ r r1 Hwf); rewrite <- Hs; apply AsyncQueryFacts.forEach_ext;
      intros k r0; destruct (bool_decide _).
  - unfold reload_begin.
    destruct (reset _ _) as [r2|] eqn:Hreset; simpl; [|done].
    apply AsyncQueryFacts.reset_wf in Hreset; [|done].
    destruct (restParams _) as [rest|]; simpl; [|done].
    destruct (run _ _ _) as [[r1 p]|] eqn:Hr; simpl; [|done].
    intros [= <-]. by eapply AsyncQueryFacts.run_wf in Hr.
  - by intros [= <-].
  - by apply AsyncQueryFacts.reset_wf.
  - unfold LoadMore.cancel.
    destruct (AsyncQuery.cancel _ r) as [r1|] eqn:Hc; simpl; [|done].
    intros [= <-]. simpl. by eapply AsyncQueryFacts.cancel_wf.
  - by apply AsyncQueryFacts.setReady_wf.
  - intros [= <-]. unfold flush. by destruct (_ && _).
Qed.

Lemma exec_wf evs r r' :
  obj_wf (queries r) → LoadMore.exec options evs r = Some r' →
  obj_wf (queries r').
Proof.
  revert r. induction evs as [|ev evs IH]; simpl; intros r Hwf.
  - by intros [= <-].
  - destruct (LoadMore.step options ev r) as [r1|] eqn:Hstep; simpl; [|done].
    apply IH. by eapply step_wf.
Qed.

Lemma useLoadMore_wf st time r :
  useLoadMore options st time = Some r → obj_wf (queries r).
Proof.
  unfold useLoadMore.
  destruct (useAsyncQuery _ _ st time) as [r0|] eqn:H0; simpl; [|done].
  apply AsyncQueryFacts.useAsyncQuery_wf in H0.
  intros [= <-]. by destruct (defined _).
Qed.

(** *** Refresh and the latest data *)

Lemma layer_unmountQueries_sweep r :
  LoadMore.unmountQueries options r
  = sweep (registryOptions options) (λ k, bool_decide (k = KIdx 0))
      (obj_keys (queries r)) r.
Proof.
  unfold LoadMore.unmountQueries, sweep. apply AsyncQueryFacts.forEach_ext.
  intros k r0. change (key_of_Z initailIncreaseQueryKey) with (KIdx 0).
  destruct (decide (k = KIdx 0)) as [->|Hne].
  - by rewrite bool_decide_eq_false_2, bool_decide_eq_true_2 by naive_solver.
  - by rewrite bool_decide_eq_true_2, bool_decide_eq_false_2 by done.
Qed.

(** The key [refresh] reads the latest data from. *)
Lemma refresh_source (c : Z) :
  (if bool_decide (c - 1 < initailIncreaseQueryKey)
   then initailIncreaseQueryKey else c - 1) = Z.max 0 (c - 1).
Proof. unfold initailIncreaseQueryKey. case_bool_decide; lia. Qed.



End Facts.

End LoadMoreFacts.

(** ** The sample states are the states the events reach *)

Lemma pager_built :
  LoadMore.useLoadMore Samples.pager ∅ 0 = Some Samples.built.
Proof. vm_compute. reflexivity. Qed.

Lemma onePage_reached :
  LoadMore.exec Samples.pager Samples.firstPage Samples.built
  = Some Samples.onePage.
Proof. vm_compute. reflexivity. Qed.

Lemma twoPages_reached :
  LoadMore.exec Samples.pager (Samples.firstPage ++ Samples.secondPage)
    Samples.built
  = Some Samples.twoPages.
Proof. vm_compute. reflexivity. Qed.


Lemma refreshing_reached :
  LoadMore.refresh_begin Samples.pager Samples.threePages
  = Some (Samples.refreshing, attemptPromise 1 2).
Proof. vm_compute. reflexivity. Qed.



(** ** Every unit has params *)

Module ParamsFacts.

Import AsyncQuery Watchers.

Lemma obj_get_elem_of {A} k (v : A) o : obj_get k o = Some v → (k, v) ∈ o.
Proof.
  induction o as [|[k' v'] o IH]; simpl; [done|].
  destruct (decide (k = k')) as [->|Hne].
  - intros [= ->]. left.
  - intros H. right. by apply IH.
Qed.

Lemma Forall_obj_set {A} (P : key * A → Prop) k v o :
  P (k, v) → Forall P o → Forall P (obj_set k v o).
Proof.
  intros Hv. induction o as [|[k' v'] o IH]; simpl; intros Ho.
  - by constructor.
  - apply Forall_cons in Ho as [H1 H2].
    destruct (decide (k = k')); [by constructor|].
    destruct (key_before k k'); repeat constructor; auto.
Qed.

Lemma Forall_obj_delete {A} (P : key * A → Prop) k o :
  Forall P o → Forall P (obj_delete k o).
Proof.
  induction o as [|[k' v'] o IH]; simpl; intros Ho; [done|].
  apply Forall_cons in Ho as [H1 H2].
  destruct (decide (k = k')); [auto|]. constructor; auto.
Qed.

Section Facts.

Context {S : Type}.
Variable opts : Options S.
Implicit Types (r : Registry S).

Lemma allParams_get k u r :
  allParams r → obj_get k (queries r) = Some u →
  is_Some (Query.params (Query.state u)).
Proof.
  unfold allParams. rewrite Forall_forall.
  intros Hall Hget%obj_get_elem_of. by apply (Hall (k, u)).
Qed.

Lemma commit_params k u' r r' :
  commit opts k u' r = Some r' →
  is_Some (Query.params (Query.state u')) → allParams r → allParams r'.
Proof.
  intros (Hq & _)%AsyncQueryFacts.commit_frame Hu Hall.
  unfold allParams. rewrite Hq. by apply Forall_obj_set.
Qed.

Lemma register_params k r :
  allParams r → allParams (register k None r).
Proof.
  intros Hall. unfold allParams. simpl. apply Forall_obj_set; [|done].
  simpl. by eexists.
Qed.

Lemma unit_run_params k args r r' p :
  unit_run opts k args r = Some (r', p) → allParams r → allParams r'.
Proof.
  unfold unit_run.
  destruct (obj_get k (queries r)) as [u|]; simpl; [|done].
  destruct (commit opts _ _ r) as [r1|] eqn:Hc; simpl; [|done].
  intros [= <- _] Hall. unfold allParams. simpl.
  apply (commit_params _ _ _ _ Hc); [by eexists | done].
Qed.

Lemma run_params args r r' p :
  run opts args r = Some (r', p) → allParams r → allParams r'.
Proof.
  unfold run. destruct (negb (readyValue r) && negb (hasTriggerReady r)).
  - by intros [= <- _].
  - intros Hrun Hall. apply (unit_run_params _ _ _ _ _ Hrun).
    unfold allParams. simpl.
    destruct (obj_get _ (queries r)); [done|].
    destruct (inherited _); [done|]. by apply register_params.
Qed.

Lemma find_unit_elem_of id q k u :
  find_unit id q = Some (k, u) → (k, u) ∈ q.
Proof.
  unfold find_unit. induction q as [|[k' u'] q IH]; simpl; [done|].
  case_bool_decide as Hid.
  - intros [= -> ->]. left.
  - intros Hrest. right. by apply IH.
Qed.

Lemma find_unit_params id k u r :
  allParams r → find_unit id (queries r) = Some (k, u) →
  is_Some (Query.params (Query.state u)).
Proof.
  unfold allParams. rewrite Forall_forall.
  intros Hall Hf%find_unit_elem_of. by apply (Hall (k, u)).
Qed.

Lemma settle_params id n r r' :
  (∃ res, resolve opts id n res r = Some r')
  ∨ (∃ err, reject opts id n err r = Some r') →
  allParams r → allParams r'.
Proof.
  unfold resolve, reject. intros Hor Hall.
  destruct (find_unit id (queries r)) as [[k u]|] eqn:Hf;
    [|by destruct Hor as [[x [= <-]]|[x [= <-]]]].
  pose proof (find_unit_params _ _ _ _ Hall Hf) as Hu.
  destruct (bool_decide (n = Query.count u));
    [|by destruct Hor as [[x [= <-]]|[x [= <-]]]].
  destruct Hor as [[x H]|[x H]];
    (match type of H with context [commit opts ?k ?u ?x] =>
       destruct (commit opts k u x) as [r1|] eqn:Hc; simpl in H; [|done] end);
    injection H as <-; unfold allParams; simpl;
    by apply (commit_params _ _ _ _ Hc).
Qed.


Lemma sweep_params keep ks r r' :
  sweep opts keep ks r = Some r' → allParams r → allParams r'.
Proof.
  intros (Hq & _)%AsyncQueryFacts.sweep_spec. unfold allParams.
  rewrite Hq. clear Hq. generalize (queries r).
  induction ks as [|k ks IH]; simpl; intros q Hq; [done|].
  apply IH. destruct (keep k); [done|]. by apply Forall_obj_delete.
Qed.

Lemma reset_params r r' :
  reset opts r = Some r' → allParams r → allParams r'.
Proof.
  unfold reset. rewrite AsyncQueryFacts.unmountQueries_sweep.
  destruct (sweep opts _ _ r) as [r1|] eqn:Hs; simpl; [|done].
  intros [= <-] Hall. unfold allParams. simpl.
  apply Forall_obj_set; [simpl; by eexists|].
  by apply (sweep_params _ _ _ _ Hs).
Qed.



Lemma rehydrate_params r :
  snapshotsHaveParams opts (store r) → allParams r →
  allParams (rehydrate opts r).
Proof.
  unfold snapshotsHaveParams, rehydrate, activeCacheKey, Cache.getCache.
  destruct (cacheKey opts) as [[|a ck]|]; [done| |done].
  intros Hst Hall. specialize (Hst (String a ck)).
  destruct (store r !! String a ck) as [c|]; [|done].
  specialize (Hst c eq_refl eq_refl). rewrite Forall_forall in Hst.
  assert (∀ ks r0, allParams r0 →
            allParams
              (foldl
                 (λ r0 k,
                    match obj_get k (Cache.queries (Cache.data c)) with
                    | Some cacheQuery =>
                        register k
                          (Some {| Query.loading := Query.loading cacheQuery;
                                   Query.params := Query.params cacheQuery;
                                   Query.data := Query.data cacheQuery;
                                   Query.error := Query.error cacheQuery |})
                          r0
                    | None => r0
                    end) r0 ks)) as Hloop.
  { induction ks as [|k ks IH]; simpl; intros r0 H0; [done|].
    apply IH.
    destruct (obj_get k (Cache.queries (Cache.data c))) as [snap|] eqn:Hget;
      [|done].
    unfold allParams. simpl. apply Forall_obj_set; [|done]. simpl.
    apply obj_get_elem_of in Hget. by apply (Hst (k, snap)). }
  destruct (key_truthy _); by apply Hloop.
Qed.



End Facts.

Section Layer.

Import LoadMore.

Variable options : LoadMoreOptions.
Implicit Types (r : Registry Layer).







End Layer.

End ParamsFacts.

(** * The statements of the specification *)

Import AsyncQuery.




(** C8.  [reset] returns in every well-formed state whose units can be
    written to the cache without raising.  When it has returned, every
    unit that was registered has been cancelled and unmounted and is no
    longer in the map; the map holds exactly one unit, created by this
    call, under the default key, with [data] and [error] unset and
    [loading] false; the current key is the default key. *)
Theorem reset_leaves_one_fresh_default {S : Type} (opts : Options S)
    (r : Registry S) :
  (obj_wf (queries r) →
   (∀ k u, obj_get k (queries r) = Some u → writable opts u) →
   is_Some (reset opts r))
  ∧ ∀ r', reset opts r = Some r' →
      (∀ k u, obj_get k (queries r) = Some u →
         Cancelled (Query.uid u) ∈ trace r'
         ∧ Unmounted (Query.uid u) ∈ trace r'
         ∧ (k ≠ QUERY_DEFAULT_KEY → obj_get k (queries r') = None))
      ∧ queries r'
        = [(QUERY_DEFAULT_KEY, Query.createQuery (nextId r) None)]
      ∧ (∃ u', obj_get QUERY_DEFAULT_KEY (queries r') = Some u'
           ∧ Query.uid u' = nextId r
           ∧ Query.data (Query.state u') = VUndef
           ∧ Query.error (Query.state u') = None
           ∧ Query.loading (Query.state u') = false)
      ∧ latestQueriesKey r' = QUERY_DEFAULT_KEY.
Proof.
  split.
  - intros Hwf Hw. unfold reset.
    destruct (AsyncQueryFacts.sweep_total opts (λ _, false)
                (obj_keys (queries r)) r) as [r1 Hr1].
    + by apply obj_wf_NoDup.
    + intros k Hin _.
      destruct (obj_get k (queries r)) as [u|] eqn:Hget.
      * exists u. split; [done|]. by eapply Hw.
      * by apply obj_get_None_keys in Hget.
    + rewrite AsyncQueryFacts.unmountQueries_sweep, Hr1. by eexists.
  - intros r'. unfold reset.
    rewrite AsyncQueryFacts.unmountQueries_sweep.
    destruct (sweep opts _ _ r) as [r1|] eqn:Hs; simpl; [|done].
    apply AsyncQueryFacts.sweep_spec in Hs
      as (Hq & _ & _ & Hlog & _ & _ & _ & _ & Hn & _).
    assert (queries r1 = []) as Hnil.
    { apply obj_empty. intros k.
      rewrite Hq, (obj_get_foldl_delete (λ _, false)). simpl.
      destruct (decide (k ∈ obj_keys (queries r))) as [Hin|Hnin].
      - by rewrite bool_decide_eq_true_2.
      - rewrite bool_decide_eq_false_2 by done. simpl.
        by apply obj_get_None_keys. }
    intros [= <-]. simpl. rewrite Hnil, Hn. simpl.
    split_and!; [|done| |done].
    + intros k u Hget.
      destruct (Hlog k u) as [Hc Hu];
        [by eapply obj_get_Some_keys | done | done |].
      split_and!; [done..|]. intros Hne. by rewrite decide_False.
    + eexists. by split_and!.
Qed.

Lemma reset_leaves_one_fresh_default_witness :
  ∃ r', reset (Samples.plain true true) (Samples.fresh true) = Some r'
    ∧ queries r' = [(QUERY_DEFAULT_KEY, Query.createQuery 1 None)]
    ∧ Cancelled 0 ∈ trace r' ∧ Unmounted 0 ∈ trace r'
    ∧ latestQueriesKey r' = QUERY_DEFAULT_KEY.
Proof.
  destruct (reset_leaves_one_fresh_default (Samples.plain true true)
              (Samples.fresh true)) as [Hret Hpost].
  destruct Hret as [r' Hr'].
  - simpl. split; [constructor | done].
  - intros k u _. right. left. reflexivity.
  - exists r'. split; [exact Hr'|].
    destruct (Hpost r' Hr') as (Hall & Hq & _ & Hk).
    destruct (Hall QUERY_DEFAULT_KEY (Query.createQuery 0 None))
      as (Hc & Hu & _); [reflexivity|].
    split_and!; [exact Hq | exact Hc | exact Hu | exact Hk].
Defined.

(** C4.  Construction without [manual].  The units of the cache entry
    are rehydrated first, which runs nothing.  Then, by the entry under
    the cache key: when it exists and is fresh ([staleTime = -1], or its
    write time plus [staleTime] is after now) nothing runs; when it is
    not fresh but holds snapshots, every unit of the registry is
    refreshed, the rehydrated ones among them, and [run] is not
    executed (no unit is created, the current key stays, no arguments
    are stored); when there are no cached snapshots, the constructor is
    one call of [run(...defaultParams)]. *)
Theorem initial_run_three_ways {S : Type} (opts : Options S) (e : S)
    (st : gmap string Cache.Entry) (time : Z) :
  manual opts = false →
  let r0 := rehydrate opts (blank opts e st time) in
  let cache := cacheKey opts ≫= λ ck, st !! ck in
  let fresh :=
    match cache with
    | Some c =>
        staleTime opts = -1 ∨ time < Cache.cacheTime c + staleTime opts
    | None => False
    end in
  let cached := default [] (Cache.queries <$> (Cache.data <$> cache)) in
  trace r0 = []
  ∧ (∀ ck c k snap,
       activeCacheKey opts = Some ck → st !! ck = Some c →
       obj_get k (Cache.queries (Cache.data c)) = Some snap →
       ∃ id, obj_get k (queries r0)
             = Some (Query.createQuery id (Some snap)))
  ∧ (fresh → useAsyncQuery opts e st time = Some (set_stopReady true r0))
  ∧ (¬ fresh → cached ≠ [] →
       useAsyncQuery opts e st time
         = set_stopReady true <$> refreshAll opts r0
       ∧ ∃ r', useAsyncQuery opts e st time = Some r'
           ∧ (∀ k, obj_get k (queries r')
                   = refreshed <$> obj_get k (queries r0))
           ∧ (∀ k u args,
                obj_get k (queries r0) = Some u →
                Query.params (Query.state u) = Some args →
                Called (Query.uid u) (Datatypes.S (Query.count u)) args
                  ∈ trace r')
           ∧ latestQueriesKey r' = latestQueriesKey r0
           ∧ tempReadyParams r' = None
           ∧ nextId r' = nextId r0)
  ∧ (¬ fresh → cached = [] →
       useAsyncQuery opts e st time
         = (λ p, set_stopReady true p.1)
             <$> run opts (defaultParams opts) r0).
Proof.
  intros Hmanual r0 cache fresh cached.
  destruct (AsyncQueryFacts.rehydrate_spec opts (blank opts e st time))
    as (Hs & Ht & Hn & He & Hv & (Htmp & _) & Hwf & Hunits).
  fold r0 in Hs, Ht, Hn, He, Hv, Htmp, Hwf, Hunits.
  simpl in Hs, Ht, Hn, Htmp.
  assert (initialCache opts r0 = cache) as Hcache.
  { unfold initialCache, Cache.getCache. by rewrite Hs. }
  assert (isFresh opts r0 = true ↔ fresh) as Hfresh.
  { unfold isFresh. rewrite Hcache, Hn. subst fresh.
    destruct cache as [c|]; [|done].
    rewrite orb_true_iff, bool_decide_eq_true, Z.gtb_lt. done. }
  assert (hasCacheQueries opts r0 = true ↔ cached ≠ []) as Hhas.
  { unfold hasCacheQueries. rewrite Hcache. fold cached.
    rewrite bool_decide_eq_true. unfold obj_keys.
    destruct cached; simpl; [split; [lia | done] | split; [done | lia]]. }
  assert (obj_wf (queries r0)) as Hwf0.
  { apply Hwf, AsyncQueryFacts.blank_wf. }
  split_and!.
  - done.
  - intros ck c k snap Hck Hst. by apply (Hunits ck c).
  - intros Hf%Hfresh. unfold useAsyncQuery, initialRun. fold r0.
    by rewrite Hmanual, Hf.
  - intros Hnf Hc.
    assert (isFresh opts r0 = false) as Hf.
    { apply not_true_is_false. intros Hf. by apply Hfresh in Hf. }
    assert (hasCacheQueries opts r0 = true) as Hh by by apply Hhas.
    assert (useAsyncQuery opts e st time
            = set_stopReady true <$> refreshAll opts r0) as Heq.
    { unfold useAsyncQuery, initialRun. fold r0.
      rewrite Hmanual, Hf, Hh. by destruct (refreshAll opts r0). }
    split; [done|]. rewrite Heq. unfold refreshAll.
    destruct (AsyncQueryFacts.refresh_loop_total opts
                (obj_keys (queries r0)) r0) as [r1 Hr1].
    rewrite Hr1. simpl. eexists. split; [done|]. simpl.
    apply AsyncQueryFacts.refresh_loop in Hr1
      as (Hq & _ & Hcall & (Hk & _ & _ & (Htmp1 & _) & Hnext & _));
      [|by apply obj_wf_NoDup].
    split_and!; [| |done|congruence|done].
    + intros k. rewrite Hq. destruct (decide _) as [|Hnin]; [done|].
      apply obj_get_None_keys in Hnin. by rewrite Hnin.
    + intros k u args Hget Hp. eapply Hcall; [|done..].
      by eapply obj_get_Some_keys.
  - intros Hnf Hc.
    assert (isFresh opts r0 = false) as Hf.
    { apply not_true_is_false. intros Hf. by apply Hfresh in Hf. }
    assert (hasCacheQueries opts r0 = false) as Hh.
    { apply not_true_is_false. intros Hh. by apply Hhas in Hh. }
    unfold useAsyncQuery, initialRun. fold r0. rewrite Hmanual, Hf, Hh.
    by destruct (run opts (defaultParams opts) r0) as [[??]|].
Qed.

Lemma initial_run_three_ways_witness :
  useAsyncQuery (Samples.cached false (-1)) () Samples.stored 5
    = Some (set_stopReady true
              (rehydrate (Samples.cached false (-1))
                 (blank (Samples.cached false (-1)) () Samples.stored 5)))
  ∧ (∃ r', useAsyncQuery (Samples.cached false 0) () Samples.stored 5
             = Some r'
       ∧ Called 1 1 [VNum 1] ∈ trace r'
       ∧ tempReadyParams r' = None)
  ∧ useAsyncQuery (Samples.cached false 0) () ∅ 5
    = (λ p, set_stopReady true p.1)
        <$> run (Samples.cached false 0) [VNum 1]
              (rehydrate (Samples.cached false 0)
                 (blank (Samples.cached false 0) () ∅ 5)).
Proof.
  split_and!.
  - destruct (initial_run_three_ways (Samples.cached false (-1)) ()
                Samples.stored 5) as (_ & _ & Hfresh & _ & _).
    + reflexivity.
    + apply Hfresh. vm_compute. left. reflexivity.
  - destruct (initial_run_three_ways (Samples.cached false 0) ()
                Samples.stored 5) as (_ & _ & _ & Hstale & _).
    + reflexivity.
    + destruct Hstale as (_ & r' & Hr' & _ & Hcalled & _ & Htmp & _).
      * vm_compute. intros [H|H]; discriminate.
      * vm_compute. discriminate.
      * exists r'. split; [exact Hr'|]. split; [|exact Htmp].
        apply (Hcalled QUERY_DEFAULT_KEY
                 (Query.createQuery 1
                    (Some {| Query.loading := false; Query.data := VNum 7;
                             Query.error := None;
                             Query.params := Some [VNum 1] |}))
                 [VNum 1]); reflexivity.
  - destruct (initial_run_three_ways (Samples.cached false 0) () ∅ 5)
      as (_ & _ & _ & _ & Hnone).
    + reflexivity.
    + apply Hnone.
      * vm_compute. intros H. exact H.
      * reflexivity.
Defined.

(** C2, as the code has it.  The gate is closed while [ready] is false
    and has not changed since the registry was built (the claim says:
    has never turned true, which is less).  Behind the closed gate [run] stores
    its arguments and returns the resolved promise: no call of the
    service, no unit created or selected.  The first change of [ready],
    which is then to [true], replays the stored arguments through [run],
    which calls the service once with them (their key being no name the
    registry object inherits), and stops the watcher; once
    the watcher is stopped it stays stopped and an assignment to [ready]
    changes nothing but the value of [ready]. *)
Theorem ready_gate_one_shot {S : Type} (opts : Options S) :
  (∀ e st time r0 evs r args,
     useAsyncQuery opts e st time = Some r0 →
     exec opts evs r0 = Some r →
     ready opts = false →
     everChanged (ready opts) (readyWrites evs) = false →
     readyValue r = false ∧ hasTriggerReady r = false ∧ stopReady r = true
     ∧ run opts args r
       = Some (set_tempReadyParams (Some args) r, resolvedPromise))
  ∧ (∀ r args,
       readyValue r = false → hasTriggerReady r = false →
       stopReady r = true → tempReadyParams r = Some args →
       inherited (keyFor opts (env r) args) = false →
       ∃ r', setReady opts true r = Some r'
         ∧ calls (trace r') = args :: calls (trace r)
         ∧ readyValue r' = true ∧ hasTriggerReady r' = true
         ∧ stopReady r' = false)
  ∧ (∀ r, stopReady r = false →
       (∀ val r', setReady opts val r = Some r' →
          r' = set_readyValue val r)
       ∧ (∀ evs r', exec opts evs r = Some r' → stopReady r' = false)).
Proof.
  split_and!.
  - intros e st time r0 evs r args Hnew Hexec Hrdy Hsame.
    apply AsyncQueryFacts.useAsyncQuery_ready in Hnew as (Hh & Hr & Hs).
    rewrite <- Hr in Hsame.
    apply (AsyncQueryFacts.exec_unchanged opts evs r0 r Hsame) in Hexec
      as (Hh' & Hr' & Hs').
    assert (readyValue r = false) as Hv by congruence.
    assert (hasTriggerReady r = false) as Ht by congruence.
    split_and!; [done | done | congruence |].
    unfold run. by rewrite Hv, Ht.
  - intros r args Hv Ht Hs Htmp Hown. unfold setReady.
    rewrite Hv. simpl. rewrite Hs, Htmp.
    destruct (AsyncQueryFacts.run_open opts args
                (set_hasTriggerReady true (set_readyValue true r)))
      as (r1 & Hc & Hrun); [by left | exact Hown |].
    rewrite Hrun. simpl. eexists. split; [done|]. simpl.
    pose proof (AsyncQueryFacts.commit_trace _ _ _ _ _ Hc) as Htr.
    apply AsyncQueryFacts.commit_shell, AsyncQueryFacts.same_shell_ready
      in Hc as (Hh1 & Hr1 & _).
    split_and!.
    + rewrite Htr. simpl.
      destruct (activeCacheKey opts); simpl;
        by destruct (obj_get _ (queries r)).
    + rewrite Hr1. simpl. by destruct (obj_get _ (queries r)).
    + rewrite Hh1. simpl. by destruct (obj_get _ (queries r)).
    + done.
  - intros r Hs. split.
    + intros val r'. unfold setReady. case_bool_decide as Hval.
      * intros [= <-]. subst val. by destruct r.
      * simpl. rewrite Hs. by intros [= <-].
    + intros evs. revert r Hs.
      induction evs as [|ev evs IH]; intros r Hs r'; cbn [exec].
      * by intros [= <-].
      * destruct (step opts ev r) as [r1|] eqn:Hstep; simpl; [|done].
        apply IH.
        assert ((∃ val, ev = SetReady val) ∨ (∀ val, ev ≠ SetReady val))
          as [[val ->]|Hne] by (destruct ev; eauto).
        -- simpl in Hstep. unfold setReady in Hstep.
           case_bool_decide; [by injection Hstep as <-|].
           simpl in Hstep. rewrite Hs in Hstep. by injection Hstep as <-.
        -- apply (AsyncQueryFacts.step_ready opts ev r r1 Hne) in Hstep
             as (_ & _ & ->). done.
Qed.

Lemma ready_gate_one_shot_witness :
  ∃ r0 r,
    useAsyncQuery (Samples.plain false false) () ∅ 0 = Some r0
    ∧ exec (Samples.plain false false) [Flush; SetReady false] r0 = Some r
    ∧ run (Samples.plain false false) [VNum 5] r
      = Some (set_tempReadyParams (Some [VNum 5]) r, resolvedPromise).
Proof.
  eexists _, _. split; [reflexivity|]. split; [reflexivity|].
  destruct (ready_gate_one_shot (Samples.plain false false)) as (Hgate & _).
  eapply (Hgate () ∅ 0 _ [Flush; SetReady false]); reflexivity.
Defined.

(** C2 as stated fails: a [ready] that starts true and is then set to
    false has never turned true, yet [run] is not held back: it calls
    the service and stores nothing. *)
Lemma ready_gate_open_after_drop :
  ∃ r0 r r',
    useAsyncQuery (Samples.plain true true) () ∅ 0 = Some r0
    ∧ exec (Samples.plain true true) [SetReady false] r0 = Some r
    ∧ readyValue r = false
    ∧ everTurnedTrue (ready (Samples.plain true true))
        (readyWrites [SetReady false]) = false
    ∧ run (Samples.plain true true) [VNum 5] r
      ≠ Some (set_tempReadyParams (Some [VNum 5]) r, resolvedPromise)
    ∧ run (Samples.plain true true) [VNum 5] r
      = Some (r', attemptPromise 0 1)
    ∧ tempReadyParams r' = None
    ∧ calls (trace r') = [[VNum 5]].
Proof.
  eexists _, _, _. split_and!; try reflexivity; discriminate.
Qed.

(** C7, as the code has it.  The state watcher has no [flush] option,
    so the view is not written inside the change it follows.  It is
    written when the watcher runs: once
    at construction, and at each flush of the scheduler, which copies
    the four fields of the unit under the one current key in a single
    step (all unset when that key holds no unit).  No other step of the
    registry writes the view. *)
Theorem view_follows_on_flush {S : Type} (opts : Options S) :
  (∀ (e : S) st time,
     view (blank opts e st time) = mirror (blank opts e st time))
  ∧ (∀ r : Registry S,
       step opts Flush r = Some (syncState r)
       ∧ view (syncState r) = mirror r
       ∧ mirror (syncState r) = mirror r
       ∧ match obj_get (latestQueriesKey r) (queries r) with
         | Some u =>
             loading (view (syncState r))
               = Some (Query.loading (Query.state u))
             ∧ data (view (syncState r)) = Query.data (Query.state u)
             ∧ error (view (syncState r)) = Query.error (Query.state u)
             ∧ params (view (syncState r)) = Query.params (Query.state u)
         | None =>
             view (syncState r)
             = {| loading := None; data := VUndef;
                  error := None; params := None |}
         end)
  ∧ (∀ ev (r r' : Registry S),
       ev ≠ Flush → step opts ev r = Some r' → view r' = view r).
Proof.
  split_and!.
  - done.
  - intros r. split_and!; try done.
    unfold syncState, mirror, latestQuery. simpl.
    by destruct (obj_get (latestQueriesKey r) (queries r)).
  - apply AsyncQueryFacts.step_view.
Qed.

Lemma view_follows_on_flush_witness :
  ∃ r r',
    step (Samples.plain true true) (Run [VNum 5]) (Samples.fresh true)
      = Some r
    ∧ view r = view (Samples.fresh true)
    ∧ step (Samples.plain true true) Flush r = Some r'
    ∧ loading (view r') = Some true
    ∧ params (view r') = Some [VNum 5].
Proof.
  eexists _, _. split; [reflexivity|].
  destruct (view_follows_on_flush (Samples.plain true true))
    as (_ & _ & Hframe).
  split; [|by split_and!].
  eapply (Hframe (Run [VNum 5])); [discriminate | reflexivity].
Defined.

(** C7 as stated fails: when [run] has returned, the current unit is
    loading with its new params, and the view still shows the state
    before the call. *)
Lemma view_stale_after_run :
  ∃ r' p u,
    run (Samples.plain true true) [VNum 5] (Samples.fresh true)
      = Some (r', p)
    ∧ obj_get (latestQueriesKey r') (queries r') = Some u
    ∧ Query.loading (Query.state u) = true
    ∧ Query.params (Query.state u) = Some [VNum 5]
    ∧ loading (view r') = Some false
    ∧ params (view r') ≠ Some [VNum 5]
    ∧ view r' ≠ mirror r'.
Proof.
  eexists _, _, _. split_and!; try reflexivity; discriminate.
Qed.

(** C9.  A registry without a cache key never writes to the store: its
    constructor and every step leave the store as it was and log no
    write.  With a cache key, a state change of a unit (the start of a
    run, the settlement of its latest attempt, a cancel, a mutate)
    performs one write, under that cache key: the entry's [queries] map
    keeps its other sub-keys and takes the unit's four fields under the
    sub-key computed from the unit's params, which also becomes the
    entry's [latestQueriesKey]; entries under other cache keys are not
    touched.  A settlement that is not the latest attempt's writes
    nothing.  Once built, the registry keeps nothing of the store: over
    any other store content a sequence of events raises or returns
    alike and leaves the same units, view, keys, gate, trace and caller
    state. *)
Theorem cache_written_on_state_change_only {S : Type} (opts : Options S) :
  (activeCacheKey opts = None →
     (∀ (e : S) st time r,
        useAsyncQuery opts e st time = Some r →
        store r = st ∧ writes (trace r) = [])
     ∧ (∀ ev r r', step opts ev r = Some r' →
          store r' = store r ∧ writes (trace r') = writes (trace r))
     ∧ (∀ evs r r', exec opts evs r = Some r' →
          store r' = store r ∧ writes (trace r') = writes (trace r)))
  ∧ (∀ ck, activeCacheKey opts = Some ck →
       (∀ k u' r r',
          commit opts k u' r = Some r' →
          ∃ kq entry,
            currentQueryKey opts (Query.state u') r = Some kq
            ∧ store r' = <[ck := entry]> (store r)
            ∧ writes (trace r') = ck :: writes (trace r)
            ∧ Cache.cacheTime entry = now r
            ∧ Cache.latestQueriesKey (Cache.data entry) = kq
            ∧ obj_get kq (Cache.queries (Cache.data entry))
              = Some (Query.state u')
            ∧ (∀ k', k' ≠ kq →
                 obj_get k' (Cache.queries (Cache.data entry))
                 = (store r !! ck) ≫= λ c,
                     obj_get k' (Cache.queries (Cache.data c)))
            ∧ (∀ ck', ck' ≠ ck → store r' !! ck' = store r !! ck'))
       ∧ (∀ k args r r' p,
            unit_run opts k args r = Some (r', p) →
            writes (trace r') = ck :: writes (trace r))
       ∧ (∀ k r r',
            unit_cancel opts k r = Some r' →
            writes (trace r') = ck :: writes (trace r))
       ∧ (∀ k res r r',
            unit_mutate opts k res r = Some r' →
            writes (trace r') = ck :: writes (trace r))
       ∧ (∀ id n res r r',
            resolve opts id n res r = Some r' →
            writes (trace r')
            = if latestAttempt id n r
              then ck :: writes (trace r) else writes (trace r))
       ∧ (∀ id n err r r',
            reject opts id n err r = Some r' →
            writes (trace r')
            = if latestAttempt id n r
              then ck :: writes (trace r) else writes (trace r)))
  ∧ (∀ evs (r : Registry S) st,
       option_Forall2 sameButStore
         (exec opts evs (set_store st r)) (exec opts evs r)).
Proof.
  split; [|split].
  3:{ intros evs r st. by apply AsyncQueryFacts.exec_blind. }
  - intros Hoff. split_and!.
    + intros e st time r. by apply AsyncQueryFacts.useAsyncQuery_quiet.
    + intros ev r r'. by apply AsyncQueryFacts.step_quiet.
    + intros evs r r'. by apply AsyncQueryFacts.exec_quiet.
  - intros ck Hck. split_and!.
    + intros k u' r r' Hc.
      destruct (AsyncQueryFacts.commit_active opts ck k u' r r' Hck Hc)
        as (kq & Hkq & Hst & Htr).
      exists kq. eexists. split_and!; [done | exact Hst | by rewrite Htr | ..].
      * done.
      * done.
      * simpl. apply obj_get_set_eq.
      * intros k' Hne. simpl. rewrite obj_get_set_ne by done.
        by destruct (store r !! ck).
      * intros ck' Hne. rewrite Hst. by apply lookup_insert_ne.
    + intros k args r r' p. unfold unit_run.
      destruct (obj_get k (queries r)) as [u|]; simpl; [|done].
      destruct (commit opts _ _ r) as [r1|] eqn:Hc; simpl; [|done].
      intros [= <- _]. simpl.
      by apply (AsyncQueryFacts.commit_writes opts ck) in Hc.
    + intros k r r'. unfold unit_cancel.
      destruct (obj_get k (queries r)) as [u|]; simpl; [|done].
      destruct (commit opts _ _ r) as [r1|] eqn:Hc; simpl; [|done].
      intros [= <-]. simpl.
      by apply (AsyncQueryFacts.commit_writes opts ck) in Hc.
    + intros k res r r'. unfold unit_mutate.
      destruct (obj_get k (queries r)) as [u|]; simpl; [|done].
      by apply AsyncQueryFacts.commit_writes.
    + intros id n res r r'. unfold resolve, latestAttempt.
      destruct (find_unit id (queries r)) as [[k u]|]; [|by intros [= <-]].
      destruct (bool_decide (n = Query.count u)); [|by intros [= <-]].
      destruct (commit opts _ _ r) as [r1|] eqn:Hc; simpl; [|done].
      intros [= <-]. simpl.
      by apply (AsyncQueryFacts.commit_writes opts ck) in Hc.
    + intros id n err r r'. unfold reject, latestAttempt.
      destruct (find_unit id (queries r)) as [[k u]|]; [|by intros [= <-]].
      destruct (bool_decide (n = Query.count u)); [|by intros [= <-]].
      destruct (commit opts _ _ r) as [r1|] eqn:Hc; simpl; [|done].
      intros [= <-]. simpl.
      by apply (AsyncQueryFacts.commit_writes opts ck) in Hc.
Qed.

Lemma cache_written_on_state_change_only_witness :
  (∃ r', step (Samples.plain true true) (Run [VNum 5]) (Samples.fresh true)
           = Some r'
     ∧ store r' = store (Samples.fresh true)
     ∧ writes (trace r') = writes (trace (Samples.fresh true)))
  ∧ (∃ r' p,
       unit_run (Samples.cached true 0) QUERY_DEFAULT_KEY [VNum 2]
         (blank (Samples.cached true 0) () Samples.stored 9) = Some (r', p)
       ∧ writes (trace r') = ["k"]).
Proof.
  destruct (cache_written_on_state_change_only (Samples.plain true true))
    as [Hoff _].
  destruct (cache_written_on_state_change_only (Samples.cached true 0))
    as (_ & Hon & _).
  split.
  - eexists. split; [reflexivity|].
    eapply (proj1 (proj2 (Hoff eq_refl)) (Run [VNum 5])). reflexivity.
  - destruct (Hon "k" eq_refl) as (_ & Hrun & _).
    destruct (unit_run (Samples.cached true 0) QUERY_DEFAULT_KEY [VNum 2]
                (blank (Samples.cached true 0) () Samples.stored 9))
      as [[r' p]|] eqn:H1; [|vm_compute in H1; discriminate].
    exists r', p. split; [reflexivity|].
    apply Hrun in H1. exact H1.
Defined.

Import LoadMore.



(** C6.  The accumulated list is, in every state, the concatenation of
    the arrays found under the list key (["list"] unless configured) in
    the data of the registry's units, taken in the order of the
    registry's keys; a unit whose data has no array there adds nothing.
    In every state the layer reaches that order is ascending: index
    keys by their number, before any other key.  After a first page
    [{list: [1, 2]}] and a [loadMore] that returns [{list: [3, 4]}] the
    list is [[1, 2, 3, 4]]. *)
Theorem dataList_concatenates_in_key_order (options : LoadMoreOptions) :
  (∀ r : Registry Layer,
     dataList options r
     = concat
         (map (λ h, match get (Query.data (Query.state h))
                            (default "list" (listKey options)) with
                    | VArr items => items
                    | _ => []
                    end)
              (obj_values (queries r))))
  ∧ (∀ st time r0 evs r,
       useLoadMore options st time = Some r0 →
       LoadMore.exec options evs r0 = Some r →
       ∀ (i j : nat) ki kj,
         (i < j)%nat →
         obj_keys (queries r) !! i = Some ki →
         obj_keys (queries r) !! j = Some kj →
         match ki, kj with
         | KIdx a, KIdx b => (a < b)%N
         | KIdx _, KName _ => True
         | KName s, KName t => s ≠ t
         | KName _, KIdx _ => False
         end)
  ∧ (Samples.pagerAfter (Samples.firstPage ++ Samples.secondPage)
       = Some Samples.twoPages
     ∧ dataList Samples.pager Samples.twoPages
       = [VNum 1; VNum 2; VNum 3; VNum 4]).
Proof.
  split_and!.
  - apply LoadMoreFacts.dataList_concat.
  - intros st time r0 evs r Hnew Hexec i j ki kj Hlt Hi Hj.
    apply LoadMoreFacts.useLoadMore_wf in Hnew.
    apply (LoadMoreFacts.exec_wf options evs r0 r Hnew) in Hexec.
    by apply (obj_wf_ascending (queries r) i j ki kj).
  - by vm_compute.
  - by vm_compute.
Qed.

Lemma dataList_concatenates_in_key_order_witness :
  obj_keys (queries Samples.twoPages)
    = [KIdx 0; KIdx 1; QUERY_DEFAULT_KEY]
  ∧ (0 < 1)%N.
Proof.
  split; [reflexivity|].
  destruct (dataList_concatenates_in_key_order Samples.pager)
    as (_ & Hasc & _).
  exact (Hasc ∅ 0 Samples.built (Samples.firstPage ++ Samples.secondPage)
           Samples.twoPages pager_built twoPages_reached
           0%nat 1%nat (KIdx 0) (KIdx 1) ltac:(lia) eq_refl eq_refl).
Defined.







(** * Further properties of the two hooks *)

Module GateFacts.

Import AsyncQuery Watchers.

Section Facts.

Context {S : Type}.
Variable opts : Options S.
Implicit Types (r : Registry S).

(** [run] behind an open gate always returns; what it leaves. *)
Lemma run_open_calls args r :
  gateOpen r →
  inherited (keyFor opts (env r) args) = false →
  ∃ r' p, run opts args r = Some (r', p)
    ∧ calls (trace r') = args :: calls (trace r)
    ∧ latestQueriesKey r' = keyFor opts (env r) args
    ∧ env r' = env r ∧ view r' = view r
    ∧ obj_get (keyFor opts (env r) args) (queries r')
      = Some (Query.started args
                (default (Query.createQuery (nextId r) None)
                   (obj_get (keyFor opts (env r) args) (queries r))))
    ∧ (∀ k, k ≠ keyFor opts (env r) args →
         obj_get k (queries r') = obj_get k (queries r))
    ∧ tempReadyParams r' = tempReadyParams r.
Proof.
  intros Hopen Hown.
  destruct (AsyncQueryFacts.run_open opts args r Hopen Hown)
    as (r1 & Hc & Hrun).
  rewrite Hrun. eexists _, _. split; [done|].
  pose proof (AsyncQueryFacts.commit_trace _ _ _ _ _ Hc) as Htr.
  apply AsyncQueryFacts.commit_frame in Hc as (Hq&Hk&Hvw&He&Htmp&_).
  simpl. rewrite Hq, Hk, Hvw, He, Htr, Htmp. simpl. split_and!.
  - destruct (activeCacheKey opts); by destruct (obj_get _ (queries r)).
  - done.
  - by destruct (obj_get _ (queries r)).
  - by destruct (obj_get _ (queries r)).
  - apply obj_get_set_eq.
  - intros k Hne. rewrite obj_get_set_ne by done.
    destruct (obj_get (keyFor opts (env r) args) (queries r)); simpl; [done|].
    by rewrite obj_get_set_ne.
  - by destruct (obj_get _ (queries r)).
Qed.

(** The first change of [ready] replays the stored arguments. *)
Lemma setReady_replays args r :
  readyValue r = false → stopReady r = true →
  tempReadyParams r = Some args →
  inherited (keyFor opts (env r) args) = false →
  ∃ r', setReady opts true r = Some r'
    ∧ calls (trace r') = args :: calls (trace r)
    ∧ latestQueriesKey r' = keyFor opts (env r) args
    ∧ hasTriggerReady r' = true ∧ readyValue r' = true
    ∧ stopReady r' = false.
Proof.
  intros Hv Hs Htmp Hown.
  unfold setReady. rewrite Hv. simpl. rewrite Hs, Htmp.
  destruct (run_open_calls args
              (set_hasTriggerReady true (set_readyValue true r)))
    as (r1 & p & Hrun & Hcalls & Hk & _); [by left | exact Hown |].
  pose proof (AsyncQueryFacts.run_ready _ _ _ _ _ Hrun) as (Hh & Hr & _).
  rewrite Hrun. simpl. eexists. split; [done|]. simpl. by split_and!.
Qed.

Lemma setReady_trigger val r r' :
  hasTriggerReady r = true → setReady opts val r = Some r' →
  hasTriggerReady r' = true.
Proof.
  intros Hh. unfold setReady. case_bool_decide; [by intros [= <-]|]. simpl.
  destruct (stopReady r); [|by intros [= <-]].
  destruct val, (tempReadyParams r) as [args|]; try by intros [= <-].
  destruct (run opts args _) as [[r3 p]|] eqn:Hrun; simpl; [|done].
  intros [= <-]. simpl.
  by apply AsyncQueryFacts.run_ready in Hrun as (-> & _).
Qed.

Lemma exec_trigger evs r r' :
  hasTriggerReady r = true → AsyncQuery.exec opts evs r = Some r' →
  hasTriggerReady r' = true.
Proof.
  revert r. induction evs as [|ev evs IH]; simpl; intros r Hh.
  - by intros [= <-].
  - destruct (AsyncQuery.step opts ev r) as [r1|] eqn:Hstep; simpl; [|done].
    apply IH.
    assert ((∃ val, ev = AsyncQuery.SetReady val)
            ∨ (∀ val, ev ≠ AsyncQuery.SetReady val))
      as [[val ->]|Hne] by (destruct ev; eauto).
    + by eapply setReady_trigger.
    + apply (AsyncQueryFacts.step_ready opts ev r r1 Hne) in Hstep
        as (-> & _). done.
Qed.

End Facts.

End GateFacts.

Import Watchers AsyncQuery.

(** X1.  A registry built with [ready] false, without [manual] and
    without a cache key calls nothing: its automatic run only stores
    [defaultParams].  The first time [ready] is set to true the service
    is called once, with [defaultParams], under the key they give, which
    is taken to be no name the registry object inherits. *)
Theorem auto_run_waits_for_ready {S : Type} (opts : Options S) (e : S)
    (st : gmap string Cache.Entry) (time : Z) :
  manual opts = false → ready opts = false → cacheKey opts = None →
  inherited (keyFor opts e (defaultParams opts)) = false →
  ∃ r0,
    useAsyncQuery opts e st time = Some r0
    ∧ trace r0 = []
    ∧ tempReadyParams r0 = Some (defaultParams opts)
    ∧ queries r0 = [(QUERY_DEFAULT_KEY, Query.createQuery 0 None)]
    ∧ ∃ r1,
        setReady opts true r0 = Some r1
        ∧ calls (trace r1) = [defaultParams opts]
        ∧ latestQueriesKey r1 = keyFor opts e (defaultParams opts)
        ∧ stopReady r1 = false.
Proof.
  intros Hm Hr Hck Hown.
  assert (useAsyncQuery opts e st time
          = Some (set_stopReady true
                    (set_tempReadyParams (Some (defaultParams opts))
                       (blank opts e st time)))) as Hnew.
  { unfold useAsyncQuery, rehydrate, initialRun, isFresh, hasCacheQueries,
      initialCache, run. rewrite Hck, Hm. simpl. by rewrite Hr. }
  rewrite Hnew. eexists. split; [done|]. split_and!; try done.
  destruct (GateFacts.setReady_replays opts (defaultParams opts)
              (set_stopReady true
                 (set_tempReadyParams (Some (defaultParams opts))
                    (blank opts e st time))))
    as (r1 & H1 & Hcalls & Hk & _ & _ & Hs); [done..|].
  exists r1. by split_and!.
Qed.

Lemma auto_run_waits_for_ready_witness :
  ∃ r0 r1,
    useAsyncQuery (Samples.plain false false) () ∅ 0 = Some r0
    ∧ trace r0 = []
    ∧ setReady (Samples.plain false false) true r0 = Some r1
    ∧ calls (trace r1) = [[]].
Proof.
  destruct (auto_run_waits_for_ready (Samples.plain false false) () ∅ 0)
    as (r0 & H0 & Ht & _ & _ & r1 & H1 & Hc & _); [reflexivity..|].
  exists r0, r1. by split_and!.
Defined.

(** X2.  Behind the closed gate every call of [run] overwrites the
    stored arguments: when [ready] turns true only the arguments of the
    last call are run, once; the earlier ones are never passed to the
    service.  The key of the last call is taken to be no name the
    registry object inherits. *)
Theorem last_gated_run_wins {S : Type} (opts : Options S) (r : Registry S)
    (a b : list value) :
  readyValue r = false → hasTriggerReady r = false → stopReady r = true →
  inherited (keyFor opts (env r) b) = false →
  ∃ r1 r2 r3,
    run opts a r = Some (r1, resolvedPromise)
    ∧ run opts b r1 = Some (r2, resolvedPromise)
    ∧ trace r2 = trace r ∧ queries r2 = queries r
    ∧ setReady opts true r2 = Some r3
    ∧ calls (trace r3) = b :: calls (trace r).
Proof.
  intros Hv Hh Hs Hown.
  destruct (GateFacts.setReady_replays opts b
              (set_tempReadyParams (Some b)
                 (set_tempReadyParams (Some a) r)))
    as (r3 & H3 & Hcalls & _); [done..|].
  exists (set_tempReadyParams (Some a) r),
    (set_tempReadyParams (Some b) (set_tempReadyParams (Some a) r)), r3.
  unfold run. simpl. rewrite Hv, Hh. simpl. by split_and!.
Qed.

Lemma last_gated_run_wins_witness :
  ∃ r1 r2 r3,
    run (Samples.plain true false) [VNum 1] (Samples.fresh false)
      = Some (r1, resolvedPromise)
    ∧ run (Samples.plain true false) [VNum 2] r1
      = Some (r2, resolvedPromise)
    ∧ setReady (Samples.plain true false) true r2 = Some r3
    ∧ calls (trace r3) = [[VNum 2]].
Proof.
  destruct (last_gated_run_wins (Samples.plain true false)
              (Samples.fresh false) [VNum 1] [VNum 2])
    as (r1 & r2 & r3 & H1 & H2 & _ & _ & H3 & Hc); [reflexivity..|].
  exists r1, r2, r3. by split_and!.
Defined.

(** X3.  [hasTriggerReady] is only ever set: once the watcher of
    [ready] has fired, no event closes the gate again, and [run] calls
    the service whatever the value of [ready] is, for every key that is
    no name the registry object inherits. *)
Theorem gate_never_closes_again {S : Type} (opts : Options S)
    (evs : list AsyncQuery.Event) (r r' : Registry S) :
  hasTriggerReady r = true →
  AsyncQuery.exec opts evs r = Some r' →
  hasTriggerReady r' = true
  ∧ ∀ args, inherited (keyFor opts (env r') args) = false →
      ∃ r'' p,
        run opts args r' = Some (r'', p)
        ∧ calls (trace r'') = args :: calls (trace r')
        ∧ tempReadyParams r'' = tempReadyParams r'.
Proof.
  intros Hh Hexec.
  pose proof (GateFacts.exec_trigger opts evs r r' Hh Hexec) as Hh'.
  split; [done|]. intros args Hown.
  destruct (GateFacts.run_open_calls opts args r')
    as (r'' & p & Hrun & Hc & _ & _ & _ & _ & _ & Htmp);
    [by right | exact Hown |].
  exists r'', p. by split_and!.
Qed.

Lemma toggled_reached :
  AsyncQuery.exec (Samples.plain true true)
    [AsyncQuery.Flush; AsyncQuery.SetReady true; AsyncQuery.SetReady false]
    MoreSamples.dropped = Some MoreSamples.toggled.
Proof. vm_compute. reflexivity. Qed.

Lemma gate_never_closes_again_witness :
  readyValue MoreSamples.toggled = false
  ∧ ∃ r'' p,
      run (Samples.plain true true) [VNum 3] MoreSamples.toggled
        = Some (r'', p)
      ∧ calls (trace r'') = [[VNum 3]].
Proof.
  split; [reflexivity|].
  destruct (gate_never_closes_again (Samples.plain true true) _
              MoreSamples.dropped MoreSamples.toggled eq_refl toggled_reached)
    as (_ & Hrun).
  destruct (Hrun [VNum 3] eq_refl) as (r'' & p & H1 & H2 & _).
  exists r'', p. split; [exact H1 | exact H2].
Defined.

Module CurrentUnitFacts.

Import AsyncQuery Watchers.

Section Facts.

Context {S : Type}.
Variable opts : Options S.
Implicit Types (r : Registry S).

Lemma calls_commit k u' r r' :
  commit opts k u' r = Some r' → calls (trace r') = calls (trace r).
Proof.
  intros H%AsyncQueryFacts.commit_trace. rewrite H.
  by destruct (activeCacheKey opts).
Qed.

Lemma cancelledIds_commit k u' r r' :
  commit opts k u' r = Some r' →
  cancelledIds (trace r') = cancelledIds (trace r).
Proof.
  intros H%AsyncQueryFacts.commit_trace. rewrite H.
  by destruct (activeCacheKey opts).
Qed.

(** What a state change of the unit under [k] leaves of the units. *)
Lemma commit_units k u' r r' :
  commit opts k u' r = Some r' →
  obj_get k (queries r') = Some u'
  ∧ ∀ k', k' ≠ k → obj_get k' (queries r') = obj_get k' (queries r).
Proof.
  intros (Hq & _)%AsyncQueryFacts.commit_frame. rewrite Hq. split.
  - apply obj_get_set_eq.
  - intros k' Hne. by apply obj_get_set_ne.
Qed.

(** A sweep that spares no key empties the registry. *)
Lemma sweep_all_empty ks r r' :
  (∀ k, k ∈ obj_keys (queries r) → k ∈ ks) →
  sweep opts (λ _, false) ks r = Some r' → queries r' = [].
Proof.
  intros Hall (Hq & _)%AsyncQueryFacts.sweep_spec.
  apply obj_empty. intros k.
  rewrite Hq, (obj_get_foldl_delete (λ _, false)). simpl.
  destruct (decide (k ∈ ks)) as [Hin|Hnin].
  - by rewrite bool_decide_eq_true_2.
  - rewrite bool_decide_eq_false_2 by done. simpl.
    apply obj_get_None_keys. intros Hk. by apply Hnin, Hall.
Qed.

End Facts.

End CurrentUnitFacts.

(** X4.  [unmountQueries], as the unmounting of the owner calls it:
    every unit is cancelled, unmounted and deleted and the service is
    not called.  The current key is left as it was, so it names no unit
    any more, and the view keeps the values it had. *)
Theorem unmount_leaves_no_unit {S : Type} (opts : Options S)
    (r r' : Registry S) :
  unmountQueries opts r = Some r' →
  queries r' = []
  ∧ latestQueriesKey r' = latestQueriesKey r
  ∧ (∀ k u, obj_get k (queries r) = Some u →
       Cancelled (Query.uid u) ∈ trace r' ∧ Unmounted (Query.uid u) ∈ trace r')
  ∧ (∀ id n a, Called id n a ∈ trace r' → Called id n a ∈ trace r)
  ∧ latestQuery r' = None
  ∧ view r' = view r.
Proof.
  rewrite AsyncQueryFacts.unmountQueries_sweep. intros Hs.
  pose proof (CurrentUnitFacts.sweep_all_empty opts _ r r' (λ k H, H) Hs)
    as Hnil.
  apply AsyncQueryFacts.sweep_spec in Hs
    as (_ & _ & Hcalled & Hlog & Hk & Hview & _).
  split_and!; try done.
  - intros k u Hget. apply (Hlog k u); [|done..].
    by eapply obj_get_Some_keys.
  - unfold latestQuery. by rewrite Hnil.
Qed.

Lemma unmount_leaves_no_unit_witness :
  ∃ r',
    unmountQueries (Samples.plain true true) (Samples.fresh true) = Some r'
    ∧ queries r' = []
    ∧ Cancelled 0 ∈ trace r'
    ∧ view r' = view (Samples.fresh true).
Proof.
  destruct (unmountQueries (Samples.plain true true) (Samples.fresh true))
    as [r'|] eqn:Hu; [|vm_compute in Hu; discriminate].
  destruct (unmount_leaves_no_unit _ _ _ Hu)
    as (Hq & _ & Hlog & _ & _ & Hv).
  destruct (Hlog QUERY_DEFAULT_KEY (Query.createQuery 0 None) eq_refl)
    as [Hc _].
  exists r'. by split_and!.
Defined.

(** X5.  [cancel] and [mutate] of the registry go to the unit under the
    current key and to no other: every other unit, the current key and
    the view are left as they were, and the service is not called.
    [cancel] records one cancellation, of that unit, and [mutate] none.
    Both raise when the current key names no unit. *)
Theorem cancel_and_mutate_reach_the_current_unit_only {S : Type}
    (opts : Options S) (r : Registry S) :
  (latestQuery r = None →
     AsyncQuery.cancel opts r = None ∧ ∀ res, mutate opts res r = None)
  ∧ (∀ r', AsyncQuery.cancel opts r = Some r' →
       ∃ u, latestQuery r = Some u
         ∧ latestQuery r' = Some (Query.cancelled u)
         ∧ (∀ k, k ≠ latestQueriesKey r →
              obj_get k (queries r') = obj_get k (queries r))
         ∧ calls (trace r') = calls (trace r)
         ∧ cancelledIds (trace r') = Query.uid u :: cancelledIds (trace r)
         ∧ latestQueriesKey r' = latestQueriesKey r
         ∧ view r' = view r)
  ∧ (∀ res r', mutate opts res r = Some r' →
       ∃ u, latestQuery r = Some u
         ∧ latestQuery r' = Some (Query.mutated res u)
         ∧ (∀ k, k ≠ latestQueriesKey r →
              obj_get k (queries r') = obj_get k (queries r))
         ∧ calls (trace r') = calls (trace r)
         ∧ cancelledIds (trace r') = cancelledIds (trace r)
         ∧ latestQueriesKey r' = latestQueriesKey r
         ∧ view r' = view r).
Proof.
  split_and!.
  - intros Hnone. unfold AsyncQuery.cancel, mutate. by rewrite Hnone.
  - intros r'. unfold AsyncQuery.cancel, unit_cancel.
    destruct (latestQuery r) as [u|] eqn:Hu; simpl; [|done].
    unfold latestQuery in Hu. rewrite Hu. simpl.
    destruct (commit opts _ _ r) as [r1|] eqn:Hc; simpl; [|done].
    intros [= <-]. exists u. split; [done|].
    pose proof (CurrentUnitFacts.calls_commit _ _ _ _ _ Hc) as Hcalls.
    pose proof (CurrentUnitFacts.cancelledIds_commit _ _ _ _ _ Hc) as Hids.
    pose proof (CurrentUnitFacts.commit_units _ _ _ _ _ Hc) as [Hget Hrest].
    apply AsyncQueryFacts.commit_frame in Hc as (_ & Hk & Hv & _).
    unfold latestQuery. simpl. rewrite Hk, Hids. by split_and!.
  - intros res r'. unfold mutate, unit_mutate.
    destruct (latestQuery r) as [u|] eqn:Hu; simpl; [|done].
    unfold latestQuery in Hu. rewrite Hu. simpl. intros Hc.
    exists u. split; [done|].
    pose proof (CurrentUnitFacts.calls_commit _ _ _ _ _ Hc) as Hcalls.
    pose proof (CurrentUnitFacts.cancelledIds_commit _ _ _ _ _ Hc) as Hids.
    pose proof (CurrentUnitFacts.commit_units _ _ _ _ _ Hc) as [Hget Hrest].
    apply AsyncQueryFacts.commit_frame in Hc as (_ & Hk & Hv & _).
    unfold latestQuery. rewrite Hk. by split_and!.
Qed.

Lemma cancel_and_mutate_reach_the_current_unit_only_witness :
  ∃ r',
    mutate (Samples.plain true true) (VNum 9) (Samples.fresh true) = Some r'
    ∧ (Query.data ∘ Query.state) <$> latestQuery r' = Some (VNum 9)
    ∧ calls (trace r') = []
    ∧ view r' = view (Samples.fresh true).
Proof.
  destruct (mutate (Samples.plain true true) (VNum 9) (Samples.fresh true))
    as [r'|] eqn:Hm; [|vm_compute in Hm; discriminate].
  destruct (cancel_and_mutate_reach_the_current_unit_only
              (Samples.plain true true) (Samples.fresh true))
    as (_ & _ & Hmut).
  destruct (Hmut (VNum 9) r' Hm) as (u & Hu & Hu' & _ & Hc & _ & _ & Hv).
  exists r'. split; [reflexivity|]. injection Hu as <-.
  rewrite Hu'. by split_and!.
Defined.

(** X6.  [refresh] of the registry, and a change of [refreshDeps]
    unless [manual], run the unit under the current key again with the
    params of its own last run; the current key, the other units and
    the stored arguments are untouched.  They do not pass the readiness
    gate: the service is called whatever [ready] is.  On a unit whose
    params are unset they do nothing, with no unit under the current key
    they raise, and with [manual] a change of [refreshDeps] does
    nothing. *)
Theorem refresh_reruns_the_current_unit {S : Type} (opts : Options S)
    (r : Registry S) :
  (manual opts = true → onRefreshDeps opts r = Some r)
  ∧ (manual opts = false → onRefreshDeps opts r = refresh opts r)
  ∧ (latestQuery r = None → refresh opts r = None)
  ∧ (∀ u, latestQuery r = Some u → Query.params (Query.state u) = None →
       refresh opts r = Some r)
  ∧ (∀ u args,
       latestQuery r = Some u → Query.params (Query.state u) = Some args →
       ∃ r', refresh opts r = Some r'
         ∧ calls (trace r') = args :: calls (trace r)
         ∧ latestQuery r' = Some (Query.started args u)
         ∧ (∀ k, k ≠ latestQueriesKey r →
              obj_get k (queries r') = obj_get k (queries r))
         ∧ latestQueriesKey r' = latestQueriesKey r
         ∧ tempReadyParams r' = tempReadyParams r
         ∧ view r' = view r).
Proof.
  split_and!.
  - intros Hm. unfold onRefreshDeps. by rewrite Hm.
  - intros Hm. unfold onRefreshDeps. by rewrite Hm.
  - intros Hnone. unfold refresh. by rewrite Hnone.
  - intros u Hu Hp. unfold refresh, unit_refresh. rewrite Hu. simpl.
    unfold latestQuery in Hu. rewrite Hu. simpl. by rewrite Hp.
  - intros u args Hu Hp. unfold refresh, unit_refresh. rewrite Hu. simpl.
    unfold latestQuery in Hu. rewrite Hu. simpl. rewrite Hp.
    destruct (AsyncQueryFacts.unit_run_present opts _ u args r Hu)
      as (r1 & Hc & ->). simpl. eexists. split; [done|].
    pose proof (CurrentUnitFacts.calls_commit _ _ _ _ _ Hc) as Hcalls.
    pose proof (CurrentUnitFacts.commit_units _ _ _ _ _ Hc) as [Hget Hrest].
    apply AsyncQueryFacts.commit_frame in Hc as (_ & Hk & Hv & _ & Htmp & _).
    unfold latestQuery. simpl. rewrite Hk, Hcalls. by split_and!.
Qed.

Lemma refresh_reruns_the_current_unit_witness :
  ∃ r',
    onRefreshDeps (Samples.cached false 0)
      (rehydrate (Samples.cached false 0)
         (set_readyValue false
            (blank (Samples.cached false 0) () Samples.stored 5)))
      = Some r'
    ∧ calls (trace r') = [[VNum 1]].
Proof.
  destruct (refresh_reruns_the_current_unit (Samples.cached false 0)
              (rehydrate (Samples.cached false 0)
                 (set_readyValue false
                    (blank (Samples.cached false 0) () Samples.stored 5))))
    as (_ & Hdeps & _ & _ & Hrun).
  destruct (Hrun (Query.createQuery 1
                    (Some {| Query.loading := false; Query.data := VNum 7;
                             Query.error := None;
                             Query.params := Some [VNum 1] |}))
              [VNum 1]) as (r' & Hr & Hc & _); [reflexivity..|].
  exists r'. rewrite (Hdeps eq_refl). split; [exact Hr | exact Hc].
Defined.

Module CacheFacts.

Import AsyncQuery.

Section Facts.

Context {S : Type}.
Variable opts : Options S.
Implicit Types (r : Registry S).

(** The current key after rehydration: the cached one unless it is
    falsy, and the one before when there is no entry. *)
Lemma rehydrate_latest r :
  latestQueriesKey (rehydrate opts r)
  = match activeCacheKey opts ≫= λ ck, store r !! ck with
    | Some c =>
        if key_truthy (Cache.latestQueriesKey (Cache.data c))
        then Cache.latestQueriesKey (Cache.data c)
        else latestQueriesKey r
    | None => latestQueriesKey r
    end.
Proof.
  unfold rehydrate, activeCacheKey, Cache.getCache.
  destruct (cacheKey opts) as [[|a ck]|]; [done| |done]. simpl.
  destruct (store r !! String a ck) as [c|] eqn:Hc; [|done].
  match goal with
  | |- context [foldl ?f r ?ks] =>
      destruct (AsyncQueryFacts.rehydrate_loop
                  (Cache.queries (Cache.data c)) ks r)
        as (_ & _ & _ & _ & _ & _ & Hk & _)
  end.
  by destruct (key_truthy _).
Qed.

End Facts.

End CacheFacts.

(** X7.  What [updateCache] writes for a unit state, the rehydration of
    a registry built over that store reads back: there is a unit under
    the sub-key of the write whose loading, data, error and params are
    those of the written state, that sub-key is the current key unless
    it is the empty string, and the snapshots the entry held under
    other sub-keys before the write are units too. *)
Theorem cache_round_trip {S : Type} (opts : Options S) (ck : string)
    (st : Query.State) (r r' b : Registry S) :
  activeCacheKey opts = Some ck →
  updateCache opts st r = Some r' →
  store b = store r' →
  ∃ kq,
    currentQueryKey opts st r = Some kq
    ∧ (∃ id, obj_get kq (queries (rehydrate opts b))
             = Some (Query.createQuery id (Some st)))
    ∧ latestQueriesKey (rehydrate opts b)
      = (if key_truthy kq then kq else latestQueriesKey b)
    ∧ (∀ c k snap,
         store r !! ck = Some c → k ≠ kq →
         obj_get k (Cache.queries (Cache.data c)) = Some snap →
         ∃ id, obj_get k (queries (rehydrate opts b))
               = Some (Query.createQuery id (Some snap))).
Proof.
  intros Hck Hup Hb.
  rewrite (AsyncQueryFacts.updateCache_active opts ck) in Hup by done.
  destruct (currentQueryKey opts st r) as [kq|]; simpl in Hup; [|done].
  injection Hup as <-. simpl in Hb.
  exists kq. split; [done|].
  destruct (AsyncQueryFacts.rehydrate_spec opts b)
    as (_ & _ & _ & _ & _ & _ & _ & Hunits).
  assert (store b !! ck
          = Some {| Cache.data := writtenData ck kq st r;
                    Cache.cacheTime := now r |}) as Hentry.
  { rewrite Hb. apply lookup_insert_eq. }
  split_and!.
  - apply (Hunits ck _ kq st Hck Hentry). simpl. apply obj_get_set_eq.
  - rewrite CacheFacts.rehydrate_latest, Hck. simpl. by rewrite Hentry.
  - intros c k snap Hc Hne Hget.
    apply (Hunits ck _ k snap Hck Hentry). simpl.
    rewrite obj_get_set_ne by done. by rewrite Hc.
Qed.

Lemma cache_round_trip_witness :
  ∃ r',
    updateCache (Samples.cached true 0)
      {| Query.loading := false; Query.data := VNum 8;
         Query.error := None; Query.params := Some [VNum 2] |}
      (Samples.fresh true) = Some r'
    ∧ (Query.data ∘ Query.state)
        <$> latestQuery
              (rehydrate (Samples.cached true 0)
                 (blank (Samples.cached true 0) () (store r') 9))
      = Some (VNum 8).
Proof.
  destruct (updateCache (Samples.cached true 0)
              {| Query.loading := false; Query.data := VNum 8;
                 Query.error := None; Query.params := Some [VNum 2] |}
              (Samples.fresh true)) as [r'|] eqn:Hup;
    [|vm_compute in Hup; discriminate].
  destruct (cache_round_trip (Samples.cached true 0) "k" _ _ r'
              (blank (Samples.cached true 0) () (store r') 9)
              eq_refl Hup eq_refl)
    as (kq & Hkq & (id & Hunit) & Hlatest & _).
  injection Hkq as <-.
  exists r'. split; [reflexivity|].
  unfold latestQuery. rewrite Hlatest. simpl. by rewrite Hunit.
Defined.

(** X8.  A [manual] hook runs nothing when it is built, whatever the
    cache holds and however old it is: no effect is recorded and the
    store is as it was.  When the entry under the cache key names a
    current sub-key that is not the empty string and holds a snapshot
    under it, the first flush of the state watcher shows that snapshot
    in the view. *)
Theorem manual_construction_shows_the_cache {S : Type} (opts : Options S)
    (e : S) (st : gmap string Cache.Entry) (time : Z) :
  manual opts = true →
  ∃ r,
    useAsyncQuery opts e st time = Some r
    ∧ trace r = []
    ∧ store r = st
    ∧ (∀ ck c snap,
         activeCacheKey opts = Some ck → st !! ck = Some c →
         key_truthy (Cache.latestQueriesKey (Cache.data c)) = true →
         obj_get (Cache.latestQueriesKey (Cache.data c))
           (Cache.queries (Cache.data c)) = Some snap →
         view (syncState r) = viewOf snap).
Proof.
  intros Hm. unfold useAsyncQuery, initialRun. rewrite Hm. simpl.
  eexists. split; [done|].
  destruct (AsyncQueryFacts.rehydrate_spec opts (blank opts e st time))
    as (Hs & Ht & _ & _ & _ & _ & _ & Hunits).
  split_and!; [done..|].
  intros ck c snap Hck Hc Htruthy Hget.
  destruct (Hunits ck c _ snap Hck Hc Hget) as (id & Hunit).
  unfold syncState, mirror, latestQuery. simpl.
  rewrite CacheFacts.rehydrate_latest, Hck. simpl. rewrite Hc, Htruthy.
  by rewrite Hunit.
Qed.

Lemma manual_construction_shows_the_cache_witness :
  ∃ r,
    useAsyncQuery (Samples.cached true 0) () Samples.stored 100 = Some r
    ∧ calls (trace r) = []
    ∧ data (view (syncState r)) = VNum 7.
Proof.
  destruct (manual_construction_shows_the_cache (Samples.cached true 0) ()
              Samples.stored 100 eq_refl) as (r & Hr & Ht & _ & Hview).
  exists r. split; [exact Hr|]. rewrite Ht. split; [reflexivity|].
  by rewrite (Hview "k" _ _ eq_refl eq_refl eq_refl eq_refl).
Defined.

Module LayerFacts.

Import AsyncQuery LoadMore Pages.

Section Registry.

Context {S : Type}.
Variable opts : Options S.
Implicit Types (r : Registry S).

(** The caller state after a settlement: the callback has run when the
    attempt was the latest one. *)
Lemma resolve_env id n res r r' :
  resolve opts id n res r = Some r' →
  env r' = if latestAttempt id n r then onSuccess opts (env r) else env r.
Proof.
  unfold resolve, latestAttempt.
  destruct (find_unit id (queries r)) as [[k u]|]; [|by intros [= <-]].
  destruct (bool_decide (n = Query.count u)); [|by intros [= <-]].
  destruct (commit _ _ _ r) as [r1|] eqn:Hc; simpl; [|done].
  intros [= <-]. simpl.
  by apply AsyncQueryFacts.commit_shell in Hc as (_ & _ & -> & _).
Qed.

Lemma reject_env id n err r r' :
  reject opts id n err r = Some r' →
  env r' = if latestAttempt id n r then onError opts (env r) else env r.
Proof.
  unfold reject, latestAttempt.
  destruct (find_unit id (queries r)) as [[k u]|]; [|by intros [= <-]].
  destruct (bool_decide (n = Query.count u)); [|by intros [= <-]].
  destruct (commit _ _ _ r) as [r1|] eqn:Hc; simpl; [|done].
  intros [= <-]. simpl.
  by apply AsyncQueryFacts.commit_shell in Hc as (_ & _ & -> & _).
Qed.

(** The constructor leaves the caller state alone. *)
Lemma useAsyncQuery_env (e : S) st time r :
  useAsyncQuery opts e st time = Some r → env r = e.
Proof.
  unfold useAsyncQuery.
  destruct (AsyncQueryFacts.rehydrate_spec opts (blank opts e st time))
    as (_ & _ & _ & He & _).
  set (r0 := rehydrate opts _) in *. simpl in He.
  destruct (initialRun opts r0) as [r1|] eqn:Hi; simpl; [|done].
  intros [= <-]. simpl. rewrite <- He. revert Hi. unfold initialRun.
  destruct (AsyncQuery.manual opts); [by intros [= <-]|].
  destruct (isFresh opts r0); [by intros [= <-]|].
  destruct (hasCacheQueries opts r0).
  - unfold refreshAll. intros H.
    eapply (AsyncQueryFacts.forEach_inv (λ x, env x = env r0));
      [|exact H|done].
    intros k ra rb Hk <-. simpl in Hk.
    destruct (obj_get k (queries ra)) as [u|] eqn:Hget.
    + by apply (AsyncQueryFacts.unit_refresh_spec _ _ _ _ _ Hget) in Hk
        as (_ & _ & _ & _ & _ & _ & ? & _).
    + by injection Hk as <-.
  - destruct (run opts _ r0) as [[rb p]|] eqn:Hr0; simpl; [|done].
    intros [= <-]. by apply AsyncQueryFacts.run_view_env in Hr0 as [_ ?].
Qed.

(** A sweep calls the service for nothing. *)
Lemma sweep_calls keep ks r r' :
  sweep opts keep ks r = Some r' → calls (trace r') = calls (trace r).
Proof.
  unfold sweep. intros H.
  eapply (AsyncQueryFacts.forEach_inv
            (λ x, calls (trace x) = calls (trace r))); [|exact H|done].
  intros k ra rb Hk <-. simpl in Hk.
  destruct (keep k); [by injection Hk as <-|].
  destruct (obj_get k (queries ra)) as [u|] eqn:Hget.
  - pose proof (AsyncQueryFacts.discard_spec _ _ _ _ _ Hget Hk)
      as (_ & Ht & _).
    rewrite Ht. by destruct (activeCacheKey opts).
  - by rewrite AsyncQueryFacts.discard_absent in Hk.
Qed.

(** What [reset] leaves. *)
Lemma reset_result r r' :
  reset opts r = Some r' →
  queries r' = [(QUERY_DEFAULT_KEY, Query.createQuery (nextId r) None)]
  ∧ latestQueriesKey r' = QUERY_DEFAULT_KEY
  ∧ nextId r' = Datatypes.S (nextId r)
  ∧ view r' = view r ∧ env r' = env r ∧ same_gate r r'
  ∧ calls (trace r') = calls (trace r)
  ∧ (∀ k u, obj_get k (queries r) = Some u →
       Cancelled (Query.uid u) ∈ trace r' ∧ Unmounted (Query.uid u) ∈ trace r').
Proof.
  unfold reset. rewrite AsyncQueryFacts.unmountQueries_sweep.
  destruct (sweep opts _ _ r) as [r1|] eqn:Hs; simpl; [|done].
  pose proof (CurrentUnitFacts.sweep_all_empty opts _ r r1 (λ k H, H) Hs)
    as Hnil.
  pose proof (sweep_calls _ _ _ _ Hs) as Hcalls.
  apply AsyncQueryFacts.sweep_spec in Hs
    as (_ & _ & _ & Hlog & _ & Hv & He & Hg & Hn & _).
  intros [= <-]. simpl. rewrite Hnil, Hn. split_and!; try done.
  intros k u Hget. apply (Hlog k u); [|done..].
  by eapply obj_get_Some_keys.
Qed.

End Registry.

Section Layer.

Variable options : LoadMoreOptions.
Implicit Types (r : Registry Layer).

(** The counter and the flags after each event. *)
Lemma step_layer ev r r' :
  LoadMore.step options ev r = Some r' →
  increaseQueryKey (env r') = counterAfter ev r
  ∧ flags r' = flagsAfter options ev r.
Proof.
  unfold flags. destruct ev; simpl.
  - destruct (run _ args r) as [[r1 p]|] eqn:Hr; simpl; [|done].
    intros [= <-]. by apply AsyncQueryFacts.run_view_env in Hr as [_ ->].
  - intros ->%resolve_env. by destruct (latestAttempt id n r).
  - intros ->%reject_env. by destruct (latestAttempt id n r).
  - unfold loadMore. destruct (noMore options r); [by intros [= <-]|].
    destruct (restParams _) as [rest|]; simpl; [|done].
    destruct (run _ _ _) as [[r1 p]|] eqn:Hr; simpl; [|done].
    intros [= <-]. by apply AsyncQueryFacts.run_view_env in Hr as [_ ->].
  - unfold refresh_begin.
    destruct (obj_get _ _) as [u|]; simpl; [|done].
    destruct (restParams _) as [rest|]; simpl; [|done].
    destruct (run _ _ _) as [[r1 p]|] eqn:Hr; simpl; [|done].
    intros [= <-]. by apply AsyncQueryFacts.run_view_env in Hr as [_ ->].
  - unfold refresh_end. rewrite LoadMoreFacts.layer_unmountQueries_sweep.
    destruct (sweep _ _ _ r) as [r1|] eqn:Hs; simpl; [|done].
    intros [= <-]. simpl.
    by apply AsyncQueryFacts.sweep_spec in Hs as (_&_&_&_&_&_&->&_).
  - unfold reload_begin.
    destruct (reset _ _) as [r2|] eqn:Hreset; simpl; [|done].
    apply AsyncQueryFacts.reset_env in Hreset.
    destruct (restParams _) as [rest|]; simpl; [|done].
    destruct (run _ _ _) as [[r1 p]|] eqn:Hr; simpl; [|done].
    intros [= <-]. apply AsyncQueryFacts.run_view_env in Hr as [_ ->].
    simpl. by rewrite Hreset.
  - by intros [= <-].
  - by intros ->%AsyncQueryFacts.reset_env.
  - unfold LoadMore.cancel.
    destruct (AsyncQuery.cancel _ r) as [r1|] eqn:Hc; simpl; [|done].
    intros [= <-]. simpl.
    by apply AsyncQueryFacts.cancel_shell in Hc as (_ & _ & -> & _).
  - by intros ->%AsyncQueryFacts.setReady_env.
  - intros [= <-]. unfold flush. by destruct (_ && _).
Qed.

Lemma counterAfter_nonneg ev r :
  0 ≤ increaseQueryKey (env r) → 0 ≤ counterAfter ev r.
Proof.
  unfold counterAfter, initailIncreaseQueryKey.
  destruct ev; try done. destruct (latestAttempt id n r); lia.
Qed.

Lemma exec_counter evs r r' :
  LoadMore.exec options evs r = Some r' →
  0 ≤ increaseQueryKey (env r) → 0 ≤ increaseQueryKey (env r').
Proof.
  revert r. induction evs as [|ev evs IH]; simpl; intros r.
  - by intros [= <-].
  - destruct (LoadMore.step options ev r) as [r1|] eqn:Hstep; simpl; [|done].
    intros Hex Hc. apply (IH r1 Hex).
    apply step_layer in Hstep as [-> _]. by apply counterAfter_nonneg.
Qed.

Lemma useLoadMore_env st time r :
  useLoadMore options st time = Some r →
  increaseQueryKey (env r) = initailIncreaseQueryKey
  ∧ flags r = (false, false, false).
Proof.
  unfold useLoadMore, flags.
  destruct (useAsyncQuery _ _ st time) as [r0|] eqn:H0; simpl; [|done].
  apply useAsyncQuery_env in H0.
  intros [= <-]. destruct (defined _); simpl; by rewrite H0.
Qed.

End Layer.

End LayerFacts.

Import LoadMore Pages.

(** X9.  The page counter is moved by three events only: the
    settlement that resolves a unit's latest attempt adds one, and the
    start of [refresh] and of [reload] set it to the initial key.  It
    starts at the initial key, so in every state the events reach from
    the constructor it is not negative and the key of the next run is
    the index key of that number. *)
Theorem page_counter_never_negative (options : LoadMoreOptions) :
  (∀ ev (r r' : Registry Layer),
     LoadMore.step options ev r = Some r' →
     increaseQueryKey (env r') = counterAfter ev r)
  ∧ (∀ st time evs (r0 r : Registry Layer),
       useLoadMore options st time = Some r0 →
       LoadMore.exec options evs r0 = Some r →
       0 ≤ increaseQueryKey (env r)
       ∧ ∀ args, keyFor (registryOptions options) (env r) args
                 = KIdx (Z.to_N (increaseQueryKey (env r)))).
Proof.
  split.
  - intros ev r r' Hstep. by apply LayerFacts.step_layer in Hstep as [? _].
  - intros st time evs r0 r H0 Hex.
    assert (0 ≤ increaseQueryKey (env r)) as Hc.
    { apply (LayerFacts.exec_counter options evs r0 r Hex).
      apply LayerFacts.useLoadMore_env in H0 as [-> _]. done. }
    split; [done|]. intros args. unfold keyFor. simpl.
    unfold key_of_Z. by rewrite bool_decide_eq_true_2.
Qed.

Lemma page_counter_never_negative_witness :
  increaseQueryKey (env Samples.twoPages) = 2
  ∧ keyFor (registryOptions Samples.pager) (env Samples.twoPages) []
    = KIdx 2.
Proof.
  destruct (page_counter_never_negative Samples.pager) as [_ Hreach].
  destruct (Hreach ∅ 0 (Samples.firstPage ++ Samples.secondPage)
              Samples.built Samples.twoPages pager_built twoPages_reached)
    as [_ Hkey].
  split; [reflexivity|]. rewrite Hkey. reflexivity.
Defined.

(** X10.  The three flags after each event.  [loadingMore] is raised
    by a [loadMore] that [noMore] does not stop, and lowered by the
    settlement of a unit's latest attempt, resolved or rejected, and by
    [cancel]; [refreshing] is raised by the start of [refresh] and
    lowered by its end and by [cancel]; [reloading] is raised by the
    start of [reload] and lowered by its end only, not by [cancel].
    [run], [reset], an assignment to [ready], a stale settlement and the
    flush leave all three as they were, and the constructor leaves them
    all false. *)
Theorem flags_after_each_event (options : LoadMoreOptions) :
  (∀ ev (r r' : Registry Layer),
     LoadMore.step options ev r = Some r' →
     flags r' = flagsAfter options ev r)
  ∧ (∀ st time (r : Registry Layer),
       useLoadMore options st time = Some r →
       flags r = (false, false, false)).
Proof.
  split.
  - intros ev r r' Hstep. by apply LayerFacts.step_layer in Hstep as [_ ?].
  - intros st time r H0. by apply LayerFacts.useLoadMore_env in H0 as [_ ?].
Qed.

Lemma flags_after_each_event_witness :
  flags Samples.refreshing = (false, true, false).
Proof.
  destruct (flags_after_each_event Samples.pager) as [Hstep _].
  rewrite (Hstep RefreshBegin Samples.threePages Samples.refreshing);
    [reflexivity|].
  cbn [LoadMore.step]. by rewrite refreshing_reached.
Defined.

(** X11.  When the three calls of the layer that read the params of
    the view raise.  [loadMore] raises exactly when [noMore] does not
    stop it and the view has no params; [refresh] exactly when there is
    no unit under the key it reads the latest data from, or the view has
    no params; [reload] exactly when the [reset] it starts with raises
    or the view has no params.  The run they end with never raises. *)
Theorem layer_calls_raise_exactly_when (options : LoadMoreOptions)
    (r : Registry Layer) :
  (loadMore options r = None
   ↔ noMore options r = false ∧ AsyncQuery.params (view r) = None)
  ∧ (refresh_begin options r = None
     ↔ obj_get (refreshKey r) (queries r) = None
       ∨ AsyncQuery.params (view r) = None)
  ∧ (reload_begin options r = None
     ↔ reset (registryOptions options) (update (set_reloading true) r)
       = None
       ∨ AsyncQuery.params (view r) = None).
Proof.
  split_and!.
  - unfold loadMore, restParams.
    destruct (noMore options r); [naive_solver|]. simpl.
    destruct (AsyncQuery.params (view r)) as [ps|]; simpl; [|naive_solver].
    match goal with |- context [run _ ?a ?x] =>
      destruct (LoadMoreFacts.run_returns options a x)
        as (r' & p & -> & _) end.
    naive_solver.
  - unfold refresh_begin, refreshKey, restParams. simpl.
    rewrite LoadMoreFacts.refresh_source. unfold initailIncreaseQueryKey.
    destruct (obj_get _ (queries r)) as [u|]; simpl; [|naive_solver].
    destruct (AsyncQuery.params (view r)) as [ps|]; simpl; [|naive_solver].
    match goal with |- context [run _ ?a ?x] =>
      destruct (LoadMoreFacts.run_returns options a x)
        as (r' & p & -> & _) end.
    naive_solver.
  - unfold reload_begin, restParams.
    destruct (reset _ _) as [r2|] eqn:Hreset; simpl; [|naive_solver].
    apply LayerFacts.reset_result in Hreset
      as (_ & _ & _ & Hv & _). simpl in Hv. rewrite Hv.
    destruct (AsyncQuery.params (view r)) as [ps|]; simpl; [|naive_solver].
    match goal with |- context [run _ ?a ?x] =>
      destruct (LoadMoreFacts.run_returns options a x)
        as (r' & p & -> & _) end.
    naive_solver.
Qed.

(** X12.  [reload] behind an open gate, up to its [await]: every unit
    that was registered is cancelled and unmounted, and the registry
    holds two units, both created by this call: the one [reset] puts
    under the default key, which never runs, and the one under the
    initial key, on its first attempt with [undefined] followed by the
    params of the view without their first.  That is the one call of
    the service.  The counter is at the initial key, [latestData] is
    unset and [reloading] is raised; the view is as it was. *)
Theorem reload_starts_over (options : LoadMoreOptions)
    (r r' : Registry Layer) (p : Promise) (ps : list value) :
  Watchers.gateOpen r →
  AsyncQuery.params (view r) = Some ps →
  reload_begin options r = Some (r', p) →
  queries r'
  = [(key_of_Z initailIncreaseQueryKey,
      Query.started (VUndef :: tail ps)
        (Query.createQuery (Datatypes.S (nextId r)) None));
     (QUERY_DEFAULT_KEY, Query.createQuery (nextId r) None)]
  ∧ latestQueriesKey r' = key_of_Z initailIncreaseQueryKey
  ∧ calls (trace r') = (VUndef :: tail ps) :: calls (trace r)
  ∧ p = attemptPromise (Datatypes.S (nextId r)) 1
  ∧ (∀ k u, obj_get k (queries r) = Some u →
       Cancelled (Query.uid u) ∈ trace r' ∧ Unmounted (Query.uid u) ∈ trace r')
  ∧ env r'
    = set_latestData VUndef
        (set_increaseQueryKey initailIncreaseQueryKey
           (set_reloading true (env r)))
  ∧ view r' = view r.
Proof.
  intros Hopen Hps. unfold reload_begin, restParams.
  destruct (reset _ _) as [r2|] eqn:Hreset; simpl; [|done].
  apply LayerFacts.reset_result in Hreset
    as (Hq & Hk & Hn & Hv & He & (_ & Hh & Hr & _) & Hcalls & Hlog).
  simpl in Hv, He, Hh, Hr, Hcalls, Hlog. rewrite Hv, Hps. simpl.
  match goal with |- context [run _ ?a ?x] =>
    destruct (AsyncQueryFacts.run_open (registryOptions options) a x)
      as (r3 & Hc & Hrun)
  end.
  { simpl. rewrite Hh, Hr. exact Hopen. }
  { apply key_of_Z_own. }
  rewrite Hrun. clear Hrun. intros [= <- <-].
  simpl in Hc. rewrite Hq in Hc. simpl in Hc.
  pose proof (AsyncQueryFacts.commit_trace _ _ _ _ _ Hc) as Htr.
  apply AsyncQueryFacts.commit_frame in Hc
    as (Hq3 & Hk3 & Hv3 & He3 & _).
  simpl in Hq3, Hk3, Hv3, He3, Htr. rewrite Hq in Hq3. simpl in Hq3.
  simpl. rewrite Hq, Hq3, Hk3, Hv3, He3, Hn, Htr, He. simpl.
  split_and!; try done.
  - destruct (activeCacheKey _); simpl; by rewrite Hcalls.
  - intros k u Hget. destruct (Hlog k u Hget) as [H1 H2].
    destruct (activeCacheKey _); rewrite !elem_of_cons; auto.
Qed.

Lemma reload_starts_over_witness :
  ∃ r' p,
    reload_begin Samples.pager Samples.threePages = Some (r', p)
    ∧ obj_keys (queries r') = [KIdx 0; QUERY_DEFAULT_KEY]
    ∧ calls (trace r')
      = [VUndef] :: calls (trace Samples.threePages).
Proof.
  destruct (reload_begin Samples.pager Samples.threePages)
    as [[r' p]|] eqn:Hre; [|vm_compute in Hre; discriminate].
  destruct (reload_starts_over Samples.pager Samples.threePages r' p
              [VObj [("dataList", VArr (VNum <$> [1; 2; 3; 4]));
                     ("data", Samples.page [3; 4])]])
    as (Hq & _ & Hc & _); [by left | reflexivity | exact Hre |].
  exists r', p. split; [reflexivity|]. rewrite Hq, Hc. by split.
Defined.

(** X13.  The layer built without [manual], without a cache key and
    with [ready] true has called the service once, with the default
    params, for a unit it created under the initial key; that key is
    the current one.  The unit the registry creates under the default
    key is still there and has not run.  The view shows that default
    unit until the first flush, and [latestData] is unset. *)
Theorem first_page_under_the_initial_key (options : LoadMoreOptions)
    (st : gmap string Cache.Entry) (time : Z) :
  LoadMore.manual options = false →
  LoadMore.cacheKey options = None →
  LoadMore.ready options = true →
  ∃ r,
    useLoadMore options st time = Some r
    ∧ queries r
      = [(key_of_Z initailIncreaseQueryKey,
          Query.started (LoadMore.defaultParams options)
            (Query.createQuery 1 None));
         (QUERY_DEFAULT_KEY, Query.createQuery 0 None)]
    ∧ latestQueriesKey r = key_of_Z initailIncreaseQueryKey
    ∧ trace r = [Called 1 1 (LoadMore.defaultParams options)]
    ∧ view r = Watchers.viewOf Query.initialState
    ∧ env r = initialLayer
    ∧ store r = st.
Proof.
  destruct options as [nm lk ck dp m rdy ct stl]. simpl.
  intros -> -> ->. eexists. split; [reflexivity|]. by split_and!.
Qed.

Lemma first_page_under_the_initial_key_witness :
  ∃ r,
    useLoadMore Samples.pager ∅ 0 = Some r
    ∧ obj_keys (queries r) = [KIdx 0; QUERY_DEFAULT_KEY]
    ∧ calls (trace r) = [[]].
Proof.
  destruct (first_page_under_the_initial_key Samples.pager ∅ 0
              eq_refl eq_refl eq_refl) as (r & Hr & Hq & _ & Ht & _).
  exists r. split; [exact Hr|]. rewrite Hq, Ht. by split.
Defined.

Module CurrentFacts.

Import AsyncQuery Watchers.

Section Facts.

Context {S : Type}.
Variable opts : Options S.
Implicit Types (r : Registry S).

Lemma commit_current k u' r r' :
  commit opts k u' r = Some r' → hasCurrent r → hasCurrent r'.
Proof.
  intros Hc. pose proof (CurrentUnitFacts.commit_units _ _ _ _ _ Hc)
    as [Hget Hrest].
  apply AsyncQueryFacts.commit_frame in Hc as (_ & Hk & _).
  unfold hasCurrent, latestQuery. rewrite Hk.
  destruct (decide (latestQueriesKey r = k)) as [->|Hne];
    [by rewrite Hget|].
  by rewrite Hrest.
Qed.

Lemma commit_sound k u' r r' :
  commit opts k u' r = Some r' →
  is_Some (Query.params (Query.state u')) → sound r → sound r'.
Proof.
  intros Hc Hu (Hwf & Hall & Hcur). split_and!.
  - by apply (AsyncQueryFacts.commit_wf _ _ _ _ _ Hwf Hc).
  - by apply (ParamsFacts.commit_params _ _ _ _ _ Hc).
  - by apply (commit_current _ _ _ _ Hc).
Qed.

Lemma commit_returns k u' r :
  is_Some (Query.params (Query.state u')) → is_Some (commit opts k u' r).
Proof. intros Hu. apply AsyncQueryFacts.commit_total. by left. Qed.

Lemma sound_frame r r' :
  queries r' = queries r → latestQueriesKey r' = latestQueriesKey r →
  sound r → sound r'.
Proof.
  unfold sound, allParams, hasCurrent, latestQuery. by intros -> ->.
Qed.

(** [run] *)
Lemma run_sound args r r' p :
  run opts args r = Some (r', p) → sound r → sound r'.
Proof.
  intros Hrun (Hwf & Hall & Hcur). split_and!.
  - by apply (AsyncQueryFacts.run_wf _ _ _ _ _ Hwf Hrun).
  - by apply (ParamsFacts.run_params _ _ _ _ _ Hrun).
  - revert Hrun. unfold run.
    destruct (negb (readyValue r) && negb (hasTriggerReady r));
      [by intros [= <- _]|].
    unfold unit_run. simpl.
    match goal with |- context [obj_get ?k (queries ?x)] =>
      destruct (obj_get k (queries x)) as [u|]; simpl; [|done] end.
    match goal with |- context [commit opts ?k ?u ?x] =>
      destruct (commit opts k u x) as [r1|] eqn:Hc; simpl; [|done] end.
    intros [= <- _].
    pose proof (CurrentUnitFacts.commit_units _ _ _ _ _ Hc) as [Hget _].
    apply AsyncQueryFacts.commit_frame in Hc as (_ & Hk & _).
    unfold hasCurrent, latestQuery. simpl. rewrite Hk. simpl.
    by rewrite Hget.
Qed.

Lemma run_own_returns args r :
  ownKeys opts → is_Some (run opts args r).
Proof.
  intros Hown.
  destruct (negb (readyValue r) && negb (hasTriggerReady r)) eqn:Hgate.
  - unfold run. rewrite Hgate. by eexists.
  - destruct (AsyncQueryFacts.run_open opts args r) as (r1 & _ & ->).
    + destruct (readyValue r), (hasTriggerReady r); auto; done.
    + apply Hown.
    + by eexists.
Qed.

(** Settlements *)
Lemma settle_sound id n r r' :
  (∃ res, resolve opts id n res r = Some r')
  ∨ (∃ err, reject opts id n err r = Some r') →
  sound r → sound r'.
Proof.
  intros Hor (Hwf & Hall & Hcur). split_and!.
  - by apply (AsyncQueryFacts.settle_wf _ _ _ _ _ Hwf Hor).
  - by apply (ParamsFacts.settle_params _ _ _ _ _ Hor).
  - revert Hor. unfold resolve, reject. intros Hor.
    destruct (find_unit id (queries r)) as [[k u]|];
      [|by destruct Hor as [[x [= <-]]|[x [= <-]]]].
    destruct (bool_decide (n = Query.count u));
      [|by destruct Hor as [[x [= <-]]|[x [= <-]]]].
    destruct Hor as [[x H]|[x H]];
      (match type of H with context [commit opts ?k ?u ?x] =>
         destruct (commit opts k u x) as [r1|] eqn:Hc; simpl in H; [|done]
       end);
      injection H as <-; unfold hasCurrent, latestQuery; simpl;
      by apply (commit_current _ _ _ _ Hc).
Qed.

Lemma settle_returns id n r :
  allParams r →
  (∀ res, is_Some (resolve opts id n res r))
  ∧ (∀ err, is_Some (reject opts id n err r)).
Proof.
  intros Hall. unfold resolve, reject.
  destruct (find_unit id (queries r)) as [[k u]|] eqn:Hf;
    [|by split; intros; eexists].
  pose proof (ParamsFacts.find_unit_params _ _ _ _ Hall Hf) as Hu.
  destruct (bool_decide (n = Query.count u)); [|by split; intros; eexists].
  split; intros x.
  - destruct (commit_returns k (Query.succeeded x u) r Hu) as [r1 ->].
    by eexists.
  - destruct (commit_returns k (Query.failed x u) r Hu) as [r1 ->].
    by eexists.
Qed.

(** The calls that go to [latestQuery] *)
Lemma current_sound r r' :
  AsyncQuery.cancel opts r = Some r' ∨ refresh opts r = Some r'
  ∨ (∃ res, mutate opts res r = Some r') →
  sound r → sound r'.
Proof.
  intros Hor Hs. pose proof Hs as (Hwf & Hall & [u Hu]).
  unfold latestQuery in Hu.
  pose proof (ParamsFacts.allParams_get _ _ _ Hall Hu) as Hp.
  destruct Hor as [H|[H|[res H]]]; revert H.
  - unfold AsyncQuery.cancel, unit_cancel, latestQuery. rewrite Hu. simpl.
    destruct (commit opts _ _ r) as [r1|] eqn:Hc; simpl; [|done].
    intros [= <-]. apply (sound_frame r1); [done..|].
    by apply (commit_sound _ _ _ _ Hc).
  - unfold refresh, unit_refresh, latestQuery. rewrite Hu. simpl.
    destruct Hp as [args ->].
    destruct (unit_run opts _ args r) as [[r1 p]|] eqn:Hrun; simpl; [|done].
    intros [= <-]. revert Hrun. unfold unit_run. rewrite Hu. simpl.
    destruct (commit opts _ _ r) as [r2|] eqn:Hc; simpl; [|done].
    intros [= <- _]. apply (sound_frame r2); [done..|].
    apply (commit_sound _ _ _ _ Hc); [by eexists | done].
  - unfold mutate, unit_mutate, latestQuery. rewrite Hu. simpl.
    intros Hc. by apply (commit_sound _ _ _ _ Hc).
Qed.

Lemma current_returns r :
  sound r →
  is_Some (AsyncQuery.cancel opts r) ∧ is_Some (refresh opts r)
  ∧ ∀ res, is_Some (mutate opts res r).
Proof.
  intros (Hwf & Hall & [u Hu]). unfold latestQuery in Hu.
  pose proof (ParamsFacts.allParams_get _ _ _ Hall Hu) as Hp.
  split_and!.
  - unfold AsyncQuery.cancel, unit_cancel, latestQuery. rewrite Hu. simpl.
    destruct (commit_returns (latestQueriesKey r) (Query.cancelled u) r Hp)
      as [r1 ->]. by eexists.
  - unfold refresh, unit_refresh, latestQuery. rewrite Hu. simpl.
    destruct Hp as [args Hargs]. rewrite Hargs.
    destruct (AsyncQueryFacts.unit_run_present opts _ u args r Hu)
      as (r1 & _ & ->). by eexists.
  - intros res. unfold mutate, unit_mutate, latestQuery. rewrite Hu. simpl.
    by apply commit_returns.
Qed.

(** [reset] *)
Lemma reset_sound r r' : reset opts r = Some r' → sound r → sound r'.
Proof.
  intros Hreset (Hwf & Hall & _). split_and!.
  - by apply (AsyncQueryFacts.reset_wf _ _ _ Hwf Hreset).
  - by apply (ParamsFacts.reset_params _ _ _ Hreset).
  - apply LayerFacts.reset_result in Hreset as (Hq & Hk & _).
    unfold hasCurrent, latestQuery. by rewrite Hq, Hk.
Qed.

Lemma reset_returns r : sound r → is_Some (reset opts r).
Proof.
  intros (Hwf & Hall & _). unfold reset.
  destruct (AsyncQueryFacts.sweep_total opts (λ _, false)
              (obj_keys (queries r)) r) as [r1 Hr1].
  - by apply obj_wf_NoDup.
  - intros k Hin _.
    destruct (obj_get k (queries r)) as [u|] eqn:Hget.
    + exists u. split; [done|]. left.
      by apply (ParamsFacts.allParams_get k u r).
    + by apply obj_get_None_keys in Hget.
  - rewrite AsyncQueryFacts.unmountQueries_sweep, Hr1. by eexists.
Qed.

(** An assignment to [ready] *)
Lemma setReady_sound val r r' :
  setReady opts val r = Some r' → sound r → sound r'.
Proof.
  unfold setReady. case_bool_decide; [by intros [= <-]|]. simpl.
  destruct (stopReady r); [|by intros [= <-]].
  destruct val, (tempReadyParams r) as [args|]; try by intros [= <-].
  destruct (run opts args _) as [[r3 p]|] eqn:Hrun; simpl; [|done].
  intros [= <-] Hs. apply (sound_frame r3); [done..|].
  by apply (run_sound _ _ _ _ Hrun).
Qed.

Lemma setReady_returns val r : ownKeys opts → is_Some (setReady opts val r).
Proof.
  intros Hown. unfold setReady. case_bool_decide; [by eexists|]. simpl.
  destruct (stopReady r); [|by eexists].
  destruct val, (tempReadyParams r) as [args|]; try by eexists.
  destruct (run_own_returns args
              (set_hasTriggerReady true (set_readyValue true r)) Hown)
    as [[r3 p] ->]. by eexists.
Qed.

(** Every event keeps the invariant and returns. *)
Lemma step_sound ev r r' :
  step opts ev r = Some r' → sound r → sound r'.
Proof.
  destruct ev; simpl.
  - destruct (run opts args r) as [[r1 p]|] eqn:Hr; simpl; [|done].
    intros [= <-]. by apply (run_sound _ _ _ _ Hr).
  - intros H. eapply settle_sound. left. by eexists.
  - intros H. eapply settle_sound. right. by eexists.
  - intros H. apply current_sound. by left.
  - intros H. apply current_sound. right. by left.
  - intros H. apply current_sound. right. right. by eexists.
  - apply reset_sound.
  - apply setReady_sound.
  - intros [= <-]. by apply sound_frame.
  - intros [= <-]. by apply sound_frame.
Qed.

Lemma step_returns ev r :
  ownKeys opts → sound r → is_Some (step opts ev r).
Proof.
  intros Hown Hs. pose proof Hs as (_ & Hall & _).
  destruct ev; simpl.
  - destruct (run_own_returns args r Hown) as [[r1 p] ->]. by eexists.
  - by apply settle_returns.
  - by apply settle_returns.
  - by apply current_returns.
  - by apply current_returns.
  - by apply current_returns.
  - by apply reset_returns.
  - by apply setReady_returns.
  - by eexists.
  - by eexists.
Qed.

Lemma exec_sound evs r :
  ownKeys opts → sound r →
  ∃ r', exec opts evs r = Some r' ∧ sound r'.
Proof.
  intros Hown. revert r. induction evs as [|ev evs IH]; simpl; intros r Hs.
  - by exists r.
  - destruct (step_returns ev r Hown Hs) as [r1 Hstep]. rewrite Hstep.
    simpl. apply IH. by apply (step_sound ev r r1).
Qed.

Lemma obj_keys_get {A} k (o : obj A) :
  k ∈ obj_keys o → is_Some (obj_get k o).
Proof.
  intros Hin. destruct (obj_get k o) eqn:Hget; [done|].
  by apply obj_get_None_keys in Hget.
Qed.

Lemma rehydrate_current r :
  coherentCache opts (store r) → hasCurrent r →
  hasCurrent (rehydrate opts r).
Proof.
  intros Hco Hcur. unfold hasCurrent, latestQuery.
  rewrite CacheFacts.rehydrate_latest.
  unfold coherentCache in Hco. revert Hco.
  unfold rehydrate, activeCacheKey, Cache.getCache.
  destruct (cacheKey opts) as [[|a ck]|]; [done| |done]. simpl.
  intros Hco. specialize (Hco (String a ck)).
  destruct (store r !! String a ck) as [c|] eqn:Hc; [|done].
  specialize (Hco c eq_refl eq_refl).
  match goal with
  | |- context [foldl ?f r ?ks] =>
      destruct (AsyncQueryFacts.rehydrate_loop
                  (Cache.queries (Cache.data c)) ks r)
        as (_ & _ & _ & _ & _ & _ & Hk & _ & Hout & Hin)
  end.
  assert (∀ k, is_Some (obj_get k (queries r)) ∨
               is_Some (obj_get k (Cache.queries (Cache.data c))) →
               is_Some (obj_get k
                 (queries (foldl
                   (λ r0 k0,
                      match obj_get k0 (Cache.queries (Cache.data c)) with
                      | Some cacheQuery =>
                          register k0
                            (Some {| Query.loading := Query.loading cacheQuery;
                                     Query.params := Query.params cacheQuery;
                                     Query.data := Query.data cacheQuery;
                                     Query.error := Query.error cacheQuery |})
                            r0
                      | None => r0
                      end) r (obj_keys (Cache.queries (Cache.data c)))))))
    as Hkeys.
  { intros k Hor.
    destruct (decide (k ∈ obj_keys (Cache.queries (Cache.data c))))
      as [Hk_in|Hk_out].
    - destruct (obj_keys_get _ _ Hk_in) as [snap Hsnap].
      destruct (Hin k snap Hk_in Hsnap) as (id & ->). done.
    - rewrite (Hout k Hk_out). destruct Hor as [?|Hc']; [done|].
      destruct Hc' as [snap Hsnap].
      apply obj_get_Some_keys in Hsnap. done. }
  destruct (key_truthy _) eqn:Htruthy; simpl.
  - apply Hkeys. right. by apply Hco.
  - apply Hkeys. left. exact Hcur.
Qed.

Lemma unit_refresh_sound k r r' :
  unit_refresh opts k r = Some r' → sound r → sound r'.
Proof.
  unfold unit_refresh.
  destruct (obj_get k (queries r)) as [u|] eqn:Hu; simpl; [|done].
  destruct (Query.params (Query.state u)) as [args|]; [|by intros [= <-]].
  unfold unit_run. rewrite Hu. simpl.
  destruct (commit opts _ _ r) as [r2|] eqn:Hc; simpl; [|done].
  intros [= <-] Hs. apply (sound_frame r2); [done..|].
  apply (commit_sound _ _ _ _ Hc); [by eexists | done].
Qed.

(** The constructor leaves the invariant. *)
Lemma useAsyncQuery_sound (e : S) st time r :
  coherentCache opts st → snapshotsHaveParams opts st →
  useAsyncQuery opts e st time = Some r → sound r.
Proof.
  intros Hco Hst. unfold useAsyncQuery.
  assert (sound (rehydrate opts (blank opts e st time))) as H0.
  { split_and!.
    - destruct (AsyncQueryFacts.rehydrate_spec opts (blank opts e st time))
        as (_ & _ & _ & _ & _ & _ & Hwf & _).
      apply Hwf, AsyncQueryFacts.blank_wf.
    - apply ParamsFacts.rehydrate_params; [done|].
      unfold allParams. simpl. repeat constructor. simpl. by eexists.
    - apply rehydrate_current; [done|].
      unfold hasCurrent, latestQuery. by simpl. }
  set (r0 := rehydrate opts _) in *.
  destruct (initialRun opts r0) as [r1|] eqn:Hi; simpl; [|done].
  intros [= <-]. apply (sound_frame r1); [done..|].
  revert Hi. unfold initialRun.
  destruct (manual opts); [by intros [= <-]|].
  destruct (isFresh opts r0); [by intros [= <-]|].
  destruct (hasCacheQueries opts r0).
  - unfold refreshAll. intros H.
    eapply (AsyncQueryFacts.forEach_inv sound); [|exact H|done].
    intros k ra rb Hk Ha. simpl in Hk.
    destruct (obj_get k (queries ra)); [|by injection Hk as <-].
    by apply (unit_refresh_sound _ _ _ Hk).
  - destruct (run opts _ r0) as [[rb p]|] eqn:Hr0; simpl; [|done].
    intros [= <-]. by apply (run_sound _ _ _ _ Hr0).
Qed.

End Facts.

End CurrentFacts.

Import AsyncQuery Watchers.

(** X14.  As long as its owner is mounted, no call on the hook raises
    and a unit is registered under the current key.  This holds from the
    constructor on and through every sequence of calls of [run],
    [cancel], [refresh], [mutate] and [reset], settlements, assignments
    to [ready] and flushes, for a key function that returns no name the
    registry object inherits, and a cache entry, if there is one, whose
    snapshots have params and which holds a snapshot under the sub-key
    it names as current. *)
Theorem current_unit_until_unmounted {S : Type} (opts : Options S)
    (e : S) (st : gmap string Cache.Entry) (time : Z) (r0 : Registry S) :
  ownKeys opts → coherentCache opts st → snapshotsHaveParams opts st →
  useAsyncQuery opts e st time = Some r0 →
  ∀ evs : list AsyncQuery.Event,
    ∃ r, AsyncQuery.exec opts evs r0 = Some r
      ∧ hasCurrent r
      ∧ is_Some (AsyncQuery.cancel opts r)
      ∧ is_Some (refresh opts r).
Proof.
  intros Hown Hco Hst H0 evs.
  pose proof (CurrentFacts.useAsyncQuery_sound opts e st time r0 Hco Hst H0)
    as Hs0.
  destruct (CurrentFacts.exec_sound opts evs r0 Hown Hs0) as (r & Hex & Hs).
  exists r. split; [done|].
  destruct (CurrentFacts.current_returns opts r Hs) as (Hc & Hr & _).
  split_and!; [apply Hs | done | done].
Qed.

Lemma current_unit_until_unmounted_witness :
  ∃ r,
    AsyncQuery.exec (Samples.plain true true)
      [AsyncQuery.SetReady false; AsyncQuery.Run [VNum 1];
       AsyncQuery.Reset; AsyncQuery.Flush] (Samples.fresh true) = Some r
    ∧ hasCurrent r.
Proof.
  destruct (current_unit_until_unmounted (Samples.plain true true) () ∅ 0
              (Samples.fresh true))
    with (evs := [AsyncQuery.SetReady false; AsyncQuery.Run [VNum 1];
                  AsyncQuery.Reset; AsyncQuery.Flush])
    as (r & Hex & Hcur & _).
  - intros e args. reflexivity.
  - intros ck c Hck. discriminate.
  - intros ck c Hck. discriminate.
  - reflexivity.
  - exists r. by split.
Defined.
